(** * tf_keras.engine.base_layer: the Layer call pipeline, tracking and weights

    A shallow embedding of the parts of [tf_keras/engine/base_layer.py] that
    decide how a [Layer] is invoked (mode dispatch, lazy build, call-context
    arguments, autocasting), how attribute assignment tracks sub-layers and
    variables, and how weights are listed, set and loaded; plus the input
    validation of the functional graph as exercised by
    [tf_keras/engine/functional_test.py].

    Python objects are identified by a natural number standing for [id(obj)];
    [is] is equality of that number.  Exceptions are values of [Exn]; a
    function that can raise returns a [Result]. *)

From stdpp Require Import gmap strings list fin_maps pretty.

Set Warnings "-clear-no-such-hyp".

(** ** Exceptions and results *)

Inductive Exn :=
| ValueError (msg : string)
| TypeError (msg : string)
| RuntimeError (msg : string)
| AttributeError (msg : string)
| IndexError (msg : string)
| KeyError (key : string).

Inductive Result (A : Type) :=
| Return (a : A)
| Raise (e : Exn).
Arguments Return {A} a.
Arguments Raise {A} e.

(** [Result] is the error monad: [x ← r; k] runs [k] unless [r] raised. *)
Global Instance Result_ret : MRet Result := λ A a, Return a.

Global Instance Result_bind : MBind Result := λ A B k r,
  match r with
  | Return a => k a
  | Raise e => Raise e
  end.

Definition is_raise {A} (r : Result A) : bool :=
  match r with Raise _ => true | Return _ => false end.

(** ** Element types *)

Inductive DType :=
| float16 | bfloat16 | float32 | float64
| int32 | int64 | uint8 | bool_ | string_ | complex64.

Global Instance DType_eq_dec : EqDecision DType.
Proof. solve_decision. Defined.

(** [DType.is_floating], [is_integer], [is_unsigned], [is_bool]. *)
Definition is_floating (d : DType) : bool :=
  match d with
  | float16 | bfloat16 | float32 | float64 => true
  | _ => false
  end.

Definition is_integer (d : DType) : bool :=
  match d with
  | int32 | int64 | uint8 => true
  | _ => false
  end.

Definition is_unsigned (d : DType) : bool :=
  match d with uint8 => true | _ => false end.

Definition is_bool (d : DType) : bool :=
  match d with bool_ => true | _ => false end.

(** ** Leaves of call arguments

    The kinds of Python object the call pipeline distinguishes by
    [isinstance].  A tensor-like leaf carries its element type and the
    identity of the object. *)

Inductive TensorKind := DenseTensor | SparseTensor | RaggedTensor.

Global Instance TensorKind_eq_dec : EqDecision TensorKind.
Proof. solve_decision. Defined.

Inductive Leaf :=
| PyNone
| PyBool (b : bool)
| PyInt (z : Z)
| PyFloat (bits : Z)
| PyStr (s : string)
| NdArray (dtype : DType) (ident : nat)
| Tensor (kind : TensorKind) (dtype : DType) (ident : nat)
| TensorSpec (dtype : DType) (ident : nat)
| KerasTensor (dtype : DType) (ident : nat)
| PyObject (ident : nat).

Global Instance Leaf_eq_dec : EqDecision Leaf.
Proof. solve_decision. Defined.

(** [isinstance(x, keras_tensor.KerasTensor)] *)
Definition is_KerasTensor (x : Leaf) : bool :=
  match x with KerasTensor _ _ => true | _ => false end.

(** [isinstance(x, (tf.Tensor, np.ndarray, float, int))]; a Python [bool] is
    an [int]. *)
Definition is_numpy_or_python_type (x : Leaf) : bool :=
  match x with
  | Tensor DenseTensor _ _ | NdArray _ _ | PyFloat _ | PyInt _ | PyBool _ => true
  | _ => false
  end.

(** [tf.convert_to_tensor(x)]: the result is a dense tensor; Python floats
    become [float32], integers [int32], booleans [bool] (the tensor made of
    a Python scalar is given the identity 0). *)
Definition convert_to_tensor (x : Leaf) : Leaf :=
  match x with
  | Tensor DenseTensor d i => Tensor DenseTensor d i
  | NdArray d i => Tensor DenseTensor d i
  | PyFloat _ => Tensor DenseTensor float32 0
  | PyInt _ => Tensor DenseTensor int32 0
  | PyBool _ => Tensor DenseTensor bool_ 0
  | other => other
  end.

Definition _convert_numpy_or_python_types (x : Leaf) : Leaf :=
  if is_numpy_or_python_type x then convert_to_tensor x else x.

(** ** Nested structures ([tf.nest])

    A structure is a leaf, a sequence (list or tuple) or a dict.  A dict is
    kept as an association list in the order [tf.nest] traverses it (sorted
    keys). *)

#[warnings="-register-all"]
Inductive Nest :=
| NLeaf (x : Leaf)
| NSeq (xs : list Nest)
| NDict (kvs : list (string * Nest)).

(** [tf.nest.flatten] *)
Fixpoint flatten (n : Nest) : list Leaf :=
  match n with
  | NLeaf x => [x]
  | NSeq xs => mjoin (flatten <$> xs)
  | NDict kvs => mjoin ((λ kv, flatten kv.2) <$> kvs)
  end.

(** [tf.nest.map_structure(f, n)] for one structure *)
Fixpoint map_structure (f : Leaf → Leaf) (n : Nest) : Nest :=
  match n with
  | NLeaf x => NLeaf (f x)
  | NSeq xs => NSeq (map_structure f <$> xs)
  | NDict kvs => NDict ((λ kv, (kv.1, map_structure f kv.2)) <$> kvs)
  end.

(** [x] is a leaf of the structure [n]. *)
Inductive nest_leaf (x : Leaf) : Nest → Prop :=
| leaf_here : nest_leaf x (NLeaf x)
| leaf_seq xs n : n ∈ xs → nest_leaf x n → nest_leaf x (NSeq xs)
| leaf_dict kvs k n : (k, n) ∈ kvs → nest_leaf x n → nest_leaf x (NDict kvs).

(** Python's [None] as a structure, and the test [v is None]. *)
Definition None_ : Nest := NLeaf PyNone.

Definition is_None (v : Nest) : bool :=
  match v with NLeaf PyNone => true | _ => false end.

(** Induction over structures with the hypotheses for the elements. *)
Lemma Nest_induction (P : Nest → Prop) :
  (∀ x, P (NLeaf x)) →
  (∀ xs, Forall P xs → P (NSeq xs)) →
  (∀ kvs, Forall (λ kv, P kv.2) kvs → P (NDict kvs)) →
  ∀ n, P n.
Proof.
  intros Hl Hs Hd.
  fix IH 1. intros [x | xs | kvs].
  - apply Hl.
  - apply Hs. induction xs as [| n xs IHxs]; constructor; [apply IH | exact IHxs].
  - apply Hd. induction kvs as [| [k n] kvs IHkvs]; constructor; [apply IH | exact IHkvs].
Qed.

Lemma flatten_leaf_iff (x : Leaf) (n : Nest) :
  x ∈ flatten n ↔ nest_leaf x n.
Proof.
  induction n as [y | xs IH | kvs IH] using Nest_induction; simpl.
  - rewrite list_elem_of_singleton. split.
    + intros ->. constructor.
    + inversion 1; reflexivity.
  - split.
    + intros Hin. apply list_elem_of_join in Hin as (l & Hx & Hl).
      apply list_elem_of_fmap in Hl as (n & -> & Hn).
      rewrite Forall_forall in IH. apply (leaf_seq x xs n Hn), IH; assumption.
    + inversion 1 as [| ? n Hn Hleaf |]; subst.
      rewrite Forall_forall in IH. apply list_elem_of_join.
      exists (flatten n). split; [apply IH; assumption |].
      apply list_elem_of_fmap. exists n; split; [reflexivity | assumption].
  - split.
    + intros Hin. apply list_elem_of_join in Hin as (l & Hx & Hl).
      apply list_elem_of_fmap in Hl as ([k n] & -> & Hn).
      rewrite Forall_forall in IH.
      apply (leaf_dict x kvs k n Hn), (IH (k, n)); assumption.
    + inversion 1 as [| | ? k n Hn Hleaf]; subst.
      rewrite Forall_forall in IH. apply list_elem_of_join.
      exists (flatten n). split; [apply (IH (k, n)); assumption |].
      apply list_elem_of_fmap. exists (k, n); split; [reflexivity | assumption].
Qed.

Lemma flatten_map_structure (f : Leaf → Leaf) (n : Nest) :
  flatten (map_structure f n) = f <$> flatten n.
Proof.
  induction n as [y | xs IH | kvs IH] using Nest_induction; simpl.
  - reflexivity.
  - induction IH as [| n xs Hn _ IHxs]; simpl in *; [reflexivity |].
    rewrite fmap_app, Hn. f_equal. exact IHxs.
  - induction IH as [| kv kvs Hn _ IHxs]; simpl in *; [reflexivity |].
    rewrite fmap_app, Hn. f_equal. exact IHxs.
Qed.

(** ** Variables, weights and layers *)

(** A [TensorShape]: [None] is an unknown rank, a [None] dimension is
    unknown. *)
Definition TensorShape := option (list (option nat)).

Definition dim_compatible (a b : option nat) : bool :=
  match a, b with
  | Some x, Some y => bool_decide (x = y)
  | _, _ => true
  end.

Fixpoint dims_compatible (a b : list (option nat)) : bool :=
  match a, b with
  | [], [] => true
  | x :: a', y :: b' => dim_compatible x y && dims_compatible a' b'
  | _, _ => false
  end.

(** [TensorShape.is_compatible_with] *)
Definition is_compatible_with (a b : TensorShape) : bool :=
  match a, b with
  | Some da, Some db => dims_compatible da db
  | _, _ => true
  end.

(** A value offered to a variable: a NumPy array, or an object without a
    [shape] attribute. *)
Record Value := mkValue {
  value_shape : option (list nat);
  value_data : nat
}.

Global Instance Value_eq_dec : EqDecision Value.
Proof. solve_decision. Defined.

(** [weight.shape if hasattr(weight, "shape") else ()] *)
Definition shape_of_value (w : Value) : TensorShape :=
  match value_shape w with
  | Some s => Some (Some <$> s)
  | None => Some []
  end.

(** A [tf.Variable].  [var_autocast] records that it was wrapped in an
    [AutoCastVariable] on creation. *)
Record TfVariable := mkVariable {
  var_id : nat;
  var_name : string;
  var_shape : TensorShape;
  var_dtype : DType;
  var_trainable : bool;
  var_autocast : bool
}.

(** A [TrackableWeightHandler] holding [num_tensors] tensors. *)
Record WeightHandler := mkWeightHandler {
  handler_id : nat;
  num_tensors : nat
}.

(** What the weight lists of a layer hold. *)
Inductive Weight :=
| WVar (v : TfVariable)
| WHandler (h : WeightHandler).

(** [id(w)] *)
Definition weight_id (w : Weight) : nat :=
  match w with
  | WVar v => var_id v
  | WHandler h => handler_id h
  end.

(** Modelled from the spec: [policy.Policy] (mixed_precision/policy.py is not
    under src), the pairing of the storage element type and the compute
    element type; both are [None] for the policy that is still to be
    inferred from the first input or variable. *)
Record Policy := mkPolicy {
  variable_dtype : option DType;
  compute_dtype : option DType
}.

(** [policy.Policy(dtype.name)] for a plain dtype name *)
Definition Policy_of (d : DType) : Policy :=
  {| variable_dtype := Some d; compute_dtype := Some d |}.

(** The attributes of a [Layer] instance that the modelled methods read or
    write.  [layer_id] is [id(self)]; [_has_activity_regularizer] tells
    whether [_activity_regularizer] is set; [_self_tracked_trackables] holds
    the tracked sub-layers. *)
#[warnings="-register-all"]
Inductive Layer := mkLayer {
  layer_id : nat;
  name : string;
  built : bool;
  _build_input_shape : option (list TensorShape);
  _trainable : bool;
  _dynamic : bool;
  _autocast : bool;
  _dtype_policy : Policy;
  _initial_weights : option (list Value);
  _supports_masking : bool;
  _has_activity_regularizer : bool;
  _saved_model_inputs_spec : option Nest;
  _call_context_args : gset string;
  _trainable_weights : list Weight;
  _non_trainable_weights : list Weight;
  _self_tracked_trackables : list Layer
}.

(** [self._build_input_shape = s; self.built = b] *)
Definition set_built (b : bool) (s : option (list TensorShape)) (l : Layer) : Layer :=
  mkLayer (layer_id l) (name l) b s (_trainable l) (_dynamic l) (_autocast l)
    (_dtype_policy l) (_initial_weights l) (_supports_masking l)
    (_has_activity_regularizer l) (_saved_model_inputs_spec l)
    (_call_context_args l) (_trainable_weights l) (_non_trainable_weights l)
    (_self_tracked_trackables l).

(** [self._dtype_policy = p] *)
Definition set_dtype_policy (p : Policy) (l : Layer) : Layer :=
  mkLayer (layer_id l) (name l) (built l) (_build_input_shape l)
    (_trainable l) (_dynamic l) (_autocast l) p (_initial_weights l)
    (_supports_masking l) (_has_activity_regularizer l)
    (_saved_model_inputs_spec l) (_call_context_args l) (_trainable_weights l)
    (_non_trainable_weights l) (_self_tracked_trackables l).

(** [self._initial_weights = w] *)
Definition set_initial_weights (w : option (list Value)) (l : Layer) : Layer :=
  mkLayer (layer_id l) (name l) (built l) (_build_input_shape l)
    (_trainable l) (_dynamic l) (_autocast l) (_dtype_policy l) w
    (_supports_masking l) (_has_activity_regularizer l)
    (_saved_model_inputs_spec l) (_call_context_args l) (_trainable_weights l)
    (_non_trainable_weights l) (_self_tracked_trackables l).

(** [self._saved_model_inputs_spec = s] *)
Definition set_saved_model_inputs_spec (s : option Nest) (l : Layer) : Layer :=
  mkLayer (layer_id l) (name l) (built l) (_build_input_shape l)
    (_trainable l) (_dynamic l) (_autocast l) (_dtype_policy l)
    (_initial_weights l) (_supports_masking l) (_has_activity_regularizer l) s
    (_call_context_args l) (_trainable_weights l) (_non_trainable_weights l)
    (_self_tracked_trackables l).

(** [self._trainable_weights = tw; self._non_trainable_weights = ntw] *)
Definition set_weight_lists (tw ntw : list Weight) (l : Layer) : Layer :=
  mkLayer (layer_id l) (name l) (built l) (_build_input_shape l)
    (_trainable l) (_dynamic l) (_autocast l) (_dtype_policy l)
    (_initial_weights l) (_supports_masking l) (_has_activity_regularizer l)
    (_saved_model_inputs_spec l) (_call_context_args l) tw ntw
    (_self_tracked_trackables l).

(** ** Listing weights *)

(** [Layer._dedup_weights]: keep the first occurrence of every identity. *)
Fixpoint dedup_from (seen_ids : gset nat) (weights : list Weight) : list Weight :=
  match weights with
  | [] => []
  | w :: rest =>
      if decide (weight_id w ∈ seen_ids) then dedup_from seen_ids rest
      else w :: dedup_from ({[weight_id w]} ∪ seen_ids) rest
  end.

Definition _dedup_weights (weights : list Weight) : list Weight :=
  dedup_from ∅ weights.

(** The [seen_object_ids] filter of [Layer._flatten_modules], over the
    sub-layers paired with what is gathered from each. *)
Fixpoint unseen_modules {A} (seen_object_ids : gset nat) (ms : list (nat * A)) : list A :=
  match ms with
  | [] => []
  | (i, a) :: rest =>
      if decide (i ∈ seen_object_ids) then unseen_modules seen_object_ids rest
      else a :: unseen_modules ({[i]} ∪ seen_object_ids) rest
  end.

(** [Layer._gather_children_attribute(attribute)]: [attribute] of every
    module [_flatten_modules(include_self=False, recursive=False)] yields,
    chained. *)
Definition _gather_children_attribute (attribute : Layer → list Weight)
    (l : Layer) : list Weight :=
  mjoin (unseen_modules ∅ ((λ c, (layer_id c, attribute c)) <$> _self_tracked_trackables l)).

(** The property [Layer.trainable_weights] (alias [trainable_variables]). *)
Fixpoint trainable_weights (l : Layer) : list Weight :=
  if _trainable l then
    _dedup_weights
      (_trainable_weights l
       ++ mjoin (unseen_modules ∅
            ((λ c, (layer_id c, trainable_weights c)) <$> _self_tracked_trackables l)))
  else [].

(** The properties [Layer.non_trainable_weights] and [Layer.weights] (alias
    [variables]), which call each other through the sub-layers: the pair is
    ([non_trainable_weights], [weights]). *)
Fixpoint non_trainable_and_all (l : Layer) : list Weight * list Weight :=
  let children := (λ c, (layer_id c, non_trainable_and_all c)) <$> _self_tracked_trackables l in
  let non_trainable :=
    if _trainable l then
      _dedup_weights (_non_trainable_weights l ++ mjoin (fst <$> unseen_modules ∅ children))
    else
      _dedup_weights
        (_trainable_weights l ++ _non_trainable_weights l
         ++ mjoin (snd <$> unseen_modules ∅ children)) in
  (non_trainable, trainable_weights l ++ non_trainable).

Definition non_trainable_weights (l : Layer) : list Weight :=
  (non_trainable_and_all l).1.

Definition weights (l : Layer) : list Weight :=
  (non_trainable_and_all l).2.

(** [Layer.__init__(trainable, name, dtype, dynamic, weights=.., autocast=..)]
    of a class with the default [compute_mask] and no activity regularizer:
    the attributes of a freshly constructed layer. *)
Definition Layer_init (ident : nat) (nm : string) (trainable : bool)
    (dtype : Policy) (dynamic autocast : bool)
    (initial_weights : option (list Value)) : Layer :=
  mkLayer ident nm false None trainable dynamic autocast dtype initial_weights
    false false None {["training"]} [] [] [].

(** *** Facts about the listing *)

Lemma dedup_from_ids (seen : gset nat) (ws : list Weight) (i : nat) :
  i ∈ weight_id <$> dedup_from seen ws ↔ i ∈ weight_id <$> ws ∧ i ∉ seen.
Proof.
  revert seen. induction ws as [| w ws IH]; intros seen; simpl.
  - rewrite elem_of_nil. tauto.
  - destruct (decide (weight_id w ∈ seen)) as [Hin | Hout].
    + rewrite IH, elem_of_cons. split; [tauto |].
      intros [[-> | H] Hs]; [contradiction | tauto].
    + rewrite fmap_cons, !elem_of_cons, IH. split.
      * intros [-> | [H Hs]]; [tauto |]. split; [tauto | set_solver].
      * intros [[-> | H] Hs]; [tauto |].
        destruct (decide (i = weight_id w)) as [-> | Hne]; [tauto |].
        right. split; [assumption | set_solver].
Qed.

Lemma dedup_from_NoDup (seen : gset nat) (ws : list Weight) :
  NoDup (weight_id <$> dedup_from seen ws).
Proof.
  revert seen. induction ws as [| w ws IH]; intros seen; simpl.
  - constructor.
  - destruct (decide (weight_id w ∈ seen)); [apply IH |].
    rewrite fmap_cons. constructor; [| apply IH].
    rewrite dedup_from_ids. set_solver.
Qed.

Lemma dedup_from_subseteq (seen : gset nat) (ws : list Weight) :
  dedup_from seen ws ⊆ ws.
Proof.
  revert seen. induction ws as [| w ws IH]; intros seen; simpl; [done |].
  destruct (decide (weight_id w ∈ seen)).
  - intros x Hx. apply elem_of_cons. right. by apply (IH seen).
  - intros x Hx. apply elem_of_cons in Hx as [-> | Hx]; apply elem_of_cons;
      [by left | right; by apply (IH ({[weight_id w]} ∪ seen))].
Qed.

(** A weight list whose identities are already distinct is left as it is. *)
Lemma dedup_from_id_on_NoDup (seen : gset nat) (ws : list Weight) :
  NoDup (weight_id <$> ws) →
  (∀ w, w ∈ ws → weight_id w ∉ seen) →
  dedup_from seen ws = ws.
Proof.
  revert seen. induction ws as [| w ws IH]; intros seen Hnd Hseen; simpl; [done |].
  rewrite fmap_cons in Hnd. apply NoDup_cons in Hnd as [Hw Hnd].
  destruct (decide (weight_id w ∈ seen)) as [Hin | _].
  - exfalso. apply (Hseen w); [by left | assumption].
  - f_equal. apply IH; [assumption |].
    intros w' Hw'. apply not_elem_of_union. split.
    + intros Heq%elem_of_singleton. apply Hw. rewrite <- Heq.
      by apply list_elem_of_fmap_2.
    + apply Hseen. by right.
Qed.

Lemma unseen_modules_fmap {A B} (f : A → B) (seen : gset nat) (ms : list (nat * A)) :
  f <$> unseen_modules seen ms = unseen_modules seen ((λ p, (p.1, f p.2)) <$> ms).
Proof.
  revert seen. induction ms as [| [i a] ms IH]; intros seen; simpl; [done |].
  destruct (decide (i ∈ seen)); [apply IH |].
  rewrite fmap_cons. f_equal. apply IH.
Qed.

Lemma weights_unfold (l : Layer) :
  weights l = trainable_weights l ++ non_trainable_weights l.
Proof. destruct l; reflexivity. Qed.

Lemma trainable_weights_frozen (l : Layer) :
  _trainable l = false → trainable_weights l = [].
Proof. destruct l; simpl. by intros ->. Qed.

Lemma non_trainable_weights_frozen (l : Layer) :
  _trainable l = false →
  non_trainable_weights l =
    _dedup_weights (_trainable_weights l ++ _non_trainable_weights l
                    ++ _gather_children_attribute weights l).
Proof.
  destruct l as [i nm b s tr dy au po iw sm ar sp cc tw ntw subs]; simpl.
  intros ->. unfold non_trainable_weights, _gather_children_attribute. simpl.
  do 3 f_equal. rewrite unseen_modules_fmap, <- list_fmap_compose.
  reflexivity.
Qed.

Lemma non_trainable_weights_trainable (l : Layer) :
  _trainable l = true →
  non_trainable_weights l =
    _dedup_weights (_non_trainable_weights l
                    ++ _gather_children_attribute non_trainable_weights l).
Proof.
  destruct l as [i nm b s tr dy au po iw sm ar sp cc tw ntw subs]; simpl.
  intros ->. unfold non_trainable_weights, _gather_children_attribute. simpl.
  do 2 f_equal. rewrite unseen_modules_fmap, <- list_fmap_compose.
  reflexivity.
Qed.

Lemma trainable_weights_NoDup (l : Layer) :
  NoDup (weight_id <$> trainable_weights l).
Proof.
  destruct l as [i nm b s tr dy au po iw sm ar sp cc tw ntw subs]; simpl.
  destruct tr; [apply dedup_from_NoDup | constructor].
Qed.

Lemma non_trainable_weights_NoDup (l : Layer) :
  NoDup (weight_id <$> non_trainable_weights l).
Proof.
  destruct (_trainable l) eqn:Htr.
  - rewrite non_trainable_weights_trainable by assumption. apply dedup_from_NoDup.
  - rewrite non_trainable_weights_frozen by assumption. apply dedup_from_NoDup.
Qed.

(** Example: a trainable parent that tracks a frozen sub-layer and also
    holds the sub-layer's kernel under an attribute of its own
    ([parent.child = child; parent.k = child.kernel; child.trainable = False]). *)
Definition shared_kernel : Weight :=
  WVar (mkVariable 1 "kernel" (Some [Some 3; Some 1]) float32 true false).

Definition child_bias : Weight :=
  WVar (mkVariable 2 "bias" (Some [Some 1]) float32 true false).

Definition frozen_child : Layer :=
  mkLayer 10 "child" true None false false true (Policy_of float32) None
    false false None {["training"]} [shared_kernel; child_bias] [] [].

Definition sharing_parent : Layer :=
  mkLayer 11 "parent" false None true false true (Policy_of float32) None
    false false None {["training"]} [shared_kernel] [] [frozen_child].

(** C9 (as the code has it).  With [trainable] false, [trainable_weights] is
    empty and [non_trainable_weights] is the de-duplicated list of the
    layer's own trainable and non-trainable variables followed by the
    variables of its sub-layers; [weights] is [trainable_weights] followed by
    [non_trainable_weights]; each of the two parts is free of duplicates by
    identity, and [weights] is so whenever no identity occurs in both parts. *)
Theorem weights_listing (l : Layer) :
  (_trainable l = false →
     trainable_weights l = [] ∧
     non_trainable_weights l =
       _dedup_weights (_trainable_weights l ++ _non_trainable_weights l
                       ++ _gather_children_attribute weights l) ∧
     ∀ i, i ∈ weight_id <$> non_trainable_weights l ↔
          i ∈ weight_id <$> (_trainable_weights l ++ _non_trainable_weights l
                             ++ _gather_children_attribute weights l)) ∧
  weights l = trainable_weights l ++ non_trainable_weights l ∧
  NoDup (weight_id <$> trainable_weights l) ∧
  NoDup (weight_id <$> non_trainable_weights l) ∧
  ((∀ w, w ∈ trainable_weights l → weight_id w ∉ weight_id <$> non_trainable_weights l) →
   NoDup (weight_id <$> weights l)).
Proof.
  split; [| split; [| split; [| split]]].
  - intros Hfrozen. split; [by apply trainable_weights_frozen |].
    split; [by apply non_trainable_weights_frozen |].
    intros i. rewrite non_trainable_weights_frozen by assumption.
    unfold _dedup_weights. rewrite dedup_from_ids. set_solver.
  - apply weights_unfold.
  - apply trainable_weights_NoDup.
  - apply non_trainable_weights_NoDup.
  - intros Hdisjoint. rewrite weights_unfold, fmap_app. apply NoDup_app.
    split; [apply trainable_weights_NoDup |].
    split; [| apply non_trainable_weights_NoDup].
    intros i Hi. apply list_elem_of_fmap in Hi as (w & -> & Hw).
    by apply Hdisjoint.
Qed.

(** C9 at the frozen sub-layer of the example. *)
Lemma weights_listing_witness :
  trainable_weights frozen_child = [] ∧
  non_trainable_weights frozen_child = [shared_kernel; child_bias].
Proof.
  destruct (weights_listing frozen_child) as [Hfrozen _].
  destruct (Hfrozen eq_refl) as (Htw & Hntw & _).
  split; [exact Htw |]. rewrite Hntw. vm_compute. reflexivity.
Defined.

(** C9 as stated fails: the kernel shared with the frozen sub-layer is
    listed once among the parent's trainable weights and once among its
    non-trainable weights, so [weights] holds it twice. *)
Lemma weights_duplicate_counterexample :
  ¬ (∀ l : Layer, NoDup (weight_id <$> weights l)).
Proof.
  intros Hall. specialize (Hall sharing_parent).
  assert (Hw : weight_id <$> weights sharing_parent = [1; 1; 2]) by (vm_compute; reflexivity).
  rewrite Hw in Hall. apply NoDup_cons in Hall as [Hnotin _].
  apply Hnotin. by left.
Qed.

(** ** Setting and loading weight values

    Variables and weight handlers live outside the layer; what a method does
    to them is recorded as the calls it makes, in order. *)

Inductive Effect :=
| HandlerSetWeights (h : WeightHandler) (tensors : list Value)
    (* [param.set_weights(tensors)] on a [TrackableWeightHandler] *)
| BatchSetValue (tuples : list (TfVariable * Value))
    (* [backend.batch_set_value(weight_value_tuples)] *)
| Assign (v : Weight) (value : Value)
    (* [v.assign(value)] *).

(** The first loop of [Layer.set_weights]. *)
Definition expected_num_weights (params : list Weight) : nat :=
  foldl (λ n param,
           match param with
           | WHandler h => n + num_tensors h
           | WVar _ => n + 1
           end) 0 params.

Definition set_weights_length_error (l : Layer) (given expected : nat) : Exn :=
  ValueError ("You called `set_weights(weights)` on layer " +:+ name l
              +:+ " with a weight list of length " +:+ pretty given
              +:+ ", but the layer was expecting " +:+ pretty expected
              +:+ " weights.").

Definition set_weights_shape_error (l : Layer) : Exn :=
  ValueError ("Layer " +:+ name l
              +:+ " weight shape is not compatible with provided weight shape.").

(** The second loop of [Layer.set_weights]: a handler is given its slice of
    the values at once, a variable is checked against its value and queued
    in [weight_value_tuples]. *)
Fixpoint set_weights_loop (l : Layer) (params : list Weight) (values : list Value)
    (weight_index : nat) (weight_value_tuples : list (TfVariable * Value))
    : list Effect * Result (list (TfVariable * Value)) :=
  match params with
  | [] => ([], Return weight_value_tuples)
  | WHandler h :: rest =>
      let tensors := take (num_tensors h) (drop weight_index values) in
      let '(effects, r) :=
        set_weights_loop l rest values (weight_index + num_tensors h)
          weight_value_tuples in
      (HandlerSetWeights h tensors :: effects, r)
  | WVar v :: rest =>
      match values !! weight_index with
      | None => ([], Raise (IndexError "list index out of range"))
      | Some weight =>
          if is_compatible_with (var_shape v) (shape_of_value weight) then
            set_weights_loop l rest values (weight_index + 1)
              (weight_value_tuples ++ [(v, weight)])
          else ([], Raise (set_weights_shape_error l))
      end
  end.

(** [Layer.set_weights(weights)], up to the closing [finalize_state] calls
    (which do nothing unless a subclass overrides them). *)
Definition set_weights (l : Layer) (values : list Value) : list Effect * Result unit :=
  let params := weights l in
  if decide (expected_num_weights params ≠ length values) then
    ([], Raise (set_weights_length_error l (length values) (expected_num_weights params)))
  else
    match set_weights_loop l params values 0 [] with
    | (effects, Return weight_value_tuples) =>
        (effects ++ [BatchSetValue weight_value_tuples], Return ())
    | (effects, Raise e) => (effects, Raise e)
    end.

Definition load_own_variables_error (l : Layer) (expected received : nat) : Exn :=
  ValueError ("Layer '" +:+ name l +:+ "' expected " +:+ pretty expected
              +:+ " variables, but received " +:+ pretty received
              +:+ " variables during loading.").

(** The loop [for i, v in enumerate(all_vars): v.assign(store[f"{i}"])]. *)
Fixpoint load_own_variables_loop (store : gmap string Value) (i : nat)
    (all_vars : list Weight) : list Effect * Result unit :=
  match all_vars with
  | [] => ([], Return ())
  | v :: rest =>
      match store !! pretty i with
      | None => ([], Raise (KeyError (pretty i)))
      | Some value =>
          let '(effects, r) := load_own_variables_loop store (S i) rest in
          (Assign v value :: effects, r)
      end
  end.

(** [Layer.load_own_variables(store)].  [_update_trackables] only looks at
    tracked data structures, which a [Layer] of this model does not hold. *)
Definition load_own_variables (l : Layer) (store : gmap string Value)
    : list Effect * Result unit :=
  let all_vars := _trainable_weights l ++ _non_trainable_weights l in
  if decide (size store ≠ length all_vars) then
    ([], Raise (load_own_variables_error l (length all_vars) (size store)))
  else load_own_variables_loop store 0 all_vars.

(** [Layer.save_own_variables(store)]: the values the variables hold, under
    their ordinal positions. *)
Definition save_own_variables (numpy : Weight → Value) (l : Layer)
    (store : gmap string Value) : gmap string Value :=
  let all_vars := _trainable_weights l ++ _non_trainable_weights l in
  foldl (λ st iv, <[pretty iv.1 := numpy iv.2]> st) store (imap (λ i v, (i, v)) all_vars).

(** *** Facts about [set_weights] *)







Definition vector_variable : TfVariable :=
  mkVariable 6 "v" (Some [Some 2]) float32 true false.


Definition layer_with_variable : Layer :=
  mkLayer 13 "dense" true None true false true (Policy_of float32) None
    false false None {["training"]} [WVar vector_variable] [] [].




(** *** Facts about [load_own_variables] *)

Lemma load_own_variables_loop_spec store i all_vars effects r :
  load_own_variables_loop store i all_vars = (effects, r) →
  (∀ k ef, effects !! k = Some ef →
     ∃ v x, all_vars !! k = Some v ∧ store !! pretty (i + k) = Some x ∧ ef = Assign v x) ∧
  (r = Return () → length effects = length all_vars).
Proof.
  revert i effects r. induction all_vars as [| v rest IH]; intros i effects r; simpl.
  - intros [= <- <-]. split; [intros k ef Hk; by rewrite lookup_nil in Hk | done].
  - destruct (store !! pretty i) as [x |] eqn:Hx.
    + destruct (load_own_variables_loop store (S i) rest) as [effects' r'] eqn:Hloop.
      intros [= <- <-]. apply IH in Hloop as [Hassign Hlen]. split.
      * intros [| k] ef Hk; simpl in Hk.
        -- injection Hk as <-. exists v, x. by rewrite Nat.add_0_r.
        -- apply Hassign in Hk as (v' & x' & Hv & Hs & ->).
           exists v', x'. simpl. by rewrite Nat.add_succ_r.
      * intros Hr. simpl. f_equal. by apply Hlen.
    + intros [= <- <-]. split; [intros k ef Hk; by rewrite lookup_nil in Hk | done].
Qed.

(** C7.  [load_own_variables] raises the [ValueError] that names the layer,
    before assigning anything, whenever the number of keys of the store
    differs from the number of the layer's own variables; a variable is
    assigned only when the counts match, and then the variable at position
    [i] of [_trainable_weights + _non_trainable_weights] is assigned the
    store's value under the key [i]. *)
Theorem load_own_variables_checks_count (l : Layer) (store : gmap string Value) :
  let all_vars := _trainable_weights l ++ _non_trainable_weights l in
  (size store ≠ length all_vars →
     load_own_variables l store =
       ([], Raise (load_own_variables_error l (length all_vars) (size store)))) ∧
  (∀ effects r, load_own_variables l store = (effects, r) →
     (effects ≠ [] → size store = length all_vars) ∧
     (∀ k ef, effects !! k = Some ef →
        ∃ v x, all_vars !! k = Some v ∧ store !! pretty k = Some x ∧ ef = Assign v x) ∧
     (r = Return () →
        size store = length all_vars ∧ length effects = length all_vars)).
Proof.
  intros all_vars. unfold load_own_variables. fold all_vars. split.
  - intros Hne. by rewrite decide_True.
  - intros effects r.
    destruct (decide (size store ≠ length all_vars)) as [Hne | Heq].
    + intros [= <- <-]. split; [done |].
      split; [intros k ef Hk; by rewrite lookup_nil in Hk | discriminate].
    + apply dec_stable in Heq. intros Hloop.
      apply load_own_variables_loop_spec in Hloop as [Hassign Hlen].
      split; [done |]. split; [exact Hassign |]. intros Hr. split; [done | by apply Hlen].
Qed.

(** Example: a store with two values offered to a layer with one variable,
    and a store with the one value it needs. *)
Definition two_value_store : gmap string Value :=
  <["0" := mkValue (Some [2]) 7]> (<["1" := mkValue (Some [2]) 8]> ∅).

Definition one_value_store : gmap string Value :=
  <["0" := mkValue (Some [2]) 7]> ∅.

Lemma load_own_variables_checks_count_witness :
  load_own_variables layer_with_variable two_value_store =
    ([], Raise (load_own_variables_error layer_with_variable 1 2)) ∧
  load_own_variables layer_with_variable one_value_store =
    ([Assign (WVar vector_variable) (mkValue (Some [2]) 7)], Return ()).
Proof.
  split.
  - destruct (load_own_variables_checks_count layer_with_variable two_value_store)
      as [Hmismatch _].
    rewrite Hmismatch; [reflexivity | by vm_compute].
  - vm_compute. reflexivity.
Defined.

(** ** Autocasting of inputs and the dtype of created variables *)

(** [Layer._compute_dtype_object], which [_set_dtype_policy] caches from the
    policy's compute dtype. *)
Definition _compute_dtype_object (l : Layer) : option DType :=
  compute_dtype (_dtype_policy l).

(** [tf.cast(x, dtype)] on a tensor *)
Definition cast (x : Leaf) (d : DType) : Leaf :=
  match x with
  | Tensor k _ i => Tensor k d i
  | other => other
  end.

(** [Layer._should_cast_single_input]; [_AUTOCAST_TYPES] are the dense,
    sparse and ragged tensors. *)
Definition _should_cast_single_input (l : Layer) (x : Leaf) : bool :=
  match x with
  | Tensor _ dtype _ =>
      match _compute_dtype_object l with
      | Some c => bool_decide (dtype ≠ c) && is_floating dtype
      | None => false
      end
  | _ => false
  end.

(** [Layer._cast_single_input] *)
Definition _cast_single_input (l : Layer) (x : Leaf) : Leaf :=
  if _should_cast_single_input l x then
    match _compute_dtype_object l with
    | Some c => cast x c
    | None => x
    end
  else x.

(** [Layer._maybe_cast_inputs(inputs, input_list=None)] *)
Definition _maybe_cast_inputs (l : Layer) (inputs : Nest)
    (input_list : option (list Leaf)) : Nest :=
  let input_list :=
    match input_list with
    | None | Some [] => flatten inputs
    | Some xs => xs
    end in
  let compute_dtype_object := _compute_dtype_object l in
  let should_autocast :=
    _autocast l &&
    match compute_dtype_object with
    | Some c => is_floating c
    | None => false
    end in
  if should_autocast && existsb (_should_cast_single_input l) input_list then
    map_structure (_cast_single_input l) inputs
  else inputs.

Inductive VariableSynchronization := AUTO | ON_WRITE | ON_READ.

Definition add_weight_on_read_error : Exn :=
  ValueError ("Synchronization value can be set to VariableSynchronization.ON_READ "
              +:+ "only for non-trainable variables.").

Definition add_weight_initializer_error (l : Layer) (nm : string) : Exn :=
  ValueError ("An initializer for variable " +:+ nm
              +:+ " is required for layer " +:+ name l +:+ ".").

(** [Layer.add_weight(name, shape, dtype, initializer, trainable=..,
    synchronization=.., autocast=.., experimental_autocast=.., getter=..)],
    for an unpartitioned variable without regularizer.  [floatx] is
    [backend.floatx()] and [ident] the identity of the variable the getter
    makes; [has_initializer] and [has_getter] tell whether these arguments
    were given.  The result is the variable and the layer that tracks it. *)
Definition add_weight (floatx : DType) (l : Layer) (ident : nat) (nm : string)
    (shape : option TensorShape) (dtype : option DType) (has_initializer : bool)
    (trainable : option bool) (synchronization : VariableSynchronization)
    (autocast experimental_autocast : option bool) (has_getter : bool)
    : Result (TfVariable * Layer) :=
  let shape := default (Some []) shape in
  let autocast :=
    match autocast with
    | Some a => a
    | None => default true experimental_autocast
    end in
  let dtype :=
    match dtype with
    | Some d => d
    | None => default floatx (variable_dtype (_dtype_policy l))
    end in
  let l :=
    match variable_dtype (_dtype_policy l) with
    | None => set_dtype_policy (Policy_of dtype) l
    | Some _ => l
    end in
  trainable ←
    match synchronization with
    | ON_READ =>
        if default false trainable then Raise add_weight_on_read_error
        else Return false
    | _ => Return (default true trainable)
    end;
  _ ←
    (if negb has_initializer
        && negb (is_floating dtype)
        && negb (is_integer dtype || is_unsigned dtype || is_bool dtype)
        && negb has_getter
     then Raise (add_weight_initializer_error l nm)
     else Return ());
  let wrapped :=
    autocast
    && bool_decide (compute_dtype (_dtype_policy l) ≠ variable_dtype (_dtype_policy l))
    && is_floating dtype in
  let variable := mkVariable ident nm shape dtype trainable wrapped in
  Return
    (variable,
     if trainable then
       set_weight_lists (_trainable_weights l ++ [WVar variable])
         (_non_trainable_weights l) l
     else
       set_weight_lists (_trainable_weights l)
         (_non_trainable_weights l ++ [WVar variable]) l).

(** The casting the specification asks for, leaf by leaf: a floating-point
    tensor of another element type than [c] becomes a tensor of element
    type [c]; every other leaf stays. *)
Definition cast_floating_to (c : DType) (x : Leaf) : Leaf :=
  match x with
  | Tensor k d i => if is_floating d && bool_decide (d ≠ c) then Tensor k c i else x
  | other => other
  end.

Lemma map_structure_ext (f g : Leaf → Leaf) (n : Nest) :
  (∀ x, x ∈ flatten n → f x = g x) →
  map_structure f n = map_structure g n.
Proof.
  induction n as [y | xs IH | kvs IH] using Nest_induction; simpl; intros Hfg.
  - f_equal. apply Hfg. by left.
  - f_equal. induction IH as [| n xs Hn _ IHxs]; simpl in *; [done |].
    f_equal.
    + apply Hn. intros x Hx. apply Hfg. apply elem_of_app. by left.
    + apply IHxs. intros x Hx. apply Hfg. apply elem_of_app. by right.
  - f_equal. induction IH as [| [k n] kvs Hn _ IHxs]; simpl in *; [done |].
    f_equal.
    + f_equal. apply Hn. intros x Hx. apply Hfg. apply elem_of_app. by left.
    + apply IHxs. intros x Hx. apply Hfg. apply elem_of_app. by right.
Qed.

Lemma map_structure_id (n : Nest) : map_structure id n = n.
Proof.
  induction n as [y | xs IH | kvs IH] using Nest_induction; simpl.
  - done.
  - f_equal. induction IH as [| n xs Hn _ IHxs]; simpl in *; [done | by f_equal].
  - f_equal. induction IH as [| [k n] kvs Hn _ IHxs]; simpl in *; [done |].
    f_equal; [by f_equal | done].
Qed.

Lemma _cast_single_input_floating (l : Layer) (c : DType) (x : Leaf) :
  _compute_dtype_object l = Some c →
  _cast_single_input l x = cast_floating_to c x.
Proof.
  intros Hc. unfold _cast_single_input, _should_cast_single_input, cast_floating_to.
  rewrite Hc. destruct x as [| | | | | | k d i | | |]; try done.
  simpl. rewrite andb_comm. by destruct (is_floating d && bool_decide (d ≠ c)).
Qed.

Lemma _maybe_cast_inputs_unfold (l : Layer) (inputs : Nest) (input_list : option (list Leaf)) :
  input_list = None ∨ input_list = Some (flatten inputs) →
  _maybe_cast_inputs l inputs input_list =
    if _autocast l
       && match _compute_dtype_object l with Some c => is_floating c | None => false end
       && existsb (_should_cast_single_input l) (flatten inputs)
    then map_structure (_cast_single_input l) inputs
    else inputs.
Proof.
  intros [-> | ->]; unfold _maybe_cast_inputs; [done |].
  by destruct (flatten inputs).
Qed.

Lemma _maybe_cast_inputs_casts (l : Layer) (inputs : Nest) (input_list : option (list Leaf)) (c : DType) :
  input_list = None ∨ input_list = Some (flatten inputs) →
  _autocast l = true → _compute_dtype_object l = Some c → is_floating c = true →
  _maybe_cast_inputs l inputs input_list = map_structure (cast_floating_to c) inputs.
Proof.
  intros Hlist Hauto Hc Hfloat. rewrite _maybe_cast_inputs_unfold by assumption.
  rewrite Hauto, Hc, Hfloat. simpl.
  destruct (existsb (_should_cast_single_input l) (flatten inputs)) eqn:Hany.
  - apply map_structure_ext. intros x _. by apply _cast_single_input_floating.
  - rewrite <- (map_structure_id inputs) at 1. apply map_structure_ext.
    intros x Hx. rewrite <- (_cast_single_input_floating l) by assumption.
    unfold _cast_single_input.
    destruct (_should_cast_single_input l x) eqn:Hx'; [| done].
    assert (Hex : existsb (_should_cast_single_input l) (flatten inputs) = true).
    { apply existsb_exists. exists x. split; [by apply list_elem_of_In | done]. }
    congruence.
Qed.

(** Examples: a mixed-precision layer ([float16] compute, [float32]
    storage) and an integer layer ([Layer(dtype="int32")]), both with the
    autocast flag set. *)
Definition mixed_float16 : Policy :=
  {| variable_dtype := Some float32; compute_dtype := Some float16 |}.

Definition mixed_layer : Layer :=
  Layer_init 20 "mixed" true mixed_float16 false true None.

Definition int32_layer : Layer :=
  Layer_init 21 "ints" true (Policy_of int32) false true None.

Definition mixed_inputs : Nest :=
  NSeq [NLeaf (Tensor DenseTensor float32 1); NLeaf (Tensor DenseTensor int32 2);
        NLeaf (PyStr "label")].

(** C6 (as the code has it).  With the autocast flag set and a
    floating-point compute dtype, the inputs handed to [call] are the given
    ones with every floating-point tensor of another dtype cast to the
    compute dtype and every other leaf unchanged; with the flag unset, or a
    compute dtype that is missing or not floating-point, the inputs are left
    as they are.  A variable made by [add_weight] has the dtype asked for,
    or else the policy's variable dtype (or [floatx] while the policy is
    still to be inferred): the compute dtype plays no part in it. *)
Theorem autocast_casts_floating_inputs (l : Layer) (inputs : Nest)
    (input_list : option (list Leaf)) :
  input_list = None ∨ input_list = Some (flatten inputs) →
  (∀ c, _autocast l = true → _compute_dtype_object l = Some c → is_floating c = true →
     _maybe_cast_inputs l inputs input_list = map_structure (cast_floating_to c) inputs) ∧
  (_autocast l = false → _maybe_cast_inputs l inputs input_list = inputs) ∧
  (∀ c, _compute_dtype_object l = Some c → is_floating c = false →
     _maybe_cast_inputs l inputs input_list = inputs) ∧
  (_compute_dtype_object l = None → _maybe_cast_inputs l inputs input_list = inputs) ∧
  (∀ floatx ident nm shape dtype ini trainable sync ac eac getter v l',
     add_weight floatx l ident nm shape dtype ini trainable sync ac eac getter
       = Return (v, l') →
     var_dtype v =
       match dtype with
       | Some d => d
       | None => default floatx (variable_dtype (_dtype_policy l))
       end ∧
     WVar v ∈ _trainable_weights l' ++ _non_trainable_weights l').
Proof.
  intros Hlist. split; [| split; [| split; [| split]]].
  - intros c. by apply _maybe_cast_inputs_casts.
  - intros Hoff. rewrite _maybe_cast_inputs_unfold by assumption. by rewrite Hoff.
  - intros c Hc Hint. rewrite _maybe_cast_inputs_unfold by assumption.
    rewrite Hc, Hint. by rewrite andb_false_r.
  - intros Hc. rewrite _maybe_cast_inputs_unfold by assumption.
    rewrite Hc. by rewrite andb_false_r.
  - intros floatx ident nm shape dtype ini trainable sync ac eac getter v l'.
    unfold add_weight. simpl.
    set (d := match dtype with Some d => d | None => _ end).
    set (l0 := match variable_dtype (_dtype_policy l) with None => _ | Some _ => l end).
    destruct (match sync with ON_READ => _ | _ => _ end) as [tr | e]; [| discriminate].
    simpl.
    destruct (negb ini && negb (is_floating d) && _ && negb getter); [discriminate |].
    simpl. intros [= <- <-]. split; [done |].
    destruct tr; simpl; set_solver.
Qed.

(** C6 on the mixed-precision layer: the [float32] tensor is cast to
    [float16], the integer tensor and the string are not. *)
Lemma autocast_casts_floating_inputs_witness :
  _maybe_cast_inputs mixed_layer mixed_inputs None =
    NSeq [NLeaf (Tensor DenseTensor float16 1); NLeaf (Tensor DenseTensor int32 2);
          NLeaf (PyStr "label")].
Proof.
  destruct (autocast_casts_floating_inputs mixed_layer mixed_inputs None (or_introl eq_refl))
    as [Hcast _].
  rewrite (Hcast float16 eq_refl eq_refl eq_refl). reflexivity.
Defined.

(** C6 as stated fails: an integer layer with the autocast flag set leaves a
    [float32] input, whose dtype differs from its compute dtype, uncast. *)
Lemma autocast_nonfloating_compute_counterexample :
  ¬ (∀ (l : Layer) (inputs : Nest) (c : DType),
       _autocast l = true → _compute_dtype_object l = Some c →
       _maybe_cast_inputs l inputs None = map_structure (cast_floating_to c) inputs).
Proof.
  intros Hall.
  specialize (Hall int32_layer (NLeaf (Tensor DenseTensor float32 1)) int32 eq_refl eq_refl).
  discriminate Hall.
Qed.

(** ** Attribute tracking ([Layer.__setattr__] and [Layer.__delattr__]) *)

Module Tracking.

(** A reference held by an attribute: [None], or the identity of an
    object. *)
Abbreviation Ref := (option nat).

(** What the tracking code asks of an object with [isinstance] and
    [has_weights]. *)
Inductive Kind :=
| KLayer                        (* a [Layer], hence a [tf.Module] with weights *)
| KModule                       (* a [tf.Module] that is no [Layer] *)
| KVariable (trainable : bool)  (* a [tf.Variable] and its [trainable] flag *)
| KHasWeights                   (* no module, but [has_weights] holds *)
| KOther.

(** The attributes of a layer that tracking reads and writes.  [__dict__]
    holds the instance attributes other than the bookkeeping ones, which are
    the remaining fields; [class_attrs] are the attributes found on the
    class. *)
Record LayerAttrs := mkLayerAttrs {
  __dict__ : gmap string Ref;
  class_attrs : gmap string Ref;
  _self_setattr_tracking : bool;
  _auto_track_sub_layers : bool;
  _obj_reference_counts : gmap Ref nat;
  _self_tracked_trackables : list nat;
  _trainable_weights : list nat;
  _non_trainable_weights : list nat;
  _non_trainable_variable : list nat
}.

Definition set___dict__ (d : gmap string Ref) (s : LayerAttrs) : LayerAttrs :=
  mkLayerAttrs d (class_attrs s) (_self_setattr_tracking s) (_auto_track_sub_layers s)
    (_obj_reference_counts s) (_self_tracked_trackables s) (_trainable_weights s)
    (_non_trainable_weights s) (_non_trainable_variable s).

Definition set_reference_counts (c : gmap Ref nat) (s : LayerAttrs) : LayerAttrs :=
  mkLayerAttrs (__dict__ s) (class_attrs s) (_self_setattr_tracking s)
    (_auto_track_sub_layers s) c (_self_tracked_trackables s) (_trainable_weights s)
    (_non_trainable_weights s) (_non_trainable_variable s).

Definition set_tracked (t tw ntw : list nat) (s : LayerAttrs) : LayerAttrs :=
  mkLayerAttrs (__dict__ s) (class_attrs s) (_self_setattr_tracking s)
    (_auto_track_sub_layers s) (_obj_reference_counts s) t tw ntw
    (_non_trainable_variable s).

(** The tracking attributes after [Layer.__init__]. *)
Definition fresh (class_attrs : gmap string Ref) : LayerAttrs :=
  mkLayerAttrs ∅ class_attrs true true ∅ [] [] [] [].

Section WithKinds.

(** The class of every object, which does not change. *)
Variable kind_of : nat → Kind.

(** [isinstance(value, tf.Module)] *)
Definition is_Module (r : Ref) : bool :=
  match r with
  | Some o => match kind_of o with KLayer | KModule => true | _ => false end
  | None => false
  end.

(** [isinstance(value, Layer)] *)
Definition is_Layer (r : Ref) : bool :=
  match r with
  | Some o => match kind_of o with KLayer => true | _ => false end
  | None => false
  end.

(** [base_layer_utils.has_weights(value)]: the object has the attributes
    [trainable_weights] and [non_trainable_weights]. *)
Definition has_weights (r : Ref) : bool :=
  match r with
  | Some o => match kind_of o with KLayer | KHasWeights => true | _ => false end
  | None => false
  end.

(** [isinstance(value, tf.Variable)], with the variable's [trainable]. *)
Definition as_Variable (r : Ref) : option (nat * bool) :=
  match r with
  | Some o => match kind_of o with KVariable t => Some (o, t) | _ => None end
  | None => None
  end.

(** [getattr(self, name, None)] *)
Definition getattr (s : LayerAttrs) (name : string) : Ref :=
  match __dict__ s !! name with
  | Some r => r
  | None => default None (class_attrs s !! name)
  end.

(** [object.__delattr__(self, name)], which the [super()] calls reach. *)
Definition object_delattr (name : string) (s : LayerAttrs) : Result LayerAttrs :=
  match __dict__ s !! name with
  | Some _ => Return (set___dict__ (delete name (__dict__ s)) s)
  | None => Raise (AttributeError name)
  end.

(** [Layer.__delattr__(name)]: the outcome and the attributes afterwards
    (the reference counts are updated before the attribute is deleted, so
    they stay updated when the deletion raises). *)
Definition __delattr__ (name : string) (s : LayerAttrs) : Result unit * LayerAttrs :=
  let existing_value := getattr s name in
  let reference_counts := _obj_reference_counts s in
  match reference_counts !! existing_value with
  | None =>
      match object_delattr name s with
      | Return s' => (Return (), s')
      | Raise e => (Raise e, s)
      end
  | Some reference_count =>
      if decide (1 < reference_count) then
        let s := set_reference_counts
                   (<[existing_value := reference_count - 1]> reference_counts) s in
        match object_delattr name s with
        | Return s' => (Return (), s')
        | Raise e => (Raise e, s)
        end
      else
        let s := set_reference_counts (delete existing_value reference_counts) s in
        match object_delattr name s with
        | Raise e => (Raise e, s)
        | Return s =>
            let tracked :=
              if is_Layer existing_value || has_weights existing_value then
                filter (λ l, Some l ≠ existing_value) (_self_tracked_trackables s)
              else _self_tracked_trackables s in
            let '(tw, ntw) :=
              match as_Variable existing_value with
              | Some _ =>
                  (filter (λ w, Some w ≠ existing_value) (_trainable_weights s),
                   filter (λ w, Some w ≠ existing_value) (_non_trainable_weights s))
              | None => (_trainable_weights s, _non_trainable_weights s)
              end in
            (Return (), set_tracked tracked tw ntw s)
        end
  end.

(** The helper [_get_variable_from_list] of [__setattr__]. *)
Fixpoint _get_variable_from_list (var_list : list nat) (var : nat) : option nat :=
  match var_list with
  | [] => None
  | w :: rest =>
      if decide (w = var) then Some 0
      else S <$> _get_variable_from_list rest var
  end.

(** [list.append(val)] for no position, [list.insert(position, val)]
    otherwise. *)
Definition insert_at (position : option nat) (val : nat) (l : list nat) : list nat :=
  match position with
  | None => l ++ [val]
  | Some p => take p l ++ val :: drop p l
  end.

(** [Layer._track_variable(val, position)] *)
Definition _track_variable (val : nat) (trainable : bool) (position : option nat)
    (s : LayerAttrs) : LayerAttrs :=
  if trainable then
    if decide (val ∈ _trainable_weights s) then s
    else set_tracked (_self_tracked_trackables s)
           (insert_at position val (_trainable_weights s)) (_non_trainable_weights s) s
  else
    if decide (val ∈ _non_trainable_weights s) then s
    else set_tracked (_self_tracked_trackables s) (_trainable_weights s)
           (insert_at position val (_non_trainable_weights s)) s.

(** [Layer.__setattr__(name, value)] for a value that is a single object
    (no container to wrap, no metric).  The position of a replaced
    non-trainable variable is looked up in [_non_trainable_variable], as the
    code does. *)
Definition __setattr__ (name : string) (value : Ref) (s : LayerAttrs)
    : Result unit * LayerAttrs :=
  if bool_decide (name = "_self_setattr_tracking")
     || negb (_self_setattr_tracking s)
     || bool_decide (is_Some (class_attrs s !! name))
  then (Return (), set___dict__ (<[name := value]> (__dict__ s)) s)
  else
    let reference_counts := _obj_reference_counts s in
    let s := set_reference_counts
               (<[value := default 0 (reference_counts !! value) + 1]> reference_counts) s in
    let position :=
      match as_Variable value, as_Variable (getattr s name) with
      | Some _, Some (existing_variable, trainable) =>
          if trainable then _get_variable_from_list (_trainable_weights s) existing_variable
          else _get_variable_from_list (_non_trainable_variable s) existing_variable
      | _, _ => None
      end in
    let s := (__delattr__ name s).2 in
    let s :=
      if _auto_track_sub_layers s && (is_Module value || has_weights value) then
        match value with
        | Some o =>
            if decide (o ∈ _self_tracked_trackables s) then s
            else set_tracked (_self_tracked_trackables s ++ [o])
                   (_trainable_weights s) (_non_trainable_weights s) s
        | None => s
        end
      else s in
    let s :=
      match as_Variable value with
      | Some (val, trainable) => _track_variable val trainable position s
      | None => s
      end in
    (Return (), set___dict__ (<[name := value]> (__dict__ s)) s).

(** The number of attributes that hold the object [o]. *)
Definition refs (d : gmap string Ref) (o : nat) : nat :=
  size (filter (λ kv : string * Ref, kv.2 = Some o) d).


(** [o] is in the collection that tracking keeps for an object of its
    kind. *)
Definition tracked (s : LayerAttrs) (o : nat) : Prop :=
  ((is_Module (Some o) || has_weights (Some o)) = true → o ∈ _self_tracked_trackables s) ∧
  (∀ t, as_Variable (Some o) = Some (o, t) →
        o ∈ (if t then _trainable_weights s else _non_trainable_weights s)).


(** The three collections are the same in both states. *)
Definition same_collections (s s' : LayerAttrs) : Prop :=
  _self_tracked_trackables s' = _self_tracked_trackables s ∧
  _trainable_weights s' = _trainable_weights s ∧
  _non_trainable_weights s' = _non_trainable_weights s.


(** A statement [self.name = value] or [del self.name]. *)
Inductive AttrOp :=
| SetAttr (name : string) (value : Ref)
| DelAttr (name : string).


Definition run_op (op : AttrOp) (s : LayerAttrs) : LayerAttrs :=
  match op with
  | SetAttr n v => (__setattr__ n v s).2
  | DelAttr n => (__delattr__ n s).2
  end.

Definition run_ops (ops : list AttrOp) (s : LayerAttrs) : LayerAttrs :=
  foldl (λ s op, run_op op s) s ops.

(** *** Counting the attributes that hold an object *)




Lemma refs_empty (o : nat) : refs ∅ o = 0.
Proof. unfold refs. by rewrite map_filter_empty, map_size_empty. Qed.

(** *** What [__delattr__] does, case by case *)


Lemma delattr_last s name o c :
  __dict__ s !! name = Some (Some o) →
  _obj_reference_counts s !! Some o = Some c → ¬ 1 < c →
  __delattr__ name s =
    (Return (),
     set_tracked
       (if is_Layer (Some o) || has_weights (Some o)
        then filter (λ l, Some l ≠ Some o) (_self_tracked_trackables s)
        else _self_tracked_trackables s)
       (if as_Variable (Some o) is Some _
        then filter (λ w, Some w ≠ Some o) (_trainable_weights s)
        else _trainable_weights s)
       (if as_Variable (Some o) is Some _
        then filter (λ w, Some w ≠ Some o) (_non_trainable_weights s)
        else _non_trainable_weights s)
       (set___dict__ (delete name (__dict__ s))
          (set_reference_counts (delete (Some o) (_obj_reference_counts s)) s))).
Proof.
  intros Hd Hc Hlt. unfold __delattr__, getattr. rewrite Hd, Hc.
  rewrite decide_False by done. unfold object_delattr. cbn [__dict__ set_reference_counts].
  rewrite Hd. by destruct (as_Variable (Some o)).
Qed.


(** *** The invariant of tracked assignment

    [counted s extra] says that the reference count of every object is the
    number of attributes that hold it plus [extra] (the assignment in
    progress), and that an object without such a reference has no count. *)





Definition sub_collections (s s' : LayerAttrs) : Prop :=
  (∀ x, x ∈ _self_tracked_trackables s' → x ∈ _self_tracked_trackables s) ∧
  (∀ x, x ∈ _trainable_weights s' → x ∈ _trainable_weights s) ∧
  (∀ x, x ∈ _non_trainable_weights s' → x ∈ _non_trainable_weights s).

(** Every element of a collection of [s] other than [o] is still in it in
    [s']. *)
Definition kept_except (o : option nat) (s s' : LayerAttrs) : Prop :=
  (∀ x, Some x ≠ o → x ∈ _self_tracked_trackables s → x ∈ _self_tracked_trackables s') ∧
  (∀ x, Some x ≠ o → x ∈ _trainable_weights s → x ∈ _trainable_weights s') ∧
  (∀ x, Some x ≠ o → x ∈ _non_trainable_weights s → x ∈ _non_trainable_weights s').


Lemma same_collections_kept o s s' : same_collections s s' → kept_except o s s'.
Proof. unfold kept_except. intros (-> & -> & ->). by repeat split. Qed.

Lemma same_collections_sub s s' : same_collections s s' → sub_collections s s'.
Proof. unfold sub_collections. intros (-> & -> & ->). by repeat split. Qed.



(** *** What a tracked [__setattr__] does, block by block *)

Definition count_value (value : Ref) (s : LayerAttrs) : LayerAttrs :=
  set_reference_counts
    (<[value := default 0 (_obj_reference_counts s !! value) + 1]>
       (_obj_reference_counts s)) s.

Definition track_module (value : Ref) (s : LayerAttrs) : LayerAttrs :=
  if _auto_track_sub_layers s && (is_Module value || has_weights value) then
    match value with
    | Some o =>
        if decide (o ∈ _self_tracked_trackables s) then s
        else set_tracked (_self_tracked_trackables s ++ [o])
               (_trainable_weights s) (_non_trainable_weights s) s
    | None => s
    end
  else s.

Definition track_variables (value : Ref) (position : option nat) (s : LayerAttrs)
    : LayerAttrs :=
  match as_Variable value with
  | Some (val, trainable) => _track_variable val trainable position s
  | None => s
  end.









(** *** The invariant is kept *)







End WithKinds.

End Tracking.




(** ** Call-context arguments *)

(** Modelled from the spec: [CallFunctionSpec] (utils/layer_utils.py is not
    under src), through which [Layer] reads and writes the arguments of
    [call] other than [inputs].  What the code relies on is kept as laws:
    writing an argument makes it the value read back, and leaves every
    other argument, passed or not, as it was; removing a keyword does the
    same. *)
Record CallFunctionSpec := mkCallFunctionSpec {
  expected_context_args : gset string;
  arg_was_passed : string → list Nest → gmap string Nest → bool;
  get_arg_value : string → list Nest → gmap string Nest → Nest;
  set_arg_value :
    string → Nest → list Nest → gmap string Nest → bool →
    list Nest * gmap string Nest;
  get_context_arg_default : string → Nest;
  get_set_arg_value a v args kwargs :
    let '(args', kwargs') := set_arg_value a v args kwargs false in
    get_arg_value a args' kwargs' = v;
  set_arg_value_other a b v args kwargs pop :
    a ≠ b →
    let '(args', kwargs') := set_arg_value b v args kwargs pop in
    get_arg_value a args' kwargs' = get_arg_value a args kwargs ∧
    arg_was_passed a args' kwargs' = arg_was_passed a args kwargs ∧
    kwargs' !! a = kwargs !! a;
  pop_kwarg_other a b args kwargs :
    a ≠ b →
    get_arg_value a args (delete b kwargs) = get_arg_value a args kwargs ∧
    arg_was_passed a args (delete b kwargs) = arg_was_passed a args kwargs
}.

(** Modelled from the spec: the call context ([base_layer_utils.call_context],
    not under src) is a stack of frames, the innermost first; a frame maps
    the names of the call-context arguments resolved at that call to their
    values.  [enter] pushes a frame, [exit] pops it, and an argument is
    looked up by walking outward from the innermost frame to the first
    value that is not absent. *)
Definition CallContext := list (gmap string Nest).

Definition in_call (ctx : CallContext) : bool :=
  match ctx with [] => false | _ :: _ => true end.

Definition call_context_args (ctx : CallContext) : gmap string Nest :=
  match ctx with [] => ∅ | frame :: _ => frame end.

Fixpoint get_call_context_arg (ctx : CallContext) (arg_name : string) : Nest :=
  match ctx with
  | [] => None_
  | frame :: outer =>
      match frame !! arg_name with
      | Some v => if is_None v then get_call_context_arg outer arg_name else v
      | None => get_call_context_arg outer arg_name
      end
  end.

Definition enter (call_context_args : gmap string Nest) (ctx : CallContext)
    : CallContext :=
  call_context_args :: ctx.

Definition exit (ctx : CallContext) : CallContext := tail ctx.

(** Python's [bool(x)] *)
Definition py_bool (x : Leaf) : bool :=
  match x with
  | PyNone => false
  | PyBool b => b
  | PyInt z => bool_decide (z ≠ 0%Z)
  | PyFloat bits => bool_decide (bits ≠ 0%Z)
  | PyStr s => bool_decide (s ≠ "")
  | _ => true
  end.

(** The value of [backend.learning_phase()] as a [bool] or a boolean
    tensor. *)
Definition learning_phase_as_bool (x : Leaf) : Nest :=
  match x with
  | PyBool b => NLeaf (PyBool b)
  | Tensor k d i => NLeaf (cast (Tensor k d i) bool_)
  | other => NLeaf (PyBool (py_bool other))
  end.

(** The state of the loops below: the arguments and the frame being built. *)
Abbreviation ArgState := (list Nest * gmap string Nest * gmap string Nest)%type.

Section CallContextArguments.

(** Modelled from the spec: the process-wide sticky default, which is
    [backend.learning_phase()] when [backend.global_learning_phase_is_set()]
    holds (backend.py is not under src). *)
Variable global_learning_phase : option Leaf.

(** Priorities (2) to (4): the value of an outer call, the global learning
    phase for [training], the default of the [call] signature. *)
Definition value_from_framework (spec : CallFunctionSpec) (ctx : CallContext)
    (argument : string) : Nest :=
  let value_from_context := get_call_context_arg ctx argument in
  if negb (is_None value_from_context) then value_from_context
  else
    match global_learning_phase with
    | Some phase =>
        if bool_decide (argument = "training") then learning_phase_as_bool phase
        else get_context_arg_default spec argument
    | None => get_context_arg_default spec argument
    end.

(** One turn of the loop of [Layer._get_propagated_call_context_arguments]. *)
Definition propagate_argument (spec : CallFunctionSpec) (ctx : CallContext)
    (st : ArgState) (argument : string) : ArgState :=
  let '(args, kwargs, propagated_context) := st in
  let was_explicitly_passed := arg_was_passed spec argument args kwargs in
  let '(authoritative_value, args, kwargs) :=
    if decide (argument ∈ expected_context_args spec) then
      let authoritative_value :=
        if was_explicitly_passed then get_arg_value spec argument args kwargs
        else None_ in
      if is_None authoritative_value then
        let authoritative_value := value_from_framework spec ctx argument in
        let '(args, kwargs) :=
          set_arg_value spec argument authoritative_value args kwargs false in
        (authoritative_value, args, kwargs)
      else (authoritative_value, args, kwargs)
    else
      match kwargs !! argument with
      | Some v => (v, args, delete argument kwargs)
      | None => (get_call_context_arg ctx argument, args, kwargs)
      end in
  (args, kwargs,
   if is_None authoritative_value then propagated_context
   else <[argument := authoritative_value]> propagated_context).

(** [Layer._get_propagated_call_context_arguments(args, kwargs, call_context,
    local_call_context_arguments)]; the set of relevant arguments is walked
    in the order [elements] lists it. *)
Definition _get_propagated_call_context_arguments (spec : CallFunctionSpec)
    (args : list Nest) (kwargs : gmap string Nest) (ctx : CallContext)
    (local_call_context_arguments : gset string) : ArgState :=
  let relevant_arguments :=
    dom (call_context_args ctx) ∪ local_call_context_arguments in
  foldl (propagate_argument spec ctx) (args, kwargs, ∅) (elements relevant_arguments).

(** One turn of the loop over [self._call_context_args] in
    [Layer._functional_construction_call]; the last component is
    [args_passed_by_framework]. *)
Definition construct_argument (spec : CallFunctionSpec) (ctx : CallContext)
    (st : ArgState * gmap string bool) (context_arg : string)
    : ArgState * gmap string bool :=
  let '(args, kwargs, propagated, args_passed_by_framework) := st in
  let '(value, kwargs) :=
    if arg_was_passed spec context_arg args kwargs then
      (get_arg_value spec context_arg args kwargs,
       if decide (context_arg ∈ expected_context_args spec) then kwargs
       else delete context_arg kwargs)
    else (None_, kwargs) in
  let '(value, args, kwargs, passed) :=
    if is_None value then
      let value := value_from_framework spec ctx context_arg in
      if decide (context_arg ∈ expected_context_args spec) then
        let '(args, kwargs) := set_arg_value spec context_arg value args kwargs false in
        (value, args, kwargs, true)
      else (value, args, kwargs, false)
    else (value, args, kwargs, false) in
  (args, kwargs,
   if is_None value then propagated else <[context_arg := value]> propagated,
   <[context_arg := passed]> args_passed_by_framework).

(** The part of [Layer._functional_construction_call] that resolves the
    call-context arguments, up to [call_context.enter]. *)
Definition functional_call_context_arguments (spec : CallFunctionSpec)
    (l : Layer) (args : list Nest) (kwargs : gmap string Nest) (ctx : CallContext)
    : ArgState * gmap string bool :=
  foldl (construct_argument spec ctx) (args, kwargs, ∅, ∅)
    (elements (_call_context_args l)).

(** The priority order of the specification: the value passed to this call
    unless it is [None]; else the value of the nearest enclosing call that
    has one; else, for [training], the process-wide default when it is set;
    else the default declared in the signature of [call]. *)
Definition priority_order (spec : CallFunctionSpec) (explicit : option Nest)
    (enclosing : Nest) (argument : string) : Nest :=
  let inherited :=
    if negb (is_None enclosing) then enclosing
    else if bool_decide (argument = "training") && bool_decide (is_Some global_learning_phase)
         then from_option learning_phase_as_bool None_ global_learning_phase
         else get_context_arg_default spec argument in
  match explicit with
  | Some v => if is_None v then inherited else v
  | None => inherited
  end.

(** The argument as the caller passed it, if at all. *)
Definition explicit_value (spec : CallFunctionSpec) (argument : string)
    (args : list Nest) (kwargs : gmap string Nest) : option Nest :=
  if arg_was_passed spec argument args kwargs
  then Some (get_arg_value spec argument args kwargs)
  else None.

End CallContextArguments.

(** *** A loop that treats every name once *)

Section FoldOnce.

Context {S O : Type} (obs : string → S → O) (step : S → string → S).
Hypothesis step_other : ∀ a b st, a ≠ b → obs a (step st b) = obs a st.

Lemma foldl_other (a : string) (names : list string) (st : S) :
  a ∉ names → obs a (foldl step st names) = obs a st.
Proof using step_other.
  revert st. induction names as [| b names IH]; intros st Hout; simpl; [done |].
  apply not_elem_of_cons in Hout as [Hne Hout].
  rewrite IH by done. by apply step_other.
Qed.

Lemma foldl_once (a : string) (names : list string) (st : S) :
  NoDup names → a ∈ names →
  ∃ st1, obs a st1 = obs a st ∧ obs a (foldl step st names) = obs a (step st1 a).
Proof using step_other.
  revert st. induction names as [| b names IH]; intros st Hnd Hin; simpl.
  - by apply elem_of_nil in Hin.
  - apply NoDup_cons in Hnd as [Hb Hnd].
    destruct (decide (a = b)) as [<- | Hne].
    + exists st. split; [done |]. by apply foldl_other.
    + apply elem_of_cons in Hin as [? | Hin]; [done |].
      destruct (IH (step st b) Hnd Hin) as (st1 & Hobs & Hfold).
      exists st1. split; [| done]. rewrite Hobs. by apply step_other.
Qed.

End FoldOnce.

(** *** Facts about the resolution of call-context arguments *)

Section CallContextFacts.

Variable global_learning_phase : option Leaf.

Abbreviation propagate := (propagate_argument global_learning_phase).
Abbreviation construct := (construct_argument global_learning_phase).
Abbreviation from_framework := (value_from_framework global_learning_phase).
Abbreviation priority := (priority_order global_learning_phase).

(** What the loops can tell about one argument. *)
Definition observe (spec : CallFunctionSpec) (a : string) (st : ArgState)
    : bool * Nest * option Nest * option Nest :=
  let '(args, kwargs, propagated) := st in
  (arg_was_passed spec a args kwargs, get_arg_value spec a args kwargs,
   kwargs !! a, propagated !! a).

Lemma priority_order_unfold spec explicit ctx a :
  priority spec explicit (get_call_context_arg ctx a) a =
    match explicit with
    | Some v => if is_None v then from_framework spec ctx a else v
    | None => from_framework spec ctx a
    end.
Proof.
  unfold priority_order, value_from_framework.
  destruct global_learning_phase as [phase |]; simpl;
    destruct (bool_decide (a = "training")); simpl; done.
Qed.

Ltac split_set_arg_value spec a Hne :=
  match goal with
  | |- context [set_arg_value spec ?b ?v ?args ?kwargs ?pop] =>
      let H := fresh "Hset" in
      pose proof (set_arg_value_other spec a b v args kwargs pop Hne) as H;
      destruct (set_arg_value spec b v args kwargs pop) as [? ?];
      cbv beta iota zeta in H |- *; cbn [fst snd];
      destruct H as (-> & -> & ->)
  end.

Lemma propagate_other spec ctx a b st :
  a ≠ b → observe spec a (propagate spec ctx st b) = observe spec a st.
Proof.
  intros Hne. destruct st as [[args kwargs] propagated].
  unfold propagate_argument, observe.
  assert (Hprop : ∀ v : Nest,
            (if is_None v then propagated else <[b := v]> propagated) !! a
            = propagated !! a).
  { intros v. destruct (is_None v); [done | by rewrite lookup_insert_ne]. }
  destruct (pop_kwarg_other spec a b args kwargs Hne) as [Hpop1 Hpop2].
  destruct (decide (b ∈ expected_context_args spec)).
  - destruct (is_None (if arg_was_passed spec b args kwargs
                       then get_arg_value spec b args kwargs else None_)).
    + split_set_arg_value spec a Hne. by rewrite Hprop.
    + by rewrite Hprop.
  - destruct (kwargs !! b) as [v |] eqn:Hb.
    + by rewrite Hprop, Hpop1, Hpop2, lookup_delete_ne.
    + by rewrite Hprop.
Qed.


Lemma propagate_expected spec ctx a args kwargs propagated :
  a ∈ expected_context_args spec →
  let value := priority spec (explicit_value spec a args kwargs)
                 (get_call_context_arg ctx a) a in
  ∃ w kw,
    observe spec a (propagate spec ctx (args, kwargs, propagated) a)
    = (w, value, kw, if is_None value then propagated !! a else Some value).
Proof.
  intros Hexp value. subst value. rewrite priority_order_unfold.
  unfold propagate_argument, observe, explicit_value.
  rewrite decide_True by done.
  destruct (arg_was_passed spec a args kwargs) eqn:Hpassed.
  - destruct (is_None (get_arg_value spec a args kwargs)) eqn:Hv.
    + pose proof (get_set_arg_value spec a (from_framework spec ctx a) args kwargs) as Hget.
      destruct (set_arg_value spec a _ args kwargs false) as [args' kwargs'].
      rewrite Hget.
      destruct (is_None (from_framework spec ctx a)) eqn:Hvalue;
        rewrite ?lookup_insert_eq; eexists _, _; reflexivity.
    + rewrite Hv, lookup_insert_eq. eexists _, _; reflexivity.
  - cbn [is_None None_].
    pose proof (get_set_arg_value spec a (from_framework spec ctx a) args kwargs) as Hget.
    destruct (set_arg_value spec a _ args kwargs false) as [args' kwargs'].
    rewrite Hget.
    destruct (is_None (from_framework spec ctx a)) eqn:Hvalue;
        rewrite ?lookup_insert_eq; eexists _, _; reflexivity.
Qed.

Lemma propagate_unexpected spec ctx a args kwargs propagated :
  a ∉ expected_context_args spec →
  let value := from_option id (get_call_context_arg ctx a) (kwargs !! a) in
  ∃ w v kw,
    observe spec a (propagate spec ctx (args, kwargs, propagated) a)
    = (w, v, kw, if is_None value then propagated !! a else Some value).
Proof.
  intros Hexp value. subst value.
  unfold propagate_argument, observe. rewrite decide_False by done.
  destruct (kwargs !! a) as [v |]; cbn [from_option id];
    destruct (is_None _); rewrite ?lookup_insert_eq; eexists _, _, _; reflexivity.
Qed.


Lemma eager_resolution spec args kwargs ctx local a :
  a ∈ dom (call_context_args ctx) ∪ local →
  let st := _get_propagated_call_context_arguments global_learning_phase
              spec args kwargs ctx local in
  (a ∈ expected_context_args spec →
   let value := priority spec (explicit_value spec a args kwargs)
                  (get_call_context_arg ctx a) a in
   get_arg_value spec a st.1.1 st.1.2 = value ∧
   st.2 !! a = if is_None value then None else Some value) ∧
  (a ∉ expected_context_args spec →
   let value := from_option id (get_call_context_arg ctx a) (kwargs !! a) in
   st.2 !! a = if is_None value then None else Some value).
Proof.
  intros Hrel st. subst st. unfold _get_propagated_call_context_arguments.
  destruct (foldl_once (observe spec) (propagate spec ctx)
              (λ a b st, propagate_other spec ctx a b st) a
              (elements (dom (call_context_args ctx) ∪ local)) (args, kwargs, ∅))
    as ([[args1 kwargs1] prop1] & Hbefore & Hafter).
  { apply NoDup_elements. }
  { by apply elem_of_elements. }
  destruct (foldl _ _ _) as [[args' kwargs'] propagated].
  cbn [fst snd]. unfold observe in Hbefore, Hafter at 1.
  injection Hbefore as Hw Hv Hkw Hp. rewrite lookup_empty in Hp.
  assert (Hexplicit : explicit_value spec a args1 kwargs1 = explicit_value spec a args kwargs).
  { unfold explicit_value. by rewrite Hw, Hv. }
  split.
  - intros Hexp.
    destruct (propagate_expected spec ctx a args1 kwargs1 prop1 Hexp) as (w & kw & Hobs).
    rewrite Hobs, Hexplicit, Hp in Hafter. by injection Hafter as _ -> _ ->.
  - intros Hexp.
    destruct (propagate_unexpected spec ctx a args1 kwargs1 prop1 Hexp) as (w & v & kw & Hobs).
    rewrite Hobs, Hkw, Hp in Hafter. by injection Hafter as _ _ _ ->.
Qed.




(** *** Nested calls *)










End CallContextFacts.

(** A [call] signature whose arguments after [inputs] are passed by keyword:
    the laws of [CallFunctionSpec] hold of it. *)
Definition keyword_spec (expected : gset string) (defaults : gmap string Nest)
    : CallFunctionSpec.
Proof.
  refine {|
    expected_context_args := expected;
    arg_was_passed a _ kwargs := bool_decide (is_Some (kwargs !! a));
    get_arg_value a _ kwargs := default None_ (kwargs !! a);
    set_arg_value a v args kwargs pop :=
      (args, if pop && is_None v then delete a kwargs else <[a := v]> kwargs);
    get_context_arg_default a := default (NLeaf (PyBool false)) (defaults !! a)
  |}.
  - intros a v args kwargs. simpl. by rewrite lookup_insert_eq.
  - intros a b v args kwargs pop Hne. simpl.
    destruct (pop && is_None v);
      by rewrite ?lookup_delete_ne, ?lookup_insert_ne by done.
  - intros a b args kwargs Hne. by rewrite lookup_delete_ne by done.
Defined.


(** Example: an outer call has put [training=True] into the call context; a
    layer is called inside it without [training]; inside that one, a layer
    whose [call] takes [training] is called without it. *)
Definition training_spec : CallFunctionSpec :=
  keyword_spec {["training"]} ∅.

Definition plain_layer (ident : nat) (nm : string) : Layer :=
  Layer_init ident nm true (Policy_of float32) false true None.




(** ** The call pipeline ([Layer.__call__])

    A method of the pipeline is an action on the layer: it returns a value
    or raises, leaves the layer in a new state either way, and records the
    calls it makes to [build], [call] and the graph in order. *)

Inductive Event :=
| EvBuild (input_shapes : option (list TensorShape))
    (* [self.build(input_shapes)], the build of the subclass *)
| EvLayerBuild (input_shapes : option (list TensorShape))
    (* [Layer.build(self, input_shapes)] *)
| EvSetWeights (effects : list Effect)
    (* [self.set_weights(self._initial_weights)] *)
| EvCall (inputs : Nest) (args : list Nest) (kwargs : gmap string Nest)
    (* [call_fn(inputs, *args, **kwargs)] *)
| EvNode (call_args : list Nest) (call_kwargs : gmap string Nest) (outputs : Nest)
    (* [node_module.Node(self, call_args, call_kwargs, outputs)] *).

Definition Action (A : Type) : Type := Layer → Result A * Layer * list Event.

Global Instance Action_ret : MRet Action := λ A a l, (Return a, l, []).

Global Instance Action_bind : MBind Action := λ A B k m l,
  match m l with
  | (Return a, l1, events1) =>
      let '(r, l2, events2) := k a l1 in (r, l2, events1 ++ events2)
  | (Raise e, l1, events1) => (Raise e, l1, events1)
  end.

Definition get_layer : Action Layer := λ l, (Return l, l, []).
Definition modify_layer (f : Layer → Layer) : Action unit := λ l, (Return (), f l, []).
Definition raise {A} (e : Exn) : Action A := λ l, (Raise e, l, []).
Definition emit (ev : Event) : Action unit := λ l, (Return (), l, [ev]).
Definition lift {A} (r : Result A) : Action A := λ l, (r, l, []).

(** What a subclass of [Layer] defines: the signature of [call] and the
    methods it overrides.  [build] and [call] are given the layer to read;
    [call] also gets the call context in which the calls it makes run.  (A
    [call] that creates weights or rebinds attributes of the layer is
    outside this model.) *)
Record LayerClass := mkLayerClass {
  _call_spec : CallFunctionSpec;
  _expects_mask_arg : bool;
  build_is_default : bool;
  build : option (list TensorShape) → Layer → Result Layer;
  call : Layer → CallContext → Nest → list Nest → gmap string Nest → Result Nest;
  compute_mask : Layer → Nest → Nest → Result Nest;
  compute_output_signature : Layer → Nest → Result Nest;
  activity_regularizer : Leaf → Result unit
}.

(** [x.dtype] of a leaf that has one *)
Definition leaf_dtype (x : Leaf) : option DType :=
  match x with
  | NdArray d _ | Tensor _ d _ | TensorSpec d _ | KerasTensor d _ => Some d
  | _ => None
  end.

(** [tf.nest.map_structure(f, n)] for an [f] that can raise *)
Fixpoint map_structure_result (f : Leaf → Result Leaf) (n : Nest) : Result Nest :=
  match n with
  | NLeaf x => x' ← f x; mret (NLeaf x')
  | NSeq xs =>
      xs' ← (fix go (xs : list Nest) : Result (list Nest) :=
               match xs with
               | [] => mret []
               | n :: rest =>
                   n' ← map_structure_result f n; rest' ← go rest; mret (n' :: rest')
               end) xs;
      mret (NSeq xs')
  | NDict kvs =>
      kvs' ← (fix go (kvs : list (string * Nest)) : Result (list (string * Nest)) :=
                match kvs with
                | [] => mret []
                | (k, n) :: rest =>
                    n' ← map_structure_result f n; rest' ← go rest;
                    mret ((k, n') :: rest')
                end) kvs;
      mret (NDict kvs')
  end.

(** [Layer.dynamic]: some layer among this one and its sub-layers is. *)
Fixpoint dynamic (l : Layer) : bool :=
  _dynamic l || existsb dynamic (_self_tracked_trackables l).

(** Modelled from the spec: [keras_tensor.keras_tensor_to_placeholder]
    (keras_tensor.py is not under src): the placeholder against which
    [call] is traced once has the element type of the symbolic input. *)
Definition keras_tensor_to_placeholder (x : Leaf) : Leaf :=
  match x with
  | KerasTensor d i => Tensor DenseTensor d i
  | other => other
  end.

Definition call_returned_None_error (l : Layer) : Exn :=
  ValueError ("A layer's `call` method should return a Tensor or a list of Tensors, "
              +:+ "not None (layer: " +:+ name l +:+ ").").

Definition could_not_be_deserialized_error (l : Layer) : Exn :=
  TypeError (name l +:+ " could not be deserialized properly.").

(** [str in msg] *)
Definition contains (needle msg : string) : bool :=
  bool_decide (is_Some (String.index 0 needle msg)).

Section Pipeline.

(** The collaborators whose code is not part of this file. *)
Variable global_learning_phase : option Leaf.
Variable assert_input_compatibility : Layer → Nest → Result unit.
  (* [input_spec.assert_input_compatibility(self.input_spec, inputs, self.name)] *)
Variable infer_input_shapes : Nest → option (list TensorShape).
  (* [tf_utils.get_shapes(inputs)], or [tf_utils.convert_shapes], or [None] *)
Variable keras_mask : Leaf → Leaf.
  (* [getattr(t, "_keras_mask", None)] *)
Variable keras_tensor_from_tensor : Leaf → Result Leaf.
  (* [keras_tensor.keras_tensor_from_tensor] *)

Variable cls : LayerClass.

(** [Layer.build(self, input_shape)] *)
Definition Layer_build (input_shape : option (list TensorShape)) : Action unit :=
  _ ← emit (EvLayerBuild input_shape);
  modify_layer (set_built true input_shape).

(** [Layer._maybe_build(inputs)] *)
Definition _maybe_build (inputs : Nest) : Action unit :=
  l ← get_layer;
  _ ← (if built l then mret ()
       else
         _ ← lift (assert_input_compatibility l inputs);
         let input_list := flatten inputs in
         _ ← match input_list, compute_dtype (_dtype_policy l) with
             | x :: _, None =>
                 match leaf_dtype x with
                 | Some dtype => modify_layer (set_dtype_policy (Policy_of dtype))
                 | None => mret ()
                 end
             | _, _ => mret ()
             end;
         let input_shapes := infer_input_shapes inputs in
         _ ← (if build_is_default cls then mret ()
              else
                _ ← emit (EvBuild input_shapes);
                l ← get_layer;
                l' ← lift (build cls input_shapes l);
                modify_layer (λ _, l'));
         Layer_build input_shapes);
  l ← get_layer;
  match _initial_weights l with
  | Some initial_weights =>
      let '(effects, r) := set_weights l initial_weights in
      _ ← emit (EvSetWeights effects);
      _ ← lift r;
      modify_layer (set_initial_weights None)
  | None => mret ()
  end.

(** [Layer._get_input_masks(inputs, input_list, args, kwargs)]: the masks
    and whether they are implicit. *)
Definition _get_input_masks (l : Layer) (inputs : Nest) (input_list : list Leaf)
    (args : list Nest) (kwargs : gmap string Nest) : Nest * bool :=
  if negb (_supports_masking l) && negb (_expects_mask_arg cls) then (None_, false)
  else if arg_was_passed (_call_spec cls) "mask" args kwargs then
    (get_arg_value (_call_spec cls) "mask" args kwargs, false)
  else if forallb (λ t, bool_decide (keras_mask t = PyNone)) input_list then (None_, false)
  else (map_structure keras_mask inputs, true).

(** [Layer._handle_activity_regularization(inputs, outputs)] *)
Definition _handle_activity_regularization (outputs : Nest) : Action unit :=
  l ← get_layer;
  if _has_activity_regularizer l then
    foldr (λ output rest, _ ← lift (activity_regularizer cls output); rest)
      (mret ()) (flatten outputs)
  else mret ().

(** [Layer._set_mask_metadata(inputs, outputs, previous_mask, build_graph)] *)
Definition _set_mask_metadata (inputs outputs previous_mask : Nest) : Action unit :=
  l ← get_layer;
  if negb (_supports_masking l) then mret ()
  else if forallb (λ x, negb (bool_decide (keras_mask x = PyNone))) (flatten outputs)
  then mret ()
  else _ ← lift (compute_mask cls l inputs previous_mask); mret ().

(** [Layer._set_save_spec(inputs, args, kwargs)]; the spec is kept as the
    inputs it is made from. *)
Definition _set_save_spec (inputs : Nest) : Action unit :=
  l ← get_layer;
  match _saved_model_inputs_spec l with
  | Some _ => mret ()
  | None => modify_layer (set_saved_model_inputs_spec (Some inputs))
  end.

(** The conversion of NumPy and scalar inputs that opens both paths. *)
Definition convert_inputs (inputs : Nest) (input_list : list Leaf) : Nest :=
  if existsb is_numpy_or_python_type input_list
  then map_structure _convert_numpy_or_python_types inputs
  else inputs.

(** The body of [Layer.__call__] after the mode test: the call is executed
    at once. *)
Definition __call___immediate (inputs : Nest) (args : list Nest)
    (kwargs : gmap string Nest) (input_list : list Leaf) (ctx : CallContext)
    : Action Nest :=
  let inputs := convert_inputs inputs input_list in
  let input_list := flatten inputs in
  l ← get_layer;
  let '(input_masks, mask_is_implicit) :=
    _get_input_masks l inputs input_list args kwargs in
  let kwargs :=
    if _expects_mask_arg cls && mask_is_implicit
    then <["mask" := input_masks]> kwargs else kwargs in
  let '(args, kwargs, propagated) :=
    _get_propagated_call_context_arguments global_learning_phase
      (_call_spec cls) args kwargs ctx (_call_context_args l) in
  let ctx := enter propagated ctx in
  _ ← lift (assert_input_compatibility l inputs);
  _ ← (if built l then mret () else _maybe_build inputs);
  l ← get_layer;
  let inputs :=
    if _autocast l then _maybe_cast_inputs l inputs (Some input_list) else inputs in
  _ ← emit (EvCall inputs args kwargs);
  outputs ← lift (call cls l ctx inputs args kwargs);
  _ ← (if _has_activity_regularizer l then _handle_activity_regularization outputs
       else mret ());
  _ ← (if _supports_masking l then _set_mask_metadata inputs outputs input_masks
       else mret ());
  l ← get_layer;
  _ ← (if _saved_model_inputs_spec l is None then _set_save_spec inputs else mret ());
  mret outputs.

(** [Layer._infer_output_signature(inputs, args, kwargs, input_masks)] *)
Definition _infer_output_signature (ctx : CallContext) (inputs : Nest)
    (args : list Nest) (kwargs : gmap string Nest) (input_masks : Nest)
    : Action Nest :=
  let keras_tensor_inputs := inputs in
  let inputs := map_structure keras_tensor_to_placeholder inputs in
  let args := map_structure keras_tensor_to_placeholder <$> args in
  let kwargs := map_structure keras_tensor_to_placeholder <$> kwargs in
  let input_masks := map_structure keras_tensor_to_placeholder input_masks in
  _ ← _maybe_build inputs;
  l ← get_layer;
  let inputs := _maybe_cast_inputs l inputs None in
  _ ← emit (EvCall inputs args kwargs);
  outputs ← lift (call cls l ctx inputs args kwargs);
  _ ← _handle_activity_regularization outputs;
  _ ← _set_mask_metadata inputs outputs input_masks;
  outputs ← lift (map_structure_result keras_tensor_from_tensor outputs);
  _ ← _set_save_spec keras_tensor_inputs;
  mret outputs.

(** [tf.TensorSpec(shape=x.shape, dtype=x.dtype)] and
    [keras_tensor.KerasTensor(spec)] *)
Definition to_TensorSpec (x : Leaf) : Result Leaf :=
  match x with
  | NdArray d i | Tensor _ d i | TensorSpec d i | KerasTensor d i =>
      Return (TensorSpec d i)
  | _ => Raise (AttributeError "shape")
  end.

Definition to_KerasTensor (x : Leaf) : Leaf :=
  match x with
  | TensorSpec d i => KerasTensor d i
  | other => other
  end.

(** [Layer._keras_tensor_symbolic_call(inputs, input_masks, args, kwargs)] *)
Definition _keras_tensor_symbolic_call (ctx : CallContext) (inputs input_masks : Nest)
    (args : list Nest) (kwargs : gmap string Nest) : Action Nest :=
  l ← get_layer;
  if dynamic l then
    input_signature ← lift (map_structure_result to_TensorSpec inputs);
    output_signature ← lift (compute_output_signature cls l input_signature);
    mret (map_structure to_KerasTensor output_signature)
  else _infer_output_signature ctx inputs args kwargs input_masks.

(** [Layer._set_connectivity_metadata(args, kwargs, outputs)]: the node is
    created (outputs that are inputs are copied first, which leaves their
    values as they are). *)
Definition _set_connectivity_metadata (args : list Nest) (kwargs : gmap string Nest)
    (outputs : Nest) : Action Nest :=
  _ ← emit (EvNode args kwargs outputs);
  mret outputs.

(** [Layer._functional_construction_call(inputs, args, kwargs, input_list)] *)
Definition _functional_construction_call (inputs : Nest) (args : list Nest)
    (kwargs : gmap string Nest) (input_list : list Leaf) (ctx : CallContext)
    : Action Nest :=
  let inputs := convert_inputs inputs input_list in
  let input_list := flatten inputs in
  l ← get_layer;
  let '(input_masks, mask_is_implicit) :=
    _get_input_masks l inputs input_list args kwargs in
  let mask_arg_passed_by_framework := _expects_mask_arg cls && mask_is_implicit in
  let kwargs :=
    if mask_arg_passed_by_framework then <["mask" := input_masks]> kwargs else kwargs in
  let '(args, kwargs, propagated, args_passed_by_framework) :=
    functional_call_context_arguments global_learning_phase
      (_call_spec cls) l args kwargs ctx in
  let ctx := enter propagated ctx in
  outputs ←
    (λ l0,
       match _keras_tensor_symbolic_call ctx inputs input_masks args kwargs l0 with
       | (Raise (TypeError msg), l1, events) =>
           (Raise (if contains "DictWrapper" msg
                   then could_not_be_deserialized_error l
                   else TypeError msg), l1, events)
       | other => other
       end);
  _ ← (if is_None outputs then raise (call_returned_None_error l) else mret ());
  let '(args, kwargs) :=
    foldl (λ ak passed,
             if passed.2 : bool
             then set_arg_value (_call_spec cls) passed.1 None_ ak.1 ak.2 true
             else ak)
      (args, kwargs) (map_to_list args_passed_by_framework) in
  let kwargs := if mask_arg_passed_by_framework then delete "mask" kwargs else kwargs in
  _set_connectivity_metadata (inputs :: args) kwargs outputs.

(** [_in_functional_construction_mode(layer, inputs, args, kwargs,
    input_list)]; the keyword arguments are walked as a dict. *)
Definition _in_functional_construction_mode (inputs : Nest) (args : list Nest)
    (kwargs : gmap string Nest) (input_list : list Leaf) : bool :=
  existsb is_KerasTensor
    (flatten (NSeq [inputs; NSeq args; NDict (map_to_list kwargs)])).

(** [Layer.__call__] of a layer whose constructor ran
    [Layer.__init__], once [split_out_first_arg] has taken [inputs] out of
    the arguments; [ctx] is the call context of the caller. *)
Definition __call__ (inputs : Nest) (args : list Nest) (kwargs : gmap string Nest)
    (ctx : CallContext) : Action Nest :=
  let input_list := flatten inputs in
  if _in_functional_construction_mode inputs args kwargs input_list then
    _functional_construction_call inputs args kwargs input_list ctx
  else __call___immediate inputs args kwargs input_list ctx.

End Pipeline.

(** *** Facts about the pipeline *)

Definition is_build_event (ev : Event) : bool :=
  match ev with
  | EvBuild _ | EvLayerBuild _ => true
  | _ => false
  end.

Definition is_call_event (ev : Event) : bool :=
  match ev with
  | EvCall _ _ _ => true
  | _ => false
  end.







Lemma bind_run {A B} (m : Action A) (k : A → Action B) (l : Layer) :
  (m ≫= k) l =
    match m l with
    | (Return a, l1, events1) =>
        let '(r, l2, events2) := k a l1 in (r, l2, events1 ++ events2)
    | (Raise e, l1, events1) => (Raise e, l1, events1)
    end.
Proof. reflexivity. Qed.

Lemma bind_return {A B} (m : Action A) (k : A → Action B) l a l1 events1 :
  m l = (Return a, l1, events1) →
  (m ≫= k) l = ((k a l1).1.1, (k a l1).1.2, events1 ++ (k a l1).2).
Proof. intros H. rewrite bind_run, H. by destruct (k a l1) as [[? ?] ?]. Qed.

(** Running an action one bind at a time. *)
Ltac run_action :=
  repeat first
    [ rewrite bind_run
    | progress cbn [get_layer emit lift modify_layer raise mret Action_ret app] ].












(** Two actions that leave the same layer and the same events. *)
Definition same_trace {A B} (m : Action A) (m' : Action B) : Prop :=
  ∀ l, (m l).1.2 = (m' l).1.2 ∧ (m l).2 = (m' l).2.





Section PipelineFacts.

Variable global_learning_phase : option Leaf.
Variable assert_input_compatibility : Layer → Nest → Result unit.
Variable infer_input_shapes : Nest → option (list TensorShape).
Variable keras_mask : Leaf → Leaf.
Variable keras_tensor_from_tensor : Leaf → Result Leaf.
Variable cls : LayerClass.

Abbreviation maybe_build :=
  (_maybe_build assert_input_compatibility infer_input_shapes cls).
Abbreviation immediate :=
  (__call___immediate global_learning_phase assert_input_compatibility
     infer_input_shapes keras_mask cls).
Abbreviation functional :=
  (_functional_construction_call global_learning_phase assert_input_compatibility
     infer_input_shapes keras_mask keras_tensor_from_tensor cls).
Abbreviation dispatch :=
  (__call__ global_learning_phase assert_input_compatibility
     infer_input_shapes keras_mask keras_tensor_from_tensor cls).





Lemma maybe_build_built l inputs :
  built l = true → _initial_weights l = None →
  maybe_build inputs l = (Return (), l, []).
Proof.
  intros Hb Hw. unfold _maybe_build. rewrite bind_run. cbn [get_layer].
  rewrite Hb. run_action. by rewrite Hw.
Qed.



(** The part of [__call__] that follows the build step. *)
Definition after_build (inputs : Nest) (input_list : list Leaf) (input_masks : Nest)
    (args : list Nest) (kwargs : gmap string Nest) (ctx : CallContext) : Action Nest :=
  l ← get_layer;
  let inputs :=
    if _autocast l then _maybe_cast_inputs l inputs (Some input_list) else inputs in
  _ ← emit (EvCall inputs args kwargs);
  outputs ← lift (call cls l ctx inputs args kwargs);
  _ ← (if _has_activity_regularizer l
       then _handle_activity_regularization cls outputs else mret ());
  _ ← (if _supports_masking l
       then _set_mask_metadata keras_mask cls inputs outputs input_masks else mret ());
  l ← get_layer;
  _ ← (if _saved_model_inputs_spec l is None then _set_save_spec inputs else mret ());
  mret outputs.



(** **** The immediate path *)



(** **** The path that builds the graph *)


Abbreviation infer_output_signature :=
  (_infer_output_signature assert_input_compatibility infer_input_shapes
     keras_mask keras_tensor_from_tensor cls).
Abbreviation symbolic_call :=
  (_keras_tensor_symbolic_call assert_input_compatibility infer_input_shapes
     keras_mask keras_tensor_from_tensor cls).









(** **** Both paths *)



Lemma symbolic_leaf_iff inputs args kwargs input_list :
  _in_functional_construction_mode inputs args kwargs input_list = true ↔
  ∃ x, is_KerasTensor x = true ∧
       (nest_leaf x inputs
        ∨ (∃ n, n ∈ args ∧ nest_leaf x n)
        ∨ (∃ k n, kwargs !! k = Some n ∧ nest_leaf x n)).
Proof.
  unfold _in_functional_construction_mode. rewrite existsb_exists.
  split.
  - intros (x & Hx & Hk). exists x. split; [done |].
    apply list_elem_of_In, flatten_leaf_iff in Hx.
    inversion Hx as [| xs n Hn Hleaf |]; subst.
    apply elem_of_cons in Hn as [-> | Hn]; [by left |].
    apply elem_of_cons in Hn as [-> | Hn].
    { right; left. inversion Hleaf; subst. by eexists. }
    apply list_elem_of_singleton in Hn as ->.
    right; right. inversion Hleaf as [| | kvs k n Hkv Hleaf']; subst.
    apply elem_of_map_to_list in Hkv. by eexists _, _.
  - intros (x & Hk & Hx). exists x. split; [| done].
    apply list_elem_of_In, flatten_leaf_iff.
    destruct Hx as [Hx | [(n & Hn & Hx) | (k & n & Hkn & Hx)]].
    + eapply leaf_seq; [| exact Hx]. set_solver.
    + eapply (leaf_seq _ _ (NSeq args)); [set_solver |]. by eapply leaf_seq.
    + eapply (leaf_seq _ _ (NDict (map_to_list kwargs))); [set_solver |].
      eapply leaf_dict; [| exact Hx]. by apply elem_of_map_to_list.
Qed.

(** C1.  [Layer.__call__] takes the path that builds the graph,
    [_functional_construction_call], exactly when some leaf of the inputs,
    of a positional argument or of a keyword argument, at any depth of
    nesting, is a [KerasTensor]; otherwise the same call is executed at
    once. *)
Theorem call_dispatch inputs args kwargs ctx :
  let symbolic :=
    ∃ x, is_KerasTensor x = true ∧
         (nest_leaf x inputs
          ∨ (∃ n, n ∈ args ∧ nest_leaf x n)
          ∨ (∃ k n, kwargs !! k = Some n ∧ nest_leaf x n)) in
  (_in_functional_construction_mode inputs args kwargs (flatten inputs) = true
   ↔ symbolic)
  ∧ (symbolic →
     dispatch inputs args kwargs ctx
     = functional inputs args kwargs (flatten inputs) ctx)
  ∧ (¬ symbolic →
     dispatch inputs args kwargs ctx
     = immediate inputs args kwargs (flatten inputs) ctx).
Proof.
  intros symbolic. split; [apply symbolic_leaf_iff |].
  unfold __call__. cbv zeta. split; intros Hs.
  - apply (symbolic_leaf_iff inputs args kwargs (flatten inputs)) in Hs.
    by rewrite Hs.
  - destruct (_in_functional_construction_mode _ _ _ _) eqn:Hmode; [| done].
    by apply symbolic_leaf_iff in Hmode.
Qed.



End PipelineFacts.

(** *** The pipeline at concrete layers *)

(** A layer without input spec, inputs of unknown shape, tensors without
    masks, and the symbolic tensor of a traced output. *)
Definition accept_inputs : Layer → Nest → Result unit := λ _ _, Return ().
Definition unknown_shapes : Nest → option (list TensorShape) := λ _, None.
Definition no_keras_mask : Leaf → Leaf := λ _, PyNone.


(** A layer whose [build] adds a kernel and whose [call] returns its
    inputs. *)
Definition dense_kernel : Weight :=
  WVar (mkVariable 61 "kernel" (Some [Some 3; Some 2]) float32 true false).

Definition dense_class : LayerClass := {|
  _call_spec := training_spec;
  _expects_mask_arg := false;
  build_is_default := false;
  build := λ _ l,
    Return (set_weight_lists (_trainable_weights l ++ [dense_kernel])
              (_non_trainable_weights l) l);
  call := λ _ _ inputs _ _, Return inputs;
  compute_mask := λ _ _ mask, Return mask;
  compute_output_signature := λ _ signature, Return signature;
  activity_regularizer := λ _, Return ()
|}.

Definition dense_layer : Layer := plain_layer 63 "dense".
Definition dense_inputs : Nest := NLeaf (Tensor DenseTensor float32 62).





(** ** Assembling a functional graph *)

Module FunctionalGraph.

(** Modelled from the spec: the graph assembler (functional.py is not under
    src).  A symbolic tensor is the output of [layers.Input] or an output of
    a layer invoked on symbolic tensors; tensors are compared by identity,
    as [id(x)] does.  What is valid is fixed by [test_invalid_graphs] and
    [test_disconnected_inputs] of functional_test.py, which are run on the
    model below. *)
#[warnings="-register-all"]
Inductive SymbolicTensor :=
| InputTensor (ident : nat) (input_name : string)
| LayerOutput (ident : nat) (layer_name : string) (inbound : list SymbolicTensor).

Definition tensor_id (t : SymbolicTensor) : nat :=
  match t with
  | InputTensor ident _ | LayerOutput ident _ _ => ident
  end.

Record Graph := mkGraph {
  graph_name : string;
  graph_inputs : list SymbolicTensor;
  graph_outputs : list SymbolicTensor
}.

Definition redundant_inputs_error : Exn :=
  ValueError "The list of inputs passed to the model is redundant.".

Definition graph_disconnected_error (missing : nat) : Exn :=
  ValueError ("Graph disconnected: cannot obtain value for tensor "
              +:+ pretty missing).

(** The reverse walk from a tensor towards the inputs: the [Input] tensors
    it reaches without passing through a tensor that is [available]. *)
Fixpoint missing_inputs (available : gset nat) (t : SymbolicTensor) : list nat :=
  if decide (tensor_id t ∈ available) then []
  else
    match t with
    | InputTensor ident _ => [ident]
    | LayerOutput _ _ inbound => mjoin (missing_inputs available <$> inbound)
    end.

(** Modelled from the spec: [assemble(input_refs, output_refs, name)]. *)
Definition assemble (input_refs output_refs : list SymbolicTensor) (name : string)
    : Result Graph :=
  let input_ids := tensor_id <$> input_refs in
  if decide (NoDup input_ids) then
    match mjoin (missing_inputs (list_to_set input_ids) <$> output_refs) with
    | [] => Return (mkGraph name input_refs output_refs)
    | missing :: _ => Raise (graph_disconnected_error missing)
    end
  else Raise redundant_inputs_error.





(** **** The graphs of [test_invalid_graphs] and [test_disconnected_inputs] *)

Definition input_j : SymbolicTensor := InputTensor 1 "input_j".
Definition input_k : SymbolicTensor := InputTensor 2 "input_k".

(** [m, n = model([j, k])] *)
Definition output_m : SymbolicTensor := LayerOutput 3 "model" [input_j; input_k].
Definition output_n : SymbolicTensor := LayerOutput 4 "model" [input_j; input_k].

Definition input_tensor1 : SymbolicTensor := InputTensor 5 "a".
Definition input_tensor2 : SymbolicTensor := InputTensor 6 "b".
Definition output_tensor1 : SymbolicTensor := LayerOutput 7 "dense" [input_tensor1].

Example test_invalid_graphs_disconnected :
  assemble [input_j] [output_m; output_n] "model"
  = Raise (graph_disconnected_error 2).
Proof. by vm_compute. Qed.

Example test_invalid_graphs_redundant_outputs :
  assemble [input_j; input_k] [output_m; output_n; output_n] "model"
  = Return (mkGraph "model" [input_j; input_k] [output_m; output_n; output_n]).
Proof. by vm_compute. Qed.

Example test_invalid_graphs_redundant_inputs :
  assemble [input_j; input_k; input_j] [output_m; output_n] "model"
  = Raise redundant_inputs_error.
Proof. by vm_compute. Qed.

Example test_disconnected_inputs :
  assemble [input_tensor1; input_tensor2] [output_tensor1] "net"
  = Return (mkGraph "net" [input_tensor1; input_tensor2] [output_tensor1]).
Proof. by vm_compute. Qed.



End FunctionalGraph.

(** * Further properties of the code *)

(** ** Weight lists and weight values *)

(** X1.  [Layer._dedup_weights] keeps, of the weights of one identity, the
    first and only the first: the result has no identity twice, has the
    identities of the list it is given, keeps the order of that list, holds
    every weight that no earlier weight shares its identity with, and is
    left as it is by a second pass. *)
Theorem _dedup_weights_keeps_first (ws : list Weight) :
  NoDup (weight_id <$> _dedup_weights ws)
  ∧ (∀ i, i ∈ weight_id <$> _dedup_weights ws ↔ i ∈ weight_id <$> ws)
  ∧ _dedup_weights ws `sublist_of` ws
  ∧ (∀ k w, ws !! k = Some w →
       (∀ j w', j < k → ws !! j = Some w' → weight_id w' ≠ weight_id w) →
       w ∈ _dedup_weights ws)
  ∧ _dedup_weights (_dedup_weights ws) = _dedup_weights ws.
Proof.
  unfold _dedup_weights. split; [apply dedup_from_NoDup |].
  split; [intros i; rewrite dedup_from_ids; set_solver |].
  split.
  { generalize (∅ : gset nat).
    induction ws as [| w ws IH]; intros seen; simpl; [done |].
    destruct (decide (weight_id w ∈ seen));
      [by apply sublist_cons | by apply sublist_skip]. }
  split.
  { assert (Hgen : ∀ (seen : gset nat) k w, ws !! k = Some w →
              weight_id w ∉ seen →
              (∀ j w', j < k → ws !! j = Some w' → weight_id w' ≠ weight_id w) →
              w ∈ dedup_from seen ws).
    { induction ws as [| w0 ws IH]; intros seen k w Hk Hseen Hfirst; [done |].
      simpl. destruct k as [| k]; simpl in Hk.
      - injection Hk as ->. rewrite decide_False by done. by left.
      - assert (Hne : weight_id w0 ≠ weight_id w).
        { apply (Hfirst 0); [lia | done]. }
        assert (Hrest : ∀ j w', j < k → ws !! j = Some w' →
                  weight_id w' ≠ weight_id w).
        { intros j w' Hj Hw'. apply (Hfirst (S j)); [lia | done]. }
        destruct (decide (weight_id w0 ∈ seen)).
        + by apply (IH seen k).
        + right. apply (IH _ k); [done | set_solver | done]. }
    intros k w Hk Hfirst. by apply (Hgen ∅ k). }
  apply dedup_from_id_on_NoDup; [apply dedup_from_NoDup | set_solver].
Qed.

(** The store that [save_own_variables] leaves. *)
Lemma save_own_variables_snoc numpy l tw v store :
  _trainable_weights l ++ _non_trainable_weights l = tw ++ [v] →
  save_own_variables numpy l store
  = <[pretty (length tw) := numpy v]>
      (foldl (λ st iv, <[pretty iv.1 := numpy iv.2]> st) store
         (imap (λ i v, (i, v)) tw)).
Proof.
  intros Hvars. unfold save_own_variables. rewrite Hvars, imap_app, foldl_app.
  simpl. by rewrite Nat.add_0_r.
Qed.






Lemma load_own_variables_loop_missing (store : gmap string Value)
    (vars : list Weight) (i m : nat) :
  m < length vars →
  (∀ k, k < m → is_Some (store !! pretty (i + k))) →
  store !! pretty (i + m) = None →
  ∃ values,
    length values = m
    ∧ (∀ k x, values !! k = Some x → store !! pretty (i + k) = Some x)
    ∧ load_own_variables_loop store i vars
      = (zip_with Assign (take m vars) values, Raise (KeyError (pretty (i + m)))).
Proof.
  revert i m. induction vars as [| v vars IH]; intros i m Hm Hsome Hnone;
    [simpl in Hm; lia |].
  simpl. destruct m as [| m].
  - exists []. rewrite Nat.add_0_r in Hnone. rewrite Hnone.
    split; [done |]. split; [done |]. by rewrite Nat.add_0_r.
  - destruct (Hsome 0) as [x Hx]; [lia |]. rewrite Nat.add_0_r in Hx. rewrite Hx.
    destruct (IH (S i) m) as (values & Hlen & Hvalues & ->).
    + simpl in Hm. lia.
    + intros k Hk. replace (S i + k) with (i + S k) by lia. apply Hsome. lia.
    + by replace (S i + m) with (i + S m) by lia.
    + exists (x :: values). split; [simpl; lia |]. split.
      * intros [| k] y; simpl.
        -- intros [= <-]. by rewrite Nat.add_0_r.
        -- intros Hy. replace (i + S k) with (S i + k) by lia. by apply Hvalues.
      * by replace (i + S m) with (S i + m) by lia.
Qed.

(** X3.  [load_own_variables] checks the number of keys of the store, not
    the keys: when the store has as many keys as the layer has variables
    but not the key [m], the variables before position [m] have been
    assigned their values when [KeyError] is raised for [m]. *)
Theorem load_own_variables_missing_key (l : Layer) (store : gmap string Value)
    (m : nat) :
  let all_vars := _trainable_weights l ++ _non_trainable_weights l in
  size store = length all_vars →
  m < length all_vars →
  (∀ k, k < m → is_Some (store !! pretty k)) →
  store !! pretty m = None →
  ∃ values,
    length values = m
    ∧ (∀ k x, values !! k = Some x → store !! pretty k = Some x)
    ∧ load_own_variables l store
      = (zip_with Assign (take m all_vars) values, Raise (KeyError (pretty m))).
Proof.
  intros all_vars Hsize Hm Hsome Hnone. unfold load_own_variables. fold all_vars.
  rewrite decide_False by lia.
  by apply (load_own_variables_loop_missing store all_vars 0 m).
Qed.

(** A layer with two variables and a store that has two keys, one of them
    under a name that is no position. *)
Definition two_variable_layer : Layer :=
  set_weight_lists [shared_kernel] [child_bias] (plain_layer 70 "two").

Definition misnamed_store : gmap string Value :=
  {[ "0" := mkValue (Some [3; 1]) 1; "bias" := mkValue (Some [1]) 2 ]}.

Lemma load_own_variables_missing_key_witness :
  ∃ values,
    length values = 1
    ∧ (∀ k x, values !! k = Some x → misnamed_store !! pretty k = Some x)
    ∧ load_own_variables two_variable_layer misnamed_store
      = (zip_with Assign (take 1 [shared_kernel; child_bias]) values,
         Raise (KeyError (pretty 1))).
Proof.
  apply (load_own_variables_missing_key two_variable_layer misnamed_store 1).
  - by vm_compute.
  - simpl. lia.
  - intros k Hk. assert (k = 0) as -> by lia. eexists. by vm_compute.
  - by vm_compute.
Defined.

(** [Layer.get_weights()]: the values read from the variables of
    [self.weights] and from the tensors of its weight handlers, in order.
    [get_tensors] gives the tensors a handler holds and [value_of] is the
    value that [backend.batch_get_value] reads from a variable or from such
    a tensor. *)
Definition get_weights {T} (get_tensors : WeightHandler → list T)
    (value_of : TfVariable + T → Value) (l : Layer) : list Value :=
  let output_weights :=
    foldl (λ output_weights weight,
             match weight with
             | WHandler h => output_weights ++ (inr <$> get_tensors h)
             | WVar v => output_weights ++ [inl v]
             end) [] (weights l) in
  value_of <$> output_weights.

Section GetWeights.

Context {T : Type}.
Variable get_tensors : WeightHandler → list T.
Variable value_of : TfVariable + T → Value.

(** The values [get_weights] reads for one weight. *)
Definition values_of_weight (weight : Weight) : list Value :=
  match weight with
  | WHandler h => value_of ∘ inr <$> get_tensors h
  | WVar v => [value_of (inl v)]
  end.

(** What [set_weights] does with the values of one weight: a handler is
    given its values back at once, a variable is queued for the batch. *)
Definition handler_effects (params : list Weight) : list Effect :=
  omap (λ weight,
          match weight with
          | WHandler h => Some (HandlerSetWeights h (values_of_weight weight))
          | WVar _ => None
          end) params.

Definition variable_tuples (params : list Weight) : list (TfVariable * Value) :=
  omap (λ weight,
          match weight with
          | WHandler _ => None
          | WVar v => Some (v, value_of (inl v))
          end) params.

Lemma get_weights_values (l : Layer) :
  get_weights get_tensors value_of l = mjoin (values_of_weight <$> weights l).
Proof.
  unfold get_weights.
  assert (Hgen : ∀ params acc,
    value_of <$> foldl (λ output_weights weight,
                          match weight with
                          | WHandler h => output_weights ++ (inr <$> get_tensors h)
                          | WVar v => output_weights ++ [inl v]
                          end) acc params
    = (value_of <$> acc) ++ mjoin (values_of_weight <$> params)).
  { induction params as [| [v | h] params IH]; intros acc; simpl.
    - by rewrite app_nil_r.
    - rewrite IH, fmap_app. by rewrite <- app_assoc.
    - rewrite IH, fmap_app, <- list_fmap_compose. by rewrite <- app_assoc. }
  by rewrite Hgen.
Qed.

Lemma expected_num_weights_values (params : list Weight) :
  (∀ h, WHandler h ∈ params → length (get_tensors h) = num_tensors h) →
  expected_num_weights params = length (mjoin (values_of_weight <$> params)).
Proof.
  unfold expected_num_weights.
  assert (Hgen : ∀ params n,
    (∀ h, WHandler h ∈ params → length (get_tensors h) = num_tensors h) →
    foldl (λ n param,
             match param with
             | WHandler h => n + num_tensors h
             | WVar _ => n + 1
             end) n params
    = n + length (mjoin (values_of_weight <$> params))).
  { clear params. induction params as [| [v | h] params IH]; intros n Hh; simpl.
    - lia.
    - rewrite IH; [unfold fmap; lia |]. intros h Hin. apply Hh. by right.
    - rewrite IH, length_app, length_fmap.
      + rewrite (Hh h); [unfold fmap; lia | by left].
      + intros h' Hin. apply Hh. by right. }
  intros Hh. by rewrite Hgen.
Qed.

Lemma set_weights_loop_own_values (l : Layer) (params : list Weight)
    (before : list Value) (queued : list (TfVariable * Value)) :
  (∀ h, WHandler h ∈ params → length (get_tensors h) = num_tensors h) →
  (∀ v, WVar v ∈ params →
     is_compatible_with (var_shape v) (shape_of_value (value_of (inl v))) = true) →
  set_weights_loop l params (before ++ mjoin (values_of_weight <$> params))
    (length before) queued
  = (handler_effects params, Return (queued ++ variable_tuples params)).
Proof.
  revert before queued.
  induction params as [| [v | h] params IH]; intros before queued Hh Hv.
  - simpl. by rewrite app_nil_r.
  - rewrite fmap_cons. cbn [set_weights_loop mjoin list_join values_of_weight].
    match goal with
    | |- context [?values !! length before] =>
        assert (Hweight : values !! length before = Some (value_of (inl v)))
          by (by rewrite lookup_app_r, Nat.sub_diag by lia);
        rewrite Hweight
    end.
    rewrite Hv by (by left).
    replace (length before + 1) with (length (before ++ [value_of (inl v)]))
      by (rewrite length_app; simpl; lia).
    rewrite (app_assoc before [_]), IH.
    + simpl. by rewrite <- app_assoc.
    + intros h Hin. apply Hh. by right.
    + intros v' Hin. apply Hv. by right.
  - rewrite fmap_cons. cbn [set_weights_loop mjoin list_join values_of_weight].
    rewrite drop_app_length.
    rewrite <- (Hh h) by (by left).
    rewrite <- (length_fmap (value_of ∘ inr) (get_tensors h)).
    rewrite take_app_length.
    rewrite <- length_app, app_assoc, IH.
    + done.
    + intros h' Hin. apply Hh. by right.
    + intros v' Hin. apply Hv. by right.
Qed.

(** X4.  Giving a layer back the weights it has: when every weight handler
    holds as many tensors as it says and the value of every variable has a
    shape the variable accepts, [set_weights(get_weights())] raises nothing;
    every handler is given the values of its own tensors, in the order of
    [weights], and the variables are then assigned, in one batch and in that
    order, each its own value. *)
Theorem set_weights_of_get_weights (l : Layer) :
  (∀ h, WHandler h ∈ weights l → length (get_tensors h) = num_tensors h) →
  (∀ v, WVar v ∈ weights l →
     is_compatible_with (var_shape v) (shape_of_value (value_of (inl v))) = true) →
  set_weights l (get_weights get_tensors value_of l)
  = (handler_effects (weights l) ++ [BatchSetValue (variable_tuples (weights l))],
     Return ()).
Proof.
  intros Hh Hv. unfold set_weights. rewrite get_weights_values.
  rewrite decide_False by (by rewrite expected_num_weights_values; [lia |]).
  pose proof (set_weights_loop_own_values l (weights l) [] [] Hh Hv) as Hloop.
  simpl in Hloop. by rewrite Hloop.
Qed.

End GetWeights.

(** A layer with the kernel and the bias of the examples, and the values
    they hold. *)
Definition kernel_and_bias_layer : Layer :=
  set_weight_lists [shared_kernel; child_bias] [] (plain_layer 71 "dense_1").

Definition stored_value (x : TfVariable + nat) : Value :=
  match x with
  | inl v =>
      mkValue (match var_shape v with
               | Some dims => Some (default 0 <$> dims)
               | None => None
               end) (var_id v)
  | inr tensor => mkValue (Some []) tensor
  end.

Lemma set_weights_of_get_weights_witness :
  set_weights kernel_and_bias_layer
    (get_weights (λ _, []) stored_value kernel_and_bias_layer)
  = ([BatchSetValue
        [(mkVariable 1 "kernel" (Some [Some 3; Some 1]) float32 true false,
          mkValue (Some [3; 1]) 1);
         (mkVariable 2 "bias" (Some [Some 1]) float32 true false,
          mkValue (Some [1]) 2)]],
     Return ()).
Proof.
  rewrite (set_weights_of_get_weights (λ _, []) stored_value kernel_and_bias_layer).
  - by vm_compute.
  - intros h Hin. vm_compute in Hin. set_solver.
  - intros v Hin. vm_compute in Hin.
    apply elem_of_cons in Hin as [[= ->] | Hin]; [by vm_compute |].
    apply elem_of_cons in Hin as [[= ->] | Hin]; [by vm_compute |].
    by apply elem_of_nil in Hin.
Defined.

(** ** Casting inputs and creating weights *)

Lemma _cast_single_input_settled (l : Layer) (x : Leaf) :
  _should_cast_single_input l (_cast_single_input l x) = false.
Proof.
  unfold _cast_single_input.
  destruct (_should_cast_single_input l x) eqn:Hx; [| done].
  unfold _should_cast_single_input in *.
  destruct x as [| | | | | | k d i | | |]; try done.
  destruct (_compute_dtype_object l) as [c |]; [| done].
  simpl. by rewrite bool_decide_false by (by intros []).
Qed.

(** X5.  Casting the inputs is settled after one pass: [_maybe_cast_inputs]
    leaves its own result as it is and keeps the number of leaves; when the
    layer casts (autocast set, floating-point compute dtype), every
    floating-point tensor among the leaves of the result has the compute
    dtype. *)
Theorem _maybe_cast_inputs_idempotent (l : Layer) (inputs : Nest) :
  let cast_inputs := _maybe_cast_inputs l inputs None in
  _maybe_cast_inputs l cast_inputs None = cast_inputs
  ∧ length (flatten cast_inputs) = length (flatten inputs)
  ∧ (∀ c, _autocast l = true → _compute_dtype_object l = Some c →
       is_floating c = true →
       ∀ k d i, Tensor k d i ∈ flatten cast_inputs → is_floating d = true → d = c).
Proof.
  intros cast_inputs. subst cast_inputs.
  rewrite !_maybe_cast_inputs_unfold by (by left).
  set (should_autocast :=
         _autocast l
         && match _compute_dtype_object l with
            | Some c => is_floating c
            | None => false
            end).
  destruct (should_autocast
            && existsb (_should_cast_single_input l) (flatten inputs)) eqn:Hcast.
  - assert (Hsettled :
      existsb (_should_cast_single_input l)
        (flatten (map_structure (_cast_single_input l) inputs)) = false).
    { rewrite flatten_map_structure. apply not_true_is_false.
      intros (x & Hx & Hshould)%existsb_exists.
      apply list_elem_of_In, list_elem_of_fmap in Hx as (y & -> & _).
      by rewrite _cast_single_input_settled in Hshould. }
    rewrite Hsettled, andb_false_r.
    split; [done |]. split; [by rewrite flatten_map_structure, length_fmap |].
    intros c _ Hc Hfloat k d i Hin Hd.
    rewrite flatten_map_structure in Hin.
    apply list_elem_of_fmap in Hin as (y & Hy & _).
    pose proof (_cast_single_input_settled l y) as Hsettled_y.
    rewrite <- Hy in Hsettled_y. simpl in Hsettled_y.
    rewrite Hc, Hd, andb_true_r in Hsettled_y.
    apply bool_decide_eq_false in Hsettled_y.
    by destruct (decide (d = c)).
  - rewrite Hcast. split; [done |]. split; [done |].
    intros c Hauto Hc Hfloat k d i Hin Hd.
    subst should_autocast. rewrite Hauto, Hc, Hfloat in Hcast. simpl in Hcast.
    destruct (decide (d = c)) as [| Hne]; [done |]. exfalso.
    apply not_true_iff_false in Hcast. apply Hcast, existsb_exists.
    exists (Tensor k d i). split; [by apply list_elem_of_In |].
    simpl. rewrite Hc, Hd, andb_true_r. by apply bool_decide_eq_true.
Qed.


(** ** Reading the nodes of a layer *)

Module InboundNodes.

(** The value of an attribute of a node: a Python list, or anything else (a
    single tensor or shape, a tuple, a dict). *)
Inductive AttrValue (A : Type) :=
| PyList (values : list A)
| NotList (value : A).

Arguments PyList {A} values.
Arguments NotList {A} value.

(** A symbolic tensor with the mask [_keras_mask] it may carry, and a shape
    with its unknown dimensions. *)
Record NodeTensor := mkNodeTensor {
  tensor_ident : nat;
  _keras_mask : option nat
}.

Abbreviation NodeShape := (list (option nat)).

(** The attributes of a [Node] that [Layer] reads. *)
Record Node := mkNode {
  input_tensors : AttrValue NodeTensor;
  output_tensors : AttrValue NodeTensor;
  input_shapes : AttrValue NodeShape;
  output_shapes : AttrValue NodeShape
}.

(** The attributes of a layer that the accessors read. *)
Record NodeLayer := mkNodeLayer {
  name : string;
  _inbound_nodes : list Node
}.

(** [xs[index]] of a Python list: a negative index counts from the end. *)
Definition list_getitem {A} (xs : list A) (index : Z) : Result A :=
  let index :=
    if decide (index < 0)%Z then (index + Z.of_nat (length xs))%Z else index in
  if decide (index < 0)%Z then Raise (IndexError "list index out of range")
  else
    match xs !! Z.to_nat index with
    | Some x => Return x
    | None => Raise (IndexError "list index out of range")
    end.

Definition never_called_error (l : NodeLayer) (attr_name : string) : Exn :=
  RuntimeError ("The layer " +:+ name l +:+ " has never been called and thus has no defined "
                +:+ attr_name +:+ ".").

Definition node_index_error (l : NodeLayer) (attr_name : string) (node_index : Z)
    : Exn :=
  ValueError ("Asked to get " +:+ attr_name +:+ " at node " +:+ pretty node_index
              +:+ ", but the layer has only " +:+ pretty (length (_inbound_nodes l))
              +:+ " inbound nodes.").

(** [values[0] if isinstance(values, list) and len(values) == 1 else values] *)
Definition single_or_all {A} (values : AttrValue A) : AttrValue A :=
  match values with
  | PyList [value] => NotList value
  | other => other
  end.

(** [Layer._get_node_attribute_at_index(node_index, attr, attr_name)]; the
    attribute is given by the function that reads it. *)
Definition _get_node_attribute_at_index {A} (l : NodeLayer) (node_index : Z)
    (attr : Node → AttrValue A) (attr_name : string) : Result (AttrValue A) :=
  if bool_decide (_inbound_nodes l = []) then Raise (never_called_error l attr_name)
  else if negb (bool_decide (node_index < Z.of_nat (length (_inbound_nodes l)))%Z)
  then Raise (node_index_error l attr_name node_index)
  else
    node ← list_getitem (_inbound_nodes l) node_index;
    mret (single_or_all (attr node)).

(** [Layer.get_input_shape_at], [get_output_shape_at], [get_input_at] and
    [get_output_at] *)
Definition get_input_shape_at (l : NodeLayer) (node_index : Z) :=
  _get_node_attribute_at_index l node_index input_shapes "input shape".
Definition get_output_shape_at (l : NodeLayer) (node_index : Z) :=
  _get_node_attribute_at_index l node_index output_shapes "output shape".
Definition get_input_at (l : NodeLayer) (node_index : Z) :=
  _get_node_attribute_at_index l node_index input_tensors "input".
Definition get_output_at (l : NodeLayer) (node_index : Z) :=
  _get_node_attribute_at_index l node_index output_tensors "output".

(** The properties [Layer.input] and [Layer.output] *)
Definition input (l : NodeLayer) : Result (AttrValue NodeTensor) :=
  if bool_decide (_inbound_nodes l = []) then
    Raise (AttributeError ("Layer " +:+ name l +:+ " is not connected, no input to return."))
  else _get_node_attribute_at_index l 0 input_tensors "input".

Definition output (l : NodeLayer) : Result (AttrValue NodeTensor) :=
  if bool_decide (_inbound_nodes l = []) then
    Raise (AttributeError ("Layer " +:+ name l +:+ " has no inbound nodes."))
  else _get_node_attribute_at_index l 0 output_tensors "output".

(** The masks of what an accessor returned:
    [getattr(x, "_keras_mask", None)] of each tensor. *)
Definition masks_of (tensors : AttrValue NodeTensor) : AttrValue (option nat) :=
  match tensors with
  | PyList xs => PyList (_keras_mask <$> xs)
  | NotList x => NotList (_keras_mask x)
  end.

(** [Layer.get_input_mask_at], [get_output_mask_at], [input_mask] and
    [output_mask] *)
Definition get_input_mask_at (l : NodeLayer) (node_index : Z)
    : Result (AttrValue (option nat)) :=
  inputs ← get_input_at l node_index; mret (masks_of inputs).
Definition get_output_mask_at (l : NodeLayer) (node_index : Z)
    : Result (AttrValue (option nat)) :=
  outputs ← get_output_at l node_index; mret (masks_of outputs).
Definition input_mask (l : NodeLayer) : Result (AttrValue (option nat)) :=
  inputs ← input l; mret (masks_of inputs).
Definition output_mask (l : NodeLayer) : Result (AttrValue (option nat)) :=
  outputs ← output l; mret (masks_of outputs).

Section Shapes.

(** [str] of the shapes of a node. *)
Variable str : AttrValue NodeShape → string.

Definition no_input_shape_error (l : NodeLayer) : Exn :=
  AttributeError ("The layer " +:+ name l
                  +:+ " has never been called and thus has no defined input shape. "
                  +:+ "Note that the `input_shape` property is only available for "
                  +:+ "Functional and Sequential models.").

Definition multiple_input_shapes_error (l : NodeLayer) : Exn :=
  AttributeError ("The layer " +:+ name l
                  +:+ " has multiple inbound nodes, with different input shapes. "
                  +:+ "Hence the notion of input shape is ill-defined for the layer. "
                  +:+ "Use `get_input_shape_at(node_index)` instead.").

(** The property [Layer.input_shape] *)
Definition input_shape (l : NodeLayer) : Result (AttrValue NodeShape) :=
  match _inbound_nodes l with
  | [] => Raise (no_input_shape_error l)
  | first :: _ =>
      let all_input_shapes : gset string :=
        list_to_set ((λ node, str (input_shapes node)) <$> _inbound_nodes l) in
      if decide (size all_input_shapes = 1) then Return (input_shapes first)
      else Raise (multiple_input_shapes_error l)
  end.

Definition no_output_shape_error (l : NodeLayer) : Exn :=
  AttributeError ("The layer " +:+ name l
                  +:+ " has never been called and thus has no defined output shape.").

Definition multiple_output_shapes_error (l : NodeLayer) : Exn :=
  AttributeError ("The layer " +:+ name l
                  +:+ " has multiple inbound nodes, with different output shapes. "
                  +:+ "Hence the notion of output shape is ill-defined for the layer. "
                  +:+ "Use `get_output_shape_at(node_index)` instead.").

(** The property [Layer.output_shape] *)
Definition output_shape (l : NodeLayer) : Result (AttrValue NodeShape) :=
  match _inbound_nodes l with
  | [] => Raise (no_output_shape_error l)
  | first :: _ =>
      let all_output_shapes : gset string :=
        list_to_set ((λ node, str (output_shapes node)) <$> _inbound_nodes l) in
      if decide (size all_output_shapes = 1) then Return (output_shapes first)
      else Raise (multiple_output_shapes_error l)
  end.

End Shapes.


(** X8.  [input_shape] is defined exactly when the layer has inbound nodes
    whose input shapes all print alike; it is then the input shapes of the
    first node as they are stored, of which [get_input_shape_at(0)] returns
    the element when they are a list of one shape. *)
Theorem input_shape_defined (str : AttrValue NodeShape → string) (l : NodeLayer) :
  (∀ shapes,
     input_shape str l = Return shapes ↔
     ∃ first rest,
       _inbound_nodes l = first :: rest ∧ shapes = input_shapes first
       ∧ ∀ node, node ∈ rest → str (input_shapes node) = str (input_shapes first))
  ∧ (_inbound_nodes l = [] → input_shape str l = Raise (no_input_shape_error l))
  ∧ (∀ shapes, input_shape str l = Return shapes →
     get_input_shape_at l 0 = Return (single_or_all shapes)).
Proof.
  assert (Hsize : ∀ (first : Node) rest,
    size (list_to_set ((λ node, str (input_shapes node)) <$> first :: rest)
            : gset string) = 1
    ↔ ∀ node, node ∈ rest → str (input_shapes node) = str (input_shapes first)).
  { intros first rest. split.
    - intros Hone node Hnode.
      apply (size_singleton_inv _ _ _ Hone);
        apply elem_of_list_to_set, list_elem_of_fmap;
        [exists node | exists first]; (split; [done |]);
        [by right | by left].
    - intros Hall.
      assert (Heq : (list_to_set ((λ node, str (input_shapes node)) <$> first :: rest)
                       : gset string) = {[str (input_shapes first)]}).
      { apply set_eq. intros x.
        rewrite elem_of_list_to_set, list_elem_of_fmap, elem_of_singleton. split.
        - intros (node & -> & [-> | Hnode]%elem_of_cons); [done | by apply Hall].
        - intros ->. exists first. split; [done | by left]. }
      by rewrite Heq, size_singleton. }
  split; [| split].
  - intros shapes. unfold input_shape.
    destruct (_inbound_nodes l) as [| first rest] eqn:Hnodes.
    { split; [done | by intros (? & ? & ? & _)]. }
    destruct (decide _) as [Hone | Hmany].
    + split.
      * intros [= <-]. exists first, rest. by rewrite <- Hsize.
      * by intros (? & ? & [= <- <-] & -> & _).
    + split; [done |]. intros (? & ? & [= <- <-] & _ & Hall). by apply Hsize in Hall.
  - unfold input_shape. by intros ->.
  - intros shapes. unfold input_shape, get_input_shape_at,
      _get_node_attribute_at_index.
    destruct (_inbound_nodes l) as [| first rest]; [done |].
    destruct (decide _); [| done]. intros [= <-].
    rewrite bool_decide_false by done.
    rewrite bool_decide_true by (simpl; lia). reflexivity.
Qed.

End InboundNodes.

(** ** Relative name scopes ([_name_scope_unnester]) *)

Module NameScope.

(** [c in chars] for a character and a string *)
Fixpoint char_in (c : Ascii.ascii) (chars : string) : bool :=
  match chars with
  | EmptyString => false
  | String c' rest => bool_decide (c = c') || char_in c rest
  end.

(** [s.lstrip(chars)] of Python: the leading characters of [s] that occur
    in [chars] are removed. *)
Fixpoint lstrip (s chars : string) : string :=
  match s with
  | EmptyString => EmptyString
  | String c rest => if char_in c chars then lstrip rest chars else s
  end.

(** Entering [with _name_scope_unnester(full_name_scope)]: the stack
    [_name_scope_unnester_stack.value] inside the block, which is [None]
    while the attribute is not set, and the relative name scope that is
    yielded. *)
Definition _name_scope_unnester (value : option (list string))
    (full_name_scope : string) : Result (list string * string) :=
  let value :=
    match value with
    | None | Some [] => [EmptyString]
    | Some value => value
    end in
  let value := value ++ [full_name_scope] in
  full_name_scope ← InboundNodes.list_getitem value (-1);
  outer_name_scope ← InboundNodes.list_getitem value (-2);
  let relative_name_scope := lstrip full_name_scope outer_name_scope in
  let relative_name_scope := lstrip relative_name_scope "/" in
  mret (value, relative_name_scope).

(** The character of the string ["/"]. *)
Definition slash : Ascii.ascii :=
  match "/" with
  | String c _ => c
  | EmptyString => Ascii.zero
  end.

(** Leaving the block: [_name_scope_unnester_stack.value.pop()]. *)
Definition _name_scope_unnester_exit (value : list string) : list string :=
  take (length value - 1) value.

(** The name scope that encloses a block entered with the stack [value]. *)
Definition enclosing_name_scope (value : option (list string)) : string :=
  match value with
  | None => EmptyString
  | Some value => default EmptyString (last value)
  end.

Lemma char_in_app (c : Ascii.ascii) (s1 s2 : string) :
  char_in c (s1 +:+ s2) = char_in c s1 || char_in c s2.
Proof.
  induction s1 as [| c' s1 IH]; simpl; [done |].
  by rewrite IH, orb_assoc.
Qed.

Lemma lstrip_app_all (s1 s2 chars : string) :
  (∀ c, char_in c s1 = true → char_in c chars = true) →
  lstrip (s1 +:+ s2) chars = lstrip s2 chars.
Proof.
  induction s1 as [| c s1 IH]; intros Hall; simpl; [done |].
  rewrite (Hall c) by (simpl; by rewrite bool_decide_true).
  apply IH. intros c' Hc'. apply Hall. simpl. rewrite Hc'. by rewrite orb_true_r.
Qed.

Lemma lstrip_length (s chars : string) :
  String.length (lstrip s chars) ≤ String.length s.
Proof.
  induction s as [| c s IH]; simpl; [done |].
  destruct (char_in c chars); simpl; lia.
Qed.

Lemma unnester_run (value : option (list string)) (full_name_scope : string) :
  ∃ stack,
    stack = match value with
            | None | Some [] => [EmptyString]
            | Some value => value
            end
    ∧ stack ≠ []
    ∧ _name_scope_unnester value full_name_scope
      = Return (stack ++ [full_name_scope],
                lstrip (lstrip full_name_scope
                          (default EmptyString (last stack))) "/").
Proof.
  eexists. split; [reflexivity |].
  set (stack := match value with None | Some [] => _ | Some value => value end).
  assert (Hstack : stack ≠ []) by (subst stack; by destruct value as [[| ? ?] |]).
  split; [done |]. unfold _name_scope_unnester. fold stack.
  destruct stack as [| x xs _] using rev_ind; [done |].
  unfold InboundNodes.list_getitem. rewrite !length_app. simpl.
  rewrite last_snoc. simpl.
  destruct (decide (-1 + Z.of_nat (length xs + 1 + 1) < 0)%Z); [lia |].
  destruct (decide (-2 + Z.of_nat (length xs + 1 + 1) < 0)%Z); [lia |].
  replace (Z.to_nat (-1 + Z.of_nat (length xs + 1 + 1))) with (length (xs ++ [x]))
    by (rewrite length_app; simpl; lia).
  rewrite (lookup_app_r (xs ++ [x]) [full_name_scope] (length (xs ++ [x]))) by lia.
  rewrite Nat.sub_diag. simpl.
  replace (Z.to_nat (-2 + Z.of_nat (length xs + 1 + 1))) with (length xs) by lia.
  rewrite <- app_assoc.
  rewrite (lookup_app_r xs ([x] ++ [full_name_scope]) (length xs)) by lia.
  by rewrite Nat.sub_diag.
Qed.

(** X9.  The name a block yields, relative to the name scope that encloses
    it.  Entering never fails and pushes the full name, and leaving the
    block gives the stack back as it was.  For a full name that is the
    enclosing name, a slash and a name, the name is yielded when its first
    character is no slash and the enclosing name has no slash or does not
    hold that character.  [lstrip] removes characters, not a prefix: inside
    an enclosing name that has a slash, a name whose first character occurs
    in the enclosing name loses at least that character. *)
Theorem name_scope_unnester_relative (value : option (list string))
    (c : Ascii.ascii) (rest : string) :
  let outer := enclosing_name_scope value in
  let name := String c rest in
  let full_name_scope := outer +:+ "/" +:+ name in
  ∃ stack relative_name_scope,
    _name_scope_unnester value full_name_scope = Return (stack, relative_name_scope)
    ∧ last stack = Some full_name_scope
    ∧ _name_scope_unnester_exit stack
      = match value with
        | None | Some [] => [EmptyString]
        | Some value => value
        end
    ∧ (c ≠ slash → char_in c outer = false ∨ char_in slash outer = false →
       relative_name_scope = name)
    ∧ (char_in slash outer = true → char_in c outer = true →
       String.length relative_name_scope < String.length name).
Proof.
  intros outer name full_name_scope.
  destruct (unnester_run value full_name_scope) as (stack & Hstack & Hne & Hrun).
  assert (Houter : default EmptyString (last stack) = outer).
  { subst stack outer. by destruct value as [[| ? ?] |]. }
  rewrite Houter in Hrun.
  exists (stack ++ [full_name_scope]),
    (lstrip (lstrip full_name_scope outer) "/").
  split; [exact Hrun |]. split; [by rewrite last_snoc |].
  split.
  { unfold _name_scope_unnester_exit. rewrite length_app. simpl.
    replace (length stack + 1 - 1) with (length stack) by lia.
    by rewrite take_app_length. }
  assert (Hstrip : lstrip full_name_scope outer = lstrip (String slash name) outer).
  { subst full_name_scope. by apply lstrip_app_all. }
  assert (Hname : ∀ chars, lstrip name chars
                           = if char_in c chars then lstrip rest chars else name)
    by done.
  assert (Hslash : ∀ chars, lstrip (String slash name) chars
                            = if char_in slash chars then lstrip name chars
                              else String slash name)
    by done.
  assert (Hin : char_in slash "/" = true) by done.
  assert (Hother : c ≠ slash → char_in c "/" = false).
  { intros Hc. simpl. by rewrite bool_decide_false. }
  rewrite Hstrip, Hslash. split.
  - intros Hc Hout.
    destruct (char_in slash outer).
    + destruct Hout as [Hout | Hout]; [| done].
      rewrite Hname, Hout, Hname. by rewrite Hother.
    + rewrite Hslash, Hin, Hname. by rewrite Hother.
  - intros -> Hc. rewrite Hname, Hc.
    pose proof (lstrip_length (lstrip rest outer) "/") as H1.
    pose proof (lstrip_length rest outer) as H2.
    simpl. lia.
Qed.

(** The scopes of the docstring, and a nested scope whose inner name
    starts with a character of the enclosing name. *)
Example name_scope_unnester_docstring :
  _name_scope_unnester None "a" = Return ([""; "a"], "a")
  ∧ _name_scope_unnester (Some [""; "a"]) "a/b" = Return ([""; "a"; "a/b"], "b")
  ∧ _name_scope_unnester (Some [""; "a"; "a/b"]) "a/b/c"
    = Return ([""; "a"; "a/b"; "a/b/c"], "c")
  ∧ _name_scope_unnester (Some [""; "a"; "a/b"]) "a/b/bar"
    = Return ([""; "a"; "a/b"; "a/b/bar"], "r").
Proof. by vm_compute. Qed.

End NameScope.

(** ** Reflection padding layers

    [BaseReflectionPadding] of layers/convolutional/base_reflection_padding.py
    and its subclasses of rank 1, 2 and 3. *)

Module ReflectionPadding.

(** The values given as [padding]: an [int], a tuple, a list, or a value of
    another type ([None], a string). *)
#[warnings="-register-all"]
Inductive PyValue :=
| VInt (n : Z)
| VTuple (items : list PyValue)
| VList (items : list PyValue)
| VNone
| VStr (s : string).

(** What the layer keeps: [rank] of the class and the items of
    [self.padding]. *)
Record BaseReflectionPadding := mkReflectionPadding {
  rank : nat;
  padding : list PyValue
}.

Definition padding_length_error (rank received : nat) : Exn :=
  ValueError ("If passing a tuple or list as padding, it must be of length "
              +:+ pretty rank +:+ ". Received length: " +:+ pretty received).

Definition unsupported_padding_error : Exn :=
  ValueError "Unsupported padding type. Expected int, tuple, or list.".

Definition negative_padding_error : Exn :=
  ValueError "Padding cannot be negative.".

Definition not_comparable_error : Exn :=
  TypeError "'<' not supported between these instances and 'int'".

(** [pad < 0] *)
Definition lt_zero (pad : PyValue) : Result bool :=
  match pad with
  | VInt n => Return (bool_decide (n < 0)%Z)
  | _ => Raise not_comparable_error
  end.

(** The loop [for pad in self.padding: if pad < 0: raise ...]. *)
Fixpoint check_padding (pads : list PyValue) : Result unit :=
  match pads with
  | [] => Return ()
  | pad :: rest =>
      negative ← lt_zero pad;
      if negative : bool then Raise negative_padding_error else check_padding rest
  end.

(** [BaseReflectionPadding.__init__(padding)] in a class of the given rank *)
Definition BaseReflectionPadding_init (rank : nat) (padding : PyValue)
    : Result BaseReflectionPadding :=
  padding ←
    match padding with
    | VInt n => Return [VInt n; VInt n]
    | VTuple items | VList items =>
        if decide (length items ≠ rank)
        then Raise (padding_length_error rank (length items))
        else Return items
    | _ => Raise unsupported_padding_error
    end;
  _ ← check_padding padding;
  mret (mkReflectionPadding rank padding).

(** [ReflectionPadding1D.__init__(padding)] *)
Definition ReflectionPadding1D (padding : PyValue) : Result BaseReflectionPadding :=
  BaseReflectionPadding_init 1 (VTuple [padding]).

(** [ReflectionPadding2D.__init__(padding)] *)
Definition ReflectionPadding2D (padding : PyValue) : Result BaseReflectionPadding :=
  let padding :=
    match padding with
    | VInt n => VTuple [VInt n; VInt n]
    | other => other
    end in
  BaseReflectionPadding_init 2 padding.

(** [ReflectionPadding3D.__init__(padding)] *)
Definition ReflectionPadding3D (padding : PyValue) : Result BaseReflectionPadding :=
  let padding :=
    match padding with
    | VInt n => if decide (0 < n)%Z then VTuple [VInt n; VInt n; VInt n] else VInt n
    | other => other
    end in
  BaseReflectionPadding_init 3 padding.

(** [2 * pad], as far as the sum with a dimension goes. *)
Definition twice (pad : PyValue) : Result Z :=
  match pad with
  | VInt n => Return (2 * n)%Z
  | _ => Raise (TypeError "unsupported operand type(s)")
  end.

(** The loop of [compute_output_shape], from [i] on for [steps] turns:
    [output_shape[i] += 2 * self.padding[i - 1]]. *)
Fixpoint compute_output_shape_loop (padding : list PyValue)
    (output_shape : list (option Z)) (i steps : nat) : Result (list (option Z)) :=
  match steps with
  | 0 => Return output_shape
  | S steps =>
      dim ← match output_shape !! i with
            | Some dim => Return dim
            | None => Raise (IndexError "list index out of range")
            end;
      pad ← match padding !! (i - 1) with
            | Some pad => Return pad
            | None => Raise (IndexError "tuple index out of range")
            end;
      pad ← twice pad;
      dim ← match dim with
            | Some dim => Return (dim + pad)%Z
            | None => Raise (TypeError "unsupported operand type(s) for +=: 'NoneType' and 'int'")
            end;
      compute_output_shape_loop padding (<[i := Some dim]> output_shape) (S i) steps
  end.

(** [BaseReflectionPadding.compute_output_shape(input_shape)]; an unknown
    dimension is [None]. *)
Definition compute_output_shape (l : BaseReflectionPadding)
    (input_shape : list (option Z)) : Result (list (option Z)) :=
  compute_output_shape_loop (padding l) input_shape 1 (rank l).

(** The paddings that [call] hands to [tf.pad]. *)
Definition padding_dims (l : BaseReflectionPadding) : list (PyValue * PyValue) :=
  let padding_dims := [(VInt 0, VInt 0)] in
  let padding_dims :=
    foldl (λ dims pad, dims ++ [(pad, pad)]) padding_dims (padding l) in
  foldl (λ dims _, dims ++ [(VInt 0, VInt 0)]) padding_dims
    (seq 0 (rank l - length (padding l))).

(** *** Facts *)


Lemma check_padding_not_int (pads : list PyValue) (ns : list Z) (pad : PyValue) rest :
  pads = (VInt <$> ns) ++ pad :: rest →
  Forall (λ n, 0 ≤ n)%Z ns →
  (∀ n, pad ≠ VInt n) →
  check_padding pads = Raise not_comparable_error.
Proof.
  intros -> Hall Hpad. induction Hall as [| n ns Hn _ IH]; simpl.
  - destruct pad as [n | | | |]; [by destruct (Hpad n) | done ..].
  - by rewrite bool_decide_false by lia.
Qed.


(** X11.  [ReflectionPadding1D(padding)] wraps what it is given in a tuple
    of its own.  It is constructed for an [int] that is not negative;
    a negative [int] raises the [ValueError] of a negative padding; any
    other value, the tuple or list of one [int] included, raises
    [TypeError] when it is compared with zero. *)
Theorem ReflectionPadding1D_accepts (padding : PyValue) :
  (∀ n, padding = VInt n → (0 ≤ n)%Z →
     ReflectionPadding1D padding = Return (mkReflectionPadding 1 [VInt n]))
  ∧ (∀ n, padding = VInt n → (n < 0)%Z →
     ReflectionPadding1D padding = Raise negative_padding_error)
  ∧ ((∀ n, padding ≠ VInt n) →
     ReflectionPadding1D padding = Raise not_comparable_error).
Proof.
  unfold ReflectionPadding1D, BaseReflectionPadding_init. simpl.
  split; [| split].
  - intros n -> Hn. simpl. by rewrite bool_decide_false by lia.
  - intros n -> Hn. simpl. by rewrite bool_decide_true by lia.
  - intros Hnot. destruct padding as [n | | | |]; [by destruct (Hnot n) | done ..].
Qed.

(** The item at [i] of a shape whose dimensions from 1 to the rank got
    their two paddings. *)
Definition padded_dim (rank : nat) (pads : list Z) (i : nat) (dim : option Z)
    : option Z :=
  if decide (1 ≤ i ≤ rank) then (λ d, d + 2 * default 0 (pads !! (i - 1)%nat))%Z <$> dim
  else dim.

Lemma compute_output_shape_loop_known (pads : list Z) (shape : list (option Z))
    (i steps : nat) :
  1 ≤ i → i + steps ≤ length shape → i - 1 + steps ≤ length pads →
  (∀ j, i ≤ j < i + steps → ∃ d, shape !! j = Some (Some d)) →
  compute_output_shape_loop (VInt <$> pads) shape i steps
  = Return (imap (λ j dim, if decide (i ≤ j < i + steps)
                          then (λ d, d + 2 * default 0 (pads !! (j - 1)%nat))%Z <$> dim
                          else dim) shape).
Proof.
  revert shape i. induction steps as [| steps IH]; intros shape i Hi Hlen Hpads Hknown.
  - simpl. f_equal. apply list_eq. intros j. rewrite list_lookup_imap.
    destruct (shape !! j); simpl; [by rewrite decide_False by lia | done].
  - simpl. destruct (Hknown i) as [d Hd]; [lia |]. rewrite Hd. simpl.
    rewrite list_lookup_fmap.
    destruct (lookup_lt_is_Some_2 pads (i - 1)) as [pad Hpad]; [lia |].
    rewrite Hpad. simpl. rewrite IH.
    + f_equal. apply list_eq. intros j.
      rewrite !list_lookup_imap.
      destruct (decide (j = i)) as [-> | Hne].
      * rewrite list_lookup_insert_eq by (by eapply lookup_lt_Some).
        rewrite Hd. simpl. rewrite decide_False by lia.
        rewrite decide_True by lia. by rewrite Hpad.
      * rewrite list_lookup_insert_ne by done.
        destruct (shape !! j) as [dim |]; [| done]. simpl.
        repeat case_decide; try lia; done.
    + lia.
    + rewrite length_insert. lia.
    + lia.
    + intros j Hj. rewrite list_lookup_insert_ne by lia. apply Hknown. lia.
Qed.

(** X12.  [compute_output_shape] of a layer that holds one padding, not
    negative, for each of its dimensions.  For an input shape with more
    items than the rank whose dimensions from 1 to the rank are known, the
    result is the shape with twice the padding added to each of these
    dimensions and the other items (batch, channels) as they were.  A shape
    with no more items than the rank raises, and so does one of these
    dimensions being unknown: with all shorter ones known it is
    [TypeError]. *)
Theorem compute_output_shape_pads (rank : nat) (pads : list Z)
    (input_shape : list (option Z)) :
  let l := mkReflectionPadding rank (VInt <$> pads) in
  length pads = rank →
  (rank < length input_shape →
   (∀ j, 1 ≤ j ≤ rank → ∃ d, input_shape !! j = Some (Some d)) →
   compute_output_shape l input_shape
   = Return (imap (padded_dim rank pads) input_shape))
  ∧ (0 < rank → length input_shape ≤ rank →
     is_raise (compute_output_shape l input_shape) = true)
  ∧ (∀ j, 1 ≤ j ≤ rank → input_shape !! j = Some None →
     (∀ k, 1 ≤ k < j → ∃ d, input_shape !! k = Some (Some d)) →
     ∃ msg, compute_output_shape l input_shape = Raise (TypeError msg)).
Proof.
  intros l Hpads. unfold compute_output_shape. simpl.
  assert (Hraise : ∀ steps shape i,
    1 ≤ i → length shape < i + steps → 0 < steps →
    is_raise (compute_output_shape_loop (VInt <$> pads) shape i steps) = true).
  { induction steps as [| steps IH]; intros shape i Hi Hlen Hsteps; [lia |].
    simpl. destruct (shape !! i) as [dim |] eqn:Hdim; [| done]. simpl.
    destruct ((VInt <$> pads) !! (i - 1)) as [pad |]; [| done]. simpl.
    destruct (twice pad) as [two |]; [| done]. simpl.
    destruct dim as [d |]; [| done]. simpl.
    apply IH; [lia | rewrite length_insert | ].
    - apply lookup_lt_Some in Hdim. lia.
    - apply lookup_lt_Some in Hdim. lia. }
  assert (Hnone : ∀ steps shape i j,
    1 ≤ i → i ≤ j < i + steps → i - 1 + steps ≤ length pads →
    shape !! j = Some None →
    (∀ k, i ≤ k < j → ∃ d, shape !! k = Some (Some d)) →
    ∃ msg, compute_output_shape_loop (VInt <$> pads) shape i steps
           = Raise (TypeError msg)).
  { induction steps as [| steps IH]; intros shape i j Hi Hj Hlen Hdim Hbefore; [lia |].
    simpl. rewrite list_lookup_fmap.
    destruct (lookup_lt_is_Some_2 pads (i - 1)) as [pad Hpad]; [lia |].
    destruct (decide (j = i)) as [-> | Hne].
    - rewrite Hdim, Hpad. simpl. by eexists.
    - destruct (Hbefore i) as [d Hd]; [lia |]. rewrite Hd, Hpad. simpl.
      apply (IH _ (S i) j); [lia | lia | lia | |].
      + by rewrite list_lookup_insert_ne by lia.
      + intros k Hk. rewrite list_lookup_insert_ne by lia. apply Hbefore. lia. }
  split; [| split].
  - intros Hlen Hknown.
    rewrite compute_output_shape_loop_known; [| lia | lia | lia |].
    + f_equal. apply imap_ext. intros j dim _. unfold padded_dim.
      destruct (decide (1 ≤ j ≤ rank)).
      * by rewrite decide_True by lia.
      * by rewrite decide_False by lia.
    + intros j Hj. apply Hknown. lia.
  - intros Hrank Hlen. apply Hraise; lia.
  - intros j Hj Hdim Hbefore. apply (Hnone rank input_shape 1 j); try lia; done.
Qed.

(** The layer and the shapes of the second case of
    [test_reflection_padding]. *)
Lemma compute_output_shape_pads_witness :
  ReflectionPadding2D (VTuple [VInt 2; VInt 1])
  = Return (mkReflectionPadding 2 (VInt <$> [2; 1]%Z))
  ∧ compute_output_shape (mkReflectionPadding 2 (VInt <$> [2; 1]%Z))
      [None; Some 5; Some 6; Some 3]%Z
    = Return [None; Some 9; Some 8; Some 3]%Z.
Proof.
  split; [by vm_compute |].
  destruct (compute_output_shape_pads 2 [2; 1]%Z [None; Some 5; Some 6; Some 3]%Z
              eq_refl) as [Hshape _].
  rewrite Hshape; [by vm_compute | simpl; lia |].
  intros j Hj. assert (j = 1 ∨ j = 2) as [-> | ->] by lia; by eexists.
Defined.

(** X13.  [ReflectionPadding3D] of an [int].  A positive [int] pads the
    three dimensions alike and a negative one raises.  Zero is handed on as
    the [int] it is, for which the base class keeps two paddings, not
    three: the layer is constructed, [call] hands [tf.pad] four rows of
    zeros, and [compute_output_shape] raises for every input shape. *)
Theorem ReflectionPadding3D_of_int (n : Z) :
  ((0 < n)%Z →
   ReflectionPadding3D (VInt n)
   = Return (mkReflectionPadding 3 [VInt n; VInt n; VInt n]))
  ∧ ((n < 0)%Z → ReflectionPadding3D (VInt n) = Raise negative_padding_error)
  ∧ (n = 0%Z →
     let l := mkReflectionPadding 3 [VInt 0; VInt 0] in
     ReflectionPadding3D (VInt n) = Return l
     ∧ padding_dims l = replicate 4 (VInt 0, VInt 0)
     ∧ ∀ input_shape, is_raise (compute_output_shape l input_shape) = true).
Proof.
  unfold ReflectionPadding3D, BaseReflectionPadding_init. split; [| split].
  - intros Hn. rewrite decide_True by done. simpl.
    by rewrite bool_decide_false by lia.
  - intros Hn. rewrite decide_False by lia. simpl.
    by rewrite bool_decide_true by lia.
  - intros ->. cbv zeta. split; [done |]. split; [done |].
    intros input_shape. unfold compute_output_shape. simpl.
    destruct (input_shape !! 1) as [[d1 |] |] eqn:H1; try done. simpl.
    rewrite list_lookup_insert_ne by lia.
    destruct (input_shape !! 2) as [[d2 |] |] eqn:H2; try done. simpl.
    rewrite !list_lookup_insert_ne by lia.
    by destruct (input_shape !! 3) as [[d3 |] |] eqn:H3.
Qed.

End ReflectionPadding.

(** ** What an invocation records *)

Definition is_node_event (ev : Event) : bool :=
  match ev with
  | EvNode _ _ _ => true
  | _ => false
  end.

(** An event that is neither the execution of [call] nor the creation of a
    node. *)
Definition is_setup_event (ev : Event) : Prop :=
  is_call_event ev = false ∧ is_node_event ev = false.

(** Every event of the action satisfies [P], whatever the layer it is run
    from. *)
Definition emits {A} (P : Event → Prop) (m : Action A) : Prop :=
  ∀ l, Forall P (m l).2.

(** Run from [l], the action executes [call] once, as the last thing it
    records, unless it raises before. *)
Definition calls_once {A} (m : Action A) (l : Layer) : Prop :=
  ∃ before,
    Forall is_setup_event before
    ∧ (is_raise (m l).1.1 = true ∧ (m l).2 = before
       ∨ ∃ c, is_call_event c = true ∧ (m l).2 = before ++ [c]).

Lemma emits_bind {A B} (P : Event → Prop) (m : Action A) (k : A → Action B) :
  emits P m → (∀ a, emits P (k a)) → emits P (m ≫= k).
Proof.
  intros Hm Hk l. rewrite bind_run. specialize (Hm l).
  destruct (m l) as [[[a | e] l1] events1]; [| done].
  specialize (Hk a l1). destruct (k a l1) as [[r l2] events2].
  simpl in *. by apply Forall_app.
Qed.

Lemma emits_ret {A} (P : Event → Prop) (a : A) : emits P (mret a).
Proof. intros l. constructor. Qed.

Lemma emits_lift {A} (P : Event → Prop) (r : Result A) : emits P (lift r).
Proof. intros l. constructor. Qed.

Lemma emits_raise {A} (P : Event → Prop) (e : Exn) : emits P (raise (A := A) e).
Proof. intros l. constructor. Qed.

Lemma emits_get (P : Event → Prop) : emits P get_layer.
Proof. intros l. constructor. Qed.

Lemma emits_modify (P : Event → Prop) (f : Layer → Layer) : emits P (modify_layer f).
Proof. intros l. constructor. Qed.

Lemma emits_emit (P : Event → Prop) (ev : Event) : P ev → emits P (emit ev).
Proof. intros Hev l. by repeat constructor. Qed.


Lemma emits_nothing {A} (m : Action A) (l : Layer) :
  emits (λ _, False) m → (m l).2 = [].
Proof. intros Hm. specialize (Hm l). by destruct (m l).2 as [| ev events]; [| inversion Hm]. Qed.

Lemma emits_same_trace {A B} (P : Event → Prop) (m : Action A) (m' : Action B) :
  same_trace m m' → emits P m' → emits P m.
Proof. intros Hsame Hm l. destruct (Hsame l) as [_ ->]. apply Hm. Qed.

Lemma calls_once_prefix {A B} (m : Action A) (k : A → Action B) (l : Layer) :
  emits is_setup_event m → (∀ a l1, calls_once (k a) l1) →
  calls_once (m ≫= k) l.
Proof.
  intros Hm Hk. unfold calls_once. rewrite bind_run. specialize (Hm l).
  destruct (m l) as [[[a | e] l1] events1]; simpl in Hm.
  - destruct (Hk a l1) as (before & Hbefore & Hrun).
    destruct (k a l1) as [[r l2] events2]. simpl in *.
    exists (events1 ++ before). split; [by apply Forall_app |].
    destruct Hrun as [[Hr ->] | (c & Hc & ->)]; [by left |].
    right. exists c. by rewrite app_assoc.
  - exists events1. split; [done |]. by left.
Qed.

Lemma calls_once_suffix {A B} (m : Action A) (k : A → Action B) (l : Layer) :
  calls_once m l → (∀ a, emits (λ _, False) (k a)) → calls_once (m ≫= k) l.
Proof.
  intros (before & Hbefore & Hrun) Hk. unfold calls_once. rewrite bind_run.
  destruct (m l) as [[[a | e] l1] events1]; simpl in Hrun.
  - pose proof (emits_nothing (k a) l1 (Hk a)) as Hnone.
    destruct (k a l1) as [[r l2] events2]. simpl in *. subst events2.
    rewrite app_nil_r. exists before. split; [done |].
    destruct Hrun as [[? _] | Hrun]; [done | by right].
  - exists before. split; [done |]. simpl. destruct Hrun as [[_ ->] | Hrun]; [by left | by right].
Qed.

Section PipelineEvents.

Variable global_learning_phase : option Leaf.
Variable assert_input_compatibility : Layer → Nest → Result unit.
Variable infer_input_shapes : Nest → option (list TensorShape).
Variable keras_mask : Leaf → Leaf.
Variable keras_tensor_from_tensor : Leaf → Result Leaf.
Variable cls : LayerClass.

Abbreviation maybe_build :=
  (_maybe_build assert_input_compatibility infer_input_shapes cls).
Abbreviation immediate :=
  (__call___immediate global_learning_phase assert_input_compatibility
     infer_input_shapes keras_mask cls).
Abbreviation functional :=
  (_functional_construction_call global_learning_phase assert_input_compatibility
     infer_input_shapes keras_mask keras_tensor_from_tensor cls).
Abbreviation dispatch :=
  (__call__ global_learning_phase assert_input_compatibility
     infer_input_shapes keras_mask keras_tensor_from_tensor cls).
Abbreviation infer_output_signature :=
  (_infer_output_signature assert_input_compatibility infer_input_shapes
     keras_mask keras_tensor_from_tensor cls).
Abbreviation symbolic_call :=
  (_keras_tensor_symbolic_call assert_input_compatibility infer_input_shapes
     keras_mask keras_tensor_from_tensor cls).

Lemma emits_handle_activity_regularization (P : Event → Prop) outputs :
  emits P (_handle_activity_regularization cls outputs).
Proof.
  unfold _handle_activity_regularization.
  apply emits_bind; [apply emits_get |]. intros l.
  destruct (_has_activity_regularizer l); [| apply emits_ret].
  induction (flatten outputs) as [| x xs IH]; simpl; [apply emits_ret |].
  apply emits_bind; [apply emits_lift | done].
Qed.

Lemma emits_set_mask_metadata (P : Event → Prop) inputs outputs previous_mask :
  emits P (_set_mask_metadata keras_mask cls inputs outputs previous_mask).
Proof.
  unfold _set_mask_metadata. apply emits_bind; [apply emits_get |]. intros l.
  destruct (negb _); [apply emits_ret |].
  destruct (forallb _ _); [apply emits_ret |].
  apply emits_bind; [apply emits_lift | intros; apply emits_ret].
Qed.

Lemma emits_set_save_spec (P : Event → Prop) inputs : emits P (_set_save_spec inputs).
Proof.
  unfold _set_save_spec. apply emits_bind; [apply emits_get |]. intros l.
  destruct (_saved_model_inputs_spec l); [apply emits_ret | apply emits_modify].
Qed.

Lemma emits_maybe_build inputs : emits is_setup_event (maybe_build inputs).
Proof.
  unfold _maybe_build, Layer_build.
  apply emits_bind; [apply emits_get |]. intros l.
  apply emits_bind.
  - destruct (built l); [apply emits_ret |].
    apply emits_bind; [apply emits_lift |]. intros _. cbv zeta.
    apply emits_bind.
    { destruct (flatten inputs) as [| x xs]; [apply emits_ret |].
      destruct (compute_dtype _); [apply emits_ret |].
      destruct (leaf_dtype x); [apply emits_modify | apply emits_ret]. }
    intros _. apply emits_bind.
    { destruct (build_is_default cls); [apply emits_ret |].
      apply emits_bind; [by apply emits_emit |]. intros _.
      apply emits_bind; [apply emits_get |]. intros l1.
      apply emits_bind; [apply emits_lift |]. intros l2. apply emits_modify. }
    intros _. apply emits_bind; [by apply emits_emit | intros; apply emits_modify].
  - intros _. apply emits_bind; [apply emits_get |]. intros l1.
    destruct (_initial_weights l1) as [w |]; [| apply emits_ret].
    destruct (set_weights l1 w) as [effects r].
    apply emits_bind; [by apply emits_emit |]. intros _.
    apply emits_bind; [apply emits_lift | intros; apply emits_modify].
Qed.

Lemma calls_once_emit_call {A} (c : Event) (k : Action A) (l : Layer) :
  is_call_event c = true → emits (λ _, False) k →
  calls_once (emit c ≫= λ _, k) l.
Proof.
  intros Hc Hk. exists []. split; [constructor |]. right. exists c.
  split; [done |]. rewrite bind_run. simpl.
  pose proof (emits_nothing k l Hk) as Hnone.
  destruct (k l) as [[r l2] events2]. simpl in *. by subst events2.
Qed.

Lemma calls_once_immediate l inputs args kwargs input_list ctx :
  calls_once (immediate inputs args kwargs input_list ctx) l.
Proof.
  unfold __call___immediate. cbv zeta.
  apply calls_once_prefix; [apply emits_get |]. intros l0 l1.
  destruct (_get_input_masks _ _ _ _ _ _) as [input_masks mask_is_implicit].
  destruct (_get_propagated_call_context_arguments _ _ _ _ _ _)
    as [[args' kwargs'] propagated].
  apply calls_once_prefix; [apply emits_lift |]. intros _ l2.
  apply calls_once_prefix.
  { destruct (built l0); [apply emits_ret | apply emits_maybe_build]. }
  intros _ l3. apply calls_once_prefix; [apply emits_get |]. intros l4 l5.
  apply calls_once_emit_call; [done |].
  apply emits_bind; [apply emits_lift |]. intros outputs.
  apply emits_bind.
  { destruct (_has_activity_regularizer l4);
      [apply emits_handle_activity_regularization | apply emits_ret]. }
  intros _. apply emits_bind.
  { destruct (_supports_masking l4);
      [apply emits_set_mask_metadata | apply emits_ret]. }
  intros _. apply emits_bind; [apply emits_get |]. intros l6.
  apply emits_bind; [| intros; apply emits_ret].
  destruct (_saved_model_inputs_spec l6); [apply emits_ret | apply emits_set_save_spec].
Qed.


(** X15.  The call that is executed at once executes [call] at most once,
    and exactly once when it returns: either it raises before [call] is
    reached, or [call] is the last thing it does that is recorded, after
    the build when there is one; what follows [call] (activity
    regularization, mask metadata, save spec) builds nothing and calls
    nothing. *)
Theorem immediate_calls_once l inputs args kwargs input_list ctx :
  let run := immediate inputs args kwargs input_list ctx l in
  (∃ before,
     Forall is_setup_event before
     ∧ (is_raise run.1.1 = true ∧ run.2 = before
        ∨ ∃ inputs' args' kwargs',
            run.2 = before ++ [EvCall inputs' args' kwargs']))
  ∧ (is_raise run.1.1 = false →
     length (filter (λ ev, is_call_event ev = true) run.2) = 1).
Proof.
  intros run.
  destruct (calls_once_immediate l inputs args kwargs input_list ctx)
    as (before & Hbefore & Hrun).
  fold run in Hrun.
  assert (Hnone : filter (λ ev, is_call_event ev = true) before = []).
  { clear Hrun. induction Hbefore as [| ev before [Hev _] _ IH]; [done |].
    by rewrite filter_cons_False by congruence. }
  split.
  - exists before. split; [done |].
    destruct Hrun as [Hraise | (c & Hc & Hevents)]; [by left |].
    right. destruct c; try done. by eexists _, _, _.
  - intros Hreturn. destruct Hrun as [[Hraise _] | (c & Hc & ->)]; [congruence |].
    rewrite filter_app, Hnone. simpl. by rewrite filter_cons_True, filter_nil.
Qed.






End PipelineEvents.



(** ** Call-context arguments that [call] does not take *)

Lemma propagate_unexpected_kwarg glp spec ctx a args kwargs propagated :
  a ∉ expected_context_args spec →
  (propagate_argument glp spec ctx (args, kwargs, propagated) a).1.2 !! a = None.
Proof.
  intros Hexp. unfold propagate_argument. rewrite decide_False by done.
  destruct (kwargs !! a) as [v |] eqn:Ha; cbn [fst snd]; [| done].
  by rewrite lookup_delete_eq.
Qed.

(** X17.  What [_get_propagated_call_context_arguments] does besides
    resolving the arguments that [call] takes.  A relevant argument (one of
    the layer's call-context arguments, or one that an enclosing call
    resolved) that [call] does not take is never among the keywords handed
    to [call]; the value passed for it, or else the value of the enclosing
    calls, is what nested calls find, unless it is [None].  An argument
    that is not relevant is left as it was passed and is not propagated. *)
Theorem unexpected_context_argument (global_learning_phase : option Leaf)
    (spec : CallFunctionSpec) (args : list Nest) (kwargs : gmap string Nest)
    (ctx : CallContext) (local : gset string) (a : string) :
  let st :=
    _get_propagated_call_context_arguments global_learning_phase spec args kwargs
      ctx local in
  let relevant := dom (call_context_args ctx) ∪ local in
  (a ∈ relevant → a ∉ expected_context_args spec →
   st.1.2 !! a = None
   ∧ st.2 !! a
     = (let value := default (get_call_context_arg ctx a) (kwargs !! a) in
        if is_None value then None else Some value))
  ∧ (a ∉ relevant →
     st.1.2 !! a = kwargs !! a
     ∧ get_arg_value spec a st.1.1 st.1.2 = get_arg_value spec a args kwargs
     ∧ arg_was_passed spec a st.1.1 st.1.2 = arg_was_passed spec a args kwargs
     ∧ st.2 !! a = None).
Proof.
  intros st relevant. split.
  - intros Hrel Hexp.
    destruct (eager_resolution global_learning_phase spec args kwargs ctx local a Hrel)
      as [_ Hprop].
    split; [| by apply Hprop].
    subst st. unfold _get_propagated_call_context_arguments. fold relevant.
    destruct (foldl_once (observe spec) (propagate_argument global_learning_phase spec ctx)
                (λ a b st, propagate_other global_learning_phase spec ctx a b st) a
                (elements relevant) (args, kwargs, ∅))
      as ([[args1 kwargs1] prop1] & _ & Hafter).
    { apply NoDup_elements. }
    { by apply elem_of_elements. }
    pose proof (propagate_unexpected_kwarg global_learning_phase spec ctx a
                  args1 kwargs1 prop1 Hexp) as Hkw.
    destruct (foldl _ _ _) as [[args' kwargs'] propagated].
    destruct (propagate_argument _ _ _ _ _) as [[args2 kwargs2] prop2].
    unfold observe in Hafter. cbn [fst snd] in *. congruence.
  - intros Hrel. subst st. unfold _get_propagated_call_context_arguments.
    fold relevant.
    pose proof (foldl_other (observe spec)
                  (propagate_argument global_learning_phase spec ctx)
                  (λ a b st, propagate_other global_learning_phase spec ctx a b st) a
                  (elements relevant) (args, kwargs, ∅)) as Hobs.
    destruct (foldl _ _ _) as [[args' kwargs'] propagated].
    unfold observe in Hobs. cbn [fst snd].
    assert (Hout : a ∉ elements relevant) by (by rewrite elem_of_elements).
    specialize (Hobs Hout). by injection Hobs as -> -> -> ->.
Qed.

(** ** Replacing a variable held by an attribute *)

Section VariableReplacement.

Import Tracking.

Variable kind_of : nat → Kind.

Lemma _get_variable_from_list_middle (before after : list nat) (var : nat) :
  (var ∉ before) →
  _get_variable_from_list (before ++ var :: after) var = Some (length before).
Proof.
  induction before as [| w before IH]; intros Hout; simpl.
  - by rewrite decide_True.
  - apply not_elem_of_cons in Hout as [Hne Hout].
    rewrite decide_False by done. by rewrite IH.
Qed.

Lemma filter_other_objects (o : nat) (l : list nat) :
  (o ∉ l) → filter (λ w, Some w ≠ Some o) l = l.
Proof.
  induction l as [| w l IH]; intros Hout; [done |].
  apply not_elem_of_cons in Hout as [Hne Hout].
  rewrite filter_cons_True by congruence. by rewrite IH.
Qed.

Lemma filter_object_middle (o : nat) (before after : list nat) :
  (o ∉ before) → (o ∉ after) →
  filter (λ w, Some w ≠ Some o) (before ++ o :: after) = before ++ after.
Proof.
  intros Hb Ha. rewrite filter_app, filter_cons_False by (by intros Hne; apply Hne).
  by rewrite !filter_other_objects.
Qed.

(** [__setattr__] for a tracked attribute, with the position it computes. *)
Lemma setattr_tracked_position (s : LayerAttrs) (name : string) (value : Ref) :
  name ≠ "_self_setattr_tracking" →
  _self_setattr_tracking s = true →
  class_attrs s !! name = None →
  __setattr__ kind_of name value s
  = (Return (),
     let s1 := count_value value s in
     let position :=
       match as_Variable kind_of value, as_Variable kind_of (getattr s1 name) with
       | Some _, Some (existing_variable, trainable) =>
           if trainable
           then _get_variable_from_list (_trainable_weights s1) existing_variable
           else _get_variable_from_list (_non_trainable_variable s1) existing_variable
       | _, _ => None
       end in
     let s3 := track_variables kind_of value position
                 (track_module kind_of value (__delattr__ kind_of name s1).2) in
     set___dict__ (<[name := value]> (__dict__ s3)) s3).
Proof.
  intros Hname Htracking Hclass. unfold __setattr__.
  rewrite bool_decide_eq_false_2 by done. rewrite Htracking, Hclass.
  rewrite bool_decide_eq_false_2 by (by intros [? ?]). cbn [orb negb].
  reflexivity.
Qed.

(** X18.  Assigning a variable to an attribute that holds another variable,
    its only reference.  A trainable variable that replaces a trainable one
    takes its place in [_trainable_weights].  For a non-trainable variable
    the place of the old one is looked for in [_non_trainable_variable],
    which [Layer] never fills: the old variable is removed from
    [_non_trainable_weights] and the new one is appended at the end. *)
Theorem variable_replacement_position (s : LayerAttrs) (name : string)
    (old new : nat) (trainable : bool) (before after : list nat) :
  name ≠ "_self_setattr_tracking" →
  _self_setattr_tracking s = true →
  class_attrs s !! name = None →
  __dict__ s !! name = Some (Some old) →
  _obj_reference_counts s !! Some old = Some 1 →
  kind_of old = KVariable trainable → kind_of new = KVariable trainable →
  new ≠ old →
  (if trainable then _trainable_weights s else _non_trainable_weights s)
  = before ++ old :: after →
  (old ∉ before) → (old ∉ after) → (new ∉ before ++ after) →
  _non_trainable_variable s = [] →
  let s' := (__setattr__ kind_of name (Some new) s).2 in
  __dict__ s' !! name = Some (Some new)
  ∧ (if trainable
     then _trainable_weights s' = before ++ new :: after
          ∧ _non_trainable_weights s'
            = filter (λ w, Some w ≠ Some old) (_non_trainable_weights s)
     else _non_trainable_weights s' = before ++ after ++ [new]
          ∧ _trainable_weights s'
            = filter (λ w, Some w ≠ Some old) (_trainable_weights s)).
Proof.
  intros Hname Htracking Hclass Hd Hcount Hold Hnew Hne Hlist Hb Ha Hfresh Htypo s'.
  subst s'. rewrite setattr_tracked_position by done. cbn [snd]. cbv zeta.
  set (s1 := count_value (Some new) s).
  assert (Hs1 : __dict__ s1 = __dict__ s ∧ _trainable_weights s1 = _trainable_weights s
                ∧ _non_trainable_weights s1 = _non_trainable_weights s
                ∧ _non_trainable_variable s1 = _non_trainable_variable s
                ∧ _self_tracked_trackables s1 = _self_tracked_trackables s
                ∧ _auto_track_sub_layers s1 = _auto_track_sub_layers s
                ∧ _obj_reference_counts s1 !! Some old = Some 1).
  { subst s1. unfold count_value. simpl.
    by rewrite lookup_insert_ne by congruence. }
  destruct Hs1 as (Hd1 & Htw1 & Hntw1 & Htypo1 & Htr1 & Hauto1 & Hcount1).
  assert (Hget : getattr s1 name = Some old) by (unfold getattr; by rewrite Hd1, Hd).
  rewrite Hget.
  assert (Hvar_new : as_Variable kind_of (Some new) = Some (new, trainable))
    by (unfold as_Variable; by rewrite Hnew).
  assert (Hvar_old : as_Variable kind_of (Some old) = Some (old, trainable))
    by (unfold as_Variable; by rewrite Hold).
  rewrite Hvar_new, Hvar_old.
  assert (Hdel : (__delattr__ kind_of name s1).2
    = set_tracked (_self_tracked_trackables s)
        (filter (λ w, Some w ≠ Some old) (_trainable_weights s))
        (filter (λ w, Some w ≠ Some old) (_non_trainable_weights s))
        (set___dict__ (delete name (__dict__ s1))
           (set_reference_counts (delete (Some old) (_obj_reference_counts s1)) s1))).
  { rewrite (delattr_last kind_of s1 name old 1); [| by rewrite Hd1 | done | lia].
    rewrite Hvar_old. unfold is_Layer, has_weights. rewrite Hold. simpl.
    done. }
  rewrite Hdel. clear Hdel.
  set (s2 := set_tracked _ _ _ _).
  assert (Hmodule : track_module kind_of (Some new) s2 = s2).
  { unfold track_module, is_Module, has_weights. rewrite Hnew.
    by rewrite andb_false_r. }
  rewrite Hmodule. unfold track_variables. rewrite Hvar_new.
  unfold _track_variable. destruct trainable.
  - rewrite Htw1, Hlist, _get_variable_from_list_middle by done.
    subst s2. cbn [_trainable_weights set_tracked].
    rewrite Hlist, filter_object_middle by done.
    rewrite decide_False by done. simpl.
    rewrite lookup_insert_eq. split; [done |]. split; [| done].
    by rewrite take_app_length, drop_app_length.
  - rewrite Htypo1, Htypo. simpl.
    subst s2. cbn [_non_trainable_weights set_tracked].
    rewrite Hlist, filter_object_middle by done.
    rewrite decide_False by done. simpl.
    rewrite lookup_insert_eq. split; [done |]. split; [| done].
    by rewrite <- app_assoc.
Qed.

End VariableReplacement.

(** A layer that holds a kernel and a bias, both trainable, and a moving
    mean and a moving variance, both not. *)
Definition variable_kinds (o : nat) : Tracking.Kind :=
  match o with
  | 1 | 2 | 3 => Tracking.KVariable true
  | _ => Tracking.KVariable false
  end.

Definition normalization_attrs : Tracking.LayerAttrs :=
  Tracking.run_ops variable_kinds
    [Tracking.SetAttr "kernel" (Some 1); Tracking.SetAttr "bias" (Some 2);
     Tracking.SetAttr "moving_mean" (Some 10);
     Tracking.SetAttr "moving_variance" (Some 11)]
    (Tracking.fresh ∅).

Lemma variable_replacement_position_witness :
  Tracking._trainable_weights
    (Tracking.__setattr__ variable_kinds "kernel" (Some 3) normalization_attrs).2
  = [3; 2]
  ∧ Tracking._non_trainable_weights
      (Tracking.__setattr__ variable_kinds "moving_mean" (Some 12)
         normalization_attrs).2
    = [11; 12].
Proof.
  split.
  - refine (proj1 (proj2 (variable_replacement_position variable_kinds
                            normalization_attrs "kernel" 1 3 true [] [2]
                            _ _ _ _ _ _ _ _ _ _ _ _ _)));
      try (by vm_compute); try done; set_solver.
  - refine (proj1 (proj2 (variable_replacement_position variable_kinds
                            normalization_attrs "moving_mean" 10 12 false [] [11]
                            _ _ _ _ _ _ _ _ _ _ _ _ _)));
      try (by vm_compute); try done; set_solver.
Defined.

(** ** Sub-layers reached through tracked objects *)

Module ObjectGraph.

(** The classes that [_flatten_modules] and [_flatten_layers] tell apart with
    [isinstance]: a [Layer] that is no [Metric], a [Metric] (which is a
    [Layer]), a [tf.Module] that is no [Layer], a [TrackableDataStructure],
    and anything else. *)
Inductive ObjectClass := IsLayer | IsMetric | IsModule | IsDataStructure | IsOther.

Record Object := mkObject {
  class_of : ObjectClass;
  _self_tracked_trackables : option (list nat);
      (* [None]: the object has no such attribute *)
  _values : list nat;
  _trainable : bool
}.

(** Objects live in a heap, keyed by identity.  An identity the heap does not
    hold stands for an object of no interest here (a variable, a number). *)
Abbreviation Heap := (gmap nat Object).

Definition class_at (heap : Heap) (o : nat) : ObjectClass :=
  match heap !! o with
  | Some obj => class_of obj
  | None => IsOther
  end.

(** [isinstance(o, tf.Module) and not isinstance(o, metrics_mod.Metric)] *)
Definition is_module (heap : Heap) (o : nat) : bool :=
  match class_at heap o with
  | IsLayer | IsModule => true
  | _ => false
  end.

Definition is_data_structure (heap : Heap) (o : nat) : bool :=
  match class_at heap o with
  | IsDataStructure => true
  | _ => false
  end.

(** [isinstance(o, Layer)] *)
Definition is_Layer (heap : Heap) (o : nat) : bool :=
  match class_at heap o with
  | IsLayer | IsMetric => true
  | _ => false
  end.

(** [getattr(o, "_self_tracked_trackables", None)] *)
Definition tracked_trackables (heap : Heap) (o : nat) : option (list nat) :=
  heap !! o ≫= _self_tracked_trackables.

Definition tracked_values (heap : Heap) (o : nat) : list nat :=
  match heap !! o with
  | Some obj => _values obj
  | None => []
  end.

(** The [while deque:] loop of [_flatten_modules]; the result lists the
    yielded objects in the order they are yielded.  [deque.extendleft
    (reversed(xs))] puts [xs] in front of the deque, in the order of [xs];
    an empty [xs] is skipped by the source and adds nothing here.  The loop
    is not structurally recursive: [fuel] bounds its iterations, and [None]
    is returned when it runs out. *)
Fixpoint flatten_loop (heap : Heap) (recursive : bool) (fuel : nat)
    (seen_object_ids : gset nat) (deque : list nat) : option (list nat) :=
  match fuel, deque with
  | 0, _ => None
  | S _, [] => Some []
  | S fuel, trackable_obj :: deque =>
      if decide (trackable_obj ∈ seen_object_ids) then
        flatten_loop heap recursive fuel seen_object_ids deque
      else
        let seen_object_ids := {[trackable_obj]} ∪ seen_object_ids in
        if is_module heap trackable_obj then
          let deque :=
            if recursive then
              match tracked_trackables heap trackable_obj with
              | Some subtrackables => subtrackables ++ deque
              | None => deque
              end
            else deque in
          (trackable_obj ::.) <$>
            flatten_loop heap recursive fuel seen_object_ids deque
        else if is_data_structure heap trackable_obj then
          flatten_loop heap recursive fuel seen_object_ids
            (tracked_values heap trackable_obj ++ deque)
        else flatten_loop heap recursive fuel seen_object_ids deque
  end.

(** What an object puts in front of the deque when it is taken from it for
    the first time. *)
Definition pushed (heap : Heap) (recursive : bool) (o : nat) : list nat :=
  if is_module heap o then
    if recursive then default [] (tracked_trackables heap o) else []
  else if is_data_structure heap o then tracked_values heap o
  else [].

(** Iterations that are always enough: every entry of the deque costs one,
    and every object of the heap is expanded at most once. *)
Definition expansions (heap : Heap) (recursive : bool) (objects : gset nat) : nat :=
  sum_list ((λ o, S (length (pushed heap recursive o))) <$> elements objects).

Definition flatten_fuel (heap : Heap) (recursive : bool) (deque : list nat) : nat :=
  S (length deque + expansions heap recursive (dom heap)).

Definition _flatten_modules (heap : Heap) (self : nat)
    (recursive include_self : bool) : option (list nat) :=
  let first := if include_self then [self] else [] in
  match tracked_trackables heap self with
  | Some ((_ :: _) as trackables) =>
      (first ++.) <$>
        flatten_loop heap recursive (flatten_fuel heap recursive trackables)
          ∅ trackables
  | _ => Some first
  end.

Definition _flatten_layers (heap : Heap) (self : nat)
    (recursive include_self : bool) : option (list nat) :=
  filter (λ m, is_Layer heap m = true)
    <$> _flatten_modules heap self recursive include_self.

(** [layer._trainable = value] *)
Definition set__trainable (value : bool) (obj : Object) : Object :=
  mkObject (class_of obj) (_self_tracked_trackables obj) (_values obj) value.

(** The setter of [trainable].  The generator is consumed while the loop
    body runs; the body changes no [_self_tracked_trackables] and no
    [_values], so the objects yielded are those of the heap at the start. *)
Definition trainable_setter (heap : Heap) (self : nat) (value : bool)
    : option Heap :=
  layers ← _flatten_layers heap self true true;
  Some (foldl (λ heap layer, alter (set__trainable value) layer heap) heap layers).

(** The getter of [trainable]. *)
Definition trainable (heap : Heap) (layer : nat) : option bool :=
  _trainable <$> heap !! layer.

(** [_get_trainable_state]: a dictionary from the sub-layers to their
    [trainable]. *)
Definition _get_trainable_state (heap : Heap) (self : nat)
    : option (gmap nat bool) :=
  layers ← _flatten_layers heap self true true;
  Some (foldl (λ trainable_state layer,
                 match trainable heap layer with
                 | Some value => <[layer := value]> trainable_state
                 | None => trainable_state
                 end) ∅ layers).

(** [_set_trainable_state] *)
Definition _set_trainable_state (heap : Heap) (self : nat)
    (trainable_state : gmap nat bool) : option Heap :=
  layers ← _flatten_layers heap self true true;
  foldl (λ heap layer,
           heap ← heap;
           match trainable_state !! layer with
           | Some value => trainable_setter heap layer value
           | None => Some heap
           end) (Some heap) layers.

(** *** The objects [_flatten_modules] reaches *)

(** [reaches heap recursive seen a o]: [o] is reached from [a] by following
    what the objects push, through objects outside [seen]. *)
Inductive reaches (heap : Heap) (recursive : bool) (seen : gset nat)
    : nat → nat → Prop :=
| reaches_here o : o ∉ seen → reaches heap recursive seen o o
| reaches_step a b o :
    a ∉ seen → b ∈ pushed heap recursive a →
    reaches heap recursive seen b o → reaches heap recursive seen a o.

Section Flatten.
Variable heap : Heap.
Variable recursive : bool.

Lemma flatten_loop_unseen fuel seen o deque :
  o ∉ seen →
  flatten_loop heap recursive (S fuel) seen (o :: deque)
  = (if is_module heap o then fmap (o ::.) else id)
      (flatten_loop heap recursive fuel ({[o]} ∪ seen)
         (pushed heap recursive o ++ deque)).
Proof.
  intros Hseen. cbn [flatten_loop]. rewrite decide_False by done.
  unfold pushed. destruct (is_module heap o).
  - destruct recursive; [| done].
    by destruct (tracked_trackables heap o).
  - by destruct (is_data_structure heap o).
Qed.

Lemma flatten_loop_seen fuel seen o deque :
  o ∈ seen →
  flatten_loop heap recursive (S fuel) seen (o :: deque)
  = flatten_loop heap recursive fuel seen deque.
Proof. intros Hseen. cbn [flatten_loop]. by rewrite decide_True. Qed.

Lemma pushed_outside o : o ∉ dom heap → pushed heap recursive o = [].
Proof.
  intros Ho%not_elem_of_dom. unfold pushed, is_module, is_data_structure, class_at.
  by rewrite Ho.
Qed.

Lemma sum_list_Permutation (l k : list nat) : l ≡ₚ k → sum_list l = sum_list k.
Proof. induction 1; simpl; lia. Qed.

Lemma expansions_remove (objects : gset nat) o :
  o ∈ objects →
  expansions heap recursive objects
  = S (length (pushed heap recursive o))
    + expansions heap recursive (objects ∖ {[o]}).
Proof.
  intros Ho. unfold expansions.
  rewrite (union_difference_singleton_L o objects Ho) at 1.
  rewrite (sum_list_Permutation _ _
             (fmap_Permutation _ _ _
                (elements_union_singleton (objects ∖ {[o]}) o ltac:(set_solver)))).
  done.
Qed.

Lemma flatten_loop_terminates fuel seen deque :
  length deque + expansions heap recursive (dom heap ∖ seen) < fuel →
  is_Some (flatten_loop heap recursive fuel seen deque).
Proof.
  revert seen deque. induction fuel as [| fuel IH]; intros seen deque Hfuel; [lia |].
  destruct deque as [| o deque]; [by eexists |].
  destruct (decide (o ∈ seen)) as [Hseen | Hseen].
  - rewrite flatten_loop_seen by done. apply IH. simpl in Hfuel. lia.
  - rewrite flatten_loop_unseen by done.
    assert (is_Some (flatten_loop heap recursive fuel ({[o]} ∪ seen)
                       (pushed heap recursive o ++ deque))) as [ys Hys].
    { apply IH. rewrite length_app. simpl in Hfuel.
      replace (dom heap ∖ ({[o]} ∪ seen)) with ((dom heap ∖ seen) ∖ {[o]})
        by set_solver.
      destruct (decide (o ∈ dom heap)) as [Hdom | Hdom].
      - rewrite (expansions_remove (dom heap ∖ seen) o) in Hfuel by set_solver.
        lia.
      - rewrite pushed_outside by done.
        replace ((dom heap ∖ seen) ∖ {[o]}) with (dom heap ∖ seen) by set_solver.
        simpl. lia. }
    rewrite Hys. destruct (is_module heap o); by eexists.
Qed.

Lemma reaches_end seen a o : reaches heap recursive seen a o → o ∉ seen.
Proof. by induction 1. Qed.

Lemma reaches_mono seen seen' a o :
  seen ⊆ seen' → reaches heap recursive seen' a o → reaches heap recursive seen a o.
Proof.
  intros Hsub. induction 1 as [o Ho | a b o Ha Hb _ IH].
  - apply reaches_here. set_solver.
  - eapply reaches_step; [set_solver | done | done].
Qed.

(** A path that avoids [seen] either avoids [o] as well, or ends in [o], or
    has a last visit of [o], after which it goes on from something [o]
    pushes. *)
Lemma reaches_split seen o a y :
  reaches heap recursive seen a y →
  reaches heap recursive ({[o]} ∪ seen) a y
  ∨ y = o
  ∨ ∃ z, z ∈ pushed heap recursive o ∧ reaches heap recursive ({[o]} ∪ seen) z y.
Proof.
  induction 1 as [y Hy | a b y Ha Hb _ IH].
  - destruct (decide (y = o)) as [-> | Hne]; [by right; left |].
    left. apply reaches_here. set_solver.
  - destruct (decide (a = o)) as [-> | Hne].
    + destruct IH as [IH | [-> | IH]]; [| by right; left | by right; right].
      right; right. by exists b.
    + destruct IH as [IH | [-> | IH]]; [| by right; left | by right; right].
      left. eapply reaches_step; [set_solver | done | done].
Qed.

Lemma flatten_loop_sound fuel seen deque ys y :
  flatten_loop heap recursive fuel seen deque = Some ys → y ∈ ys →
  is_module heap y = true ∧ ∃ r, r ∈ deque ∧ reaches heap recursive seen r y.
Proof.
  revert seen deque ys. induction fuel as [| fuel IH]; intros seen deque ys; [done |].
  destruct deque as [| o deque]; [by intros [= <-] ?%elem_of_nil |].
  destruct (decide (o ∈ seen)) as [Hseen | Hseen].
  - rewrite flatten_loop_seen by done. intros Hys Hy.
    destruct (IH _ _ _ Hys Hy) as (Hm & r & Hr & Hreach).
    split; [done |]. exists r. split; [by right | done].
  - rewrite flatten_loop_unseen by done. intros Hys Hy.
    assert (∀ ys', flatten_loop heap recursive fuel ({[o]} ∪ seen)
                     (pushed heap recursive o ++ deque) = Some ys' → y ∈ ys' →
                   is_module heap y = true
                   ∧ ∃ r, r ∈ o :: deque ∧ reaches heap recursive seen r y) as Hrest.
    { intros ys' Hys' Hy'.
      destruct (IH _ _ _ Hys' Hy') as (Hm & r & Hr & Hreach).
      split; [done |].
      apply (reaches_mono seen) in Hreach; [| set_solver].
      apply elem_of_app in Hr as [Hr | Hr].
      - exists o. split; [by left |]. by eapply reaches_step.
      - exists r. split; [by right | done]. }
    destruct (is_module heap o) eqn:Hmod.
    + destruct (flatten_loop heap recursive fuel _ _) as [ys' |] eqn:Hys'; [| done].
      simpl in Hys. injection Hys as <-.
      apply elem_of_cons in Hy as [-> | Hy]; [| by eapply Hrest].
      split; [done |]. exists o. split; [by left |]. by apply reaches_here.
    + by eapply Hrest.
Qed.

Lemma flatten_loop_complete fuel seen deque ys r y :
  flatten_loop heap recursive fuel seen deque = Some ys →
  r ∈ deque → reaches heap recursive seen r y → is_module heap y = true →
  y ∈ ys.
Proof.
  revert seen deque ys r. induction fuel as [| fuel IH]; intros seen deque ys r; [done |].
  destruct deque as [| o deque]; [by intros _ ?%elem_of_nil |].
  destruct (decide (o ∈ seen)) as [Hseen | Hseen].
  - rewrite flatten_loop_seen by done. intros Hys Hr Hreach Hm.
    apply elem_of_cons in Hr as [-> | Hr]; [| by eapply IH].
    exfalso. by inversion Hreach; subst.
  - rewrite flatten_loop_unseen by done. intros Hys Hr Hreach Hm.
    assert (y ≠ o →
            ∀ ys', flatten_loop heap recursive fuel ({[o]} ∪ seen)
                     (pushed heap recursive o ++ deque) = Some ys' →
                   y ∈ ys') as Hrest.
    { intros Hne ys' Hys'.
      destruct (reaches_split seen o r y Hreach) as [Hav | [-> | (z & Hz & Hav)]];
        [| done |].
      - apply (IH _ _ _ r Hys'); [| done | done].
        apply elem_of_app. right.
        apply elem_of_cons in Hr as [-> | Hr]; [| done].
        exfalso. inversion Hav; subst; set_solver.
      - apply (IH _ _ _ z Hys'); [| done | done].
        apply elem_of_app. by left. }
    destruct (decide (y = o)) as [-> | Hne].
    + rewrite Hm in Hys.
      destruct (flatten_loop heap recursive fuel _ _) as [ys' |]; [| done].
      simpl in Hys. injection Hys as <-. by left.
    + destruct (is_module heap o).
      * destruct (flatten_loop heap recursive fuel _ _) as [ys' |] eqn:Hys'; [| done].
        simpl in Hys. injection Hys as <-. right. by apply Hrest.
      * by apply Hrest.
Qed.

Lemma flatten_loop_NoDup fuel seen deque ys :
  flatten_loop heap recursive fuel seen deque = Some ys → NoDup ys.
Proof.
  revert seen deque ys. induction fuel as [| fuel IH]; intros seen deque ys; [done |].
  destruct deque as [| o deque]; [intros [= <-]; constructor |].
  destruct (decide (o ∈ seen)) as [Hseen | Hseen].
  - rewrite flatten_loop_seen by done. apply IH.
  - rewrite flatten_loop_unseen by done.
    destruct (is_module heap o); [| apply IH].
    destruct (flatten_loop heap recursive fuel _ _) as [ys' |] eqn:Hys'; [| done].
    intros [= <-]. constructor; [| by eapply IH].
    intros Ho. destruct (flatten_loop_sound _ _ _ _ _ Hys' Ho) as (_ & r & _ & Hreach).
    apply reaches_end in Hreach. set_solver.
Qed.

End Flatten.

Lemma flatten_from_trackables (heap : Heap) (recursive : bool)
    (trackables : list nat) :
  ∃ modules,
    flatten_loop heap recursive (flatten_fuel heap recursive trackables)
      ∅ trackables = Some modules
    ∧ NoDup modules
    ∧ ∀ m, m ∈ modules ↔
        is_module heap m = true
        ∧ ∃ t, t ∈ trackables ∧ reaches heap recursive ∅ t m.
Proof.
  destruct (flatten_loop_terminates heap recursive
              (flatten_fuel heap recursive trackables) ∅ trackables)
    as [modules Hloop].
  { unfold flatten_fuel.
    replace (dom heap ∖ ∅) with (dom heap) by set_solver. lia. }
  exists modules. split; [done |].
  split; [by eapply flatten_loop_NoDup |].
  intros m. split.
  - intros Hm. by eapply flatten_loop_sound.
  - intros (Hm & r & Hr & Hreach). by eapply flatten_loop_complete.
Qed.

(** X19.  [_flatten_modules] always comes to an end, whatever the tracked
    objects refer to (shared objects, cycles, the layer itself).  After the
    layer itself (when [include_self]) it yields, each exactly once, the
    modules that are no metrics and that are reached from the layer's
    [_self_tracked_trackables] by going through the [_values] of data
    structures and, when [recursive], through the
    [_self_tracked_trackables] of such modules; nothing is reached through
    a metric or through any other object. *)
Theorem flatten_modules_reached (heap : Heap) (self : nat)
    (recursive include_self : bool) :
  ∃ modules,
    _flatten_modules heap self recursive include_self
    = Some ((if include_self then [self] else []) ++ modules)
    ∧ NoDup modules
    ∧ ∀ m, m ∈ modules ↔
        is_module heap m = true
        ∧ ∃ t, t ∈ default [] (tracked_trackables heap self)
               ∧ reaches heap recursive ∅ t m.
Proof.
  unfold _flatten_modules.
  destruct (tracked_trackables heap self) as [[| t trackables] |] eqn:Htracked.
  - exists []. split; [by rewrite app_nil_r |]. split; [constructor |].
    intros m. split; [by intros ?%elem_of_nil |].
    by intros (_ & ? & ?%elem_of_nil & _).
  - destruct (flatten_from_trackables heap recursive (t :: trackables))
      as (modules & Hloop & Hrest).
    exists modules. cbv beta iota zeta. by rewrite Hloop.
  - exists []. split; [by rewrite app_nil_r |]. split; [constructor |].
    intros m. split; [by intros ?%elem_of_nil |].
    by intros (_ & ? & ?%elem_of_nil & _).
Qed.

(** *** Setting [trainable] *)

(** [sublayer heap self o]: [_flatten_layers] of [self] yields [o]. *)
Definition sublayer (heap : Heap) (self o : nat) : Prop :=
  is_Layer heap o = true
  ∧ (o = self
     ∨ is_module heap o = true
       ∧ ∃ t, t ∈ default [] (tracked_trackables heap self)
              ∧ reaches heap true ∅ t o).

Lemma flatten_layers_sublayer (heap : Heap) (self : nat) :
  ∃ layers, _flatten_layers heap self true true = Some layers
            ∧ ∀ o, o ∈ layers ↔ sublayer heap self o.
Proof.
  unfold _flatten_layers, _flatten_modules, sublayer.
  destruct (tracked_trackables heap self) as [[| t trackables] |] eqn:Htracked.
  - eexists. split; [done |]. intros o.
    rewrite list_elem_of_filter, list_elem_of_singleton. simpl.
    split; [naive_solver |].
    intros (? & [-> | (_ & ? & ?%elem_of_nil & _)]); done.
  - destruct (flatten_from_trackables heap true (t :: trackables))
      as (modules & Hloop & _ & Hin).
    cbv beta iota zeta. rewrite Hloop. eexists. split; [done |]. intros o.
    change ([self] ++ modules) with (self :: modules).
    by rewrite list_elem_of_filter, elem_of_cons, Hin.
  - eexists. split; [done |]. intros o.
    rewrite list_elem_of_filter, list_elem_of_singleton. simpl.
    split; [naive_solver |].
    intros (? & [-> | (_ & ? & ?%elem_of_nil & _)]); done.
Qed.

(** What [_flatten_modules] looks at in an object. *)
Definition structure (obj : Object) :=
  (class_of obj, _self_tracked_trackables obj, _values obj).

Definition same_structure (heap heap' : Heap) : Prop :=
  ∀ o, structure <$> heap !! o = structure <$> heap' !! o.

Lemma same_structure_refl heap : same_structure heap heap.
Proof. done. Qed.

Lemma same_structure_trans heap1 heap2 heap3 :
  same_structure heap1 heap2 → same_structure heap2 heap3 →
  same_structure heap1 heap3.
Proof. intros H1 H2 o. by rewrite H1. Qed.

Lemma same_structure_sym heap heap' :
  same_structure heap heap' → same_structure heap' heap.
Proof. intros H o. by rewrite H. Qed.

Section SameStructure.
Variables heap heap' : Heap.
Hypothesis Hsame : same_structure heap heap'.

Lemma same_class_at o : class_at heap o = class_at heap' o.
Proof.
  unfold class_at. specialize (Hsame o).
  unfold structure in Hsame.
  destruct (heap !! o), (heap' !! o); simplify_eq/=; congruence.
Qed.

Lemma same_tracked_trackables o :
  tracked_trackables heap o = tracked_trackables heap' o.
Proof.
  unfold tracked_trackables. specialize (Hsame o).
  unfold structure in Hsame.
  destruct (heap !! o), (heap' !! o); simplify_eq/=; congruence.
Qed.

Lemma same_tracked_values o : tracked_values heap o = tracked_values heap' o.
Proof.
  unfold tracked_values. specialize (Hsame o).
  unfold structure in Hsame.
  destruct (heap !! o), (heap' !! o); simplify_eq/=; congruence.
Qed.

Lemma same_pushed recursive o : pushed heap recursive o = pushed heap' recursive o.
Proof.
  unfold pushed, is_module, is_data_structure.
  by rewrite same_class_at, same_tracked_trackables, same_tracked_values.
Qed.

Lemma same_reaches recursive seen a o :
  reaches heap recursive seen a o → reaches heap' recursive seen a o.
Proof.
  induction 1 as [o Ho | a b o Ha Hb _ IH]; [by apply reaches_here |].
  eapply reaches_step; [done | by rewrite <- same_pushed | done].
Qed.

Lemma same_sublayer self o : sublayer heap self o → sublayer heap' self o.
Proof.
  unfold sublayer, is_Layer, is_module.
  rewrite same_class_at, same_tracked_trackables.
  intros (Hl & [-> | (Hm & t & Ht & Hreach)]); (split; [done |]); [by left |].
  right. split; [done |]. exists t. split; [done |]. by apply same_reaches.
Qed.

End SameStructure.

Lemma reaches_trans heap recursive seen a b c :
  reaches heap recursive seen a b → reaches heap recursive seen b c →
  reaches heap recursive seen a c.
Proof.
  induction 1 as [| a b' b Ha Hb _ IH]; [done |].
  intros Hbc. eapply reaches_step; [done | done | by apply IH].
Qed.

Lemma is_Layer_lookup heap o : is_Layer heap o = true → is_Some (heap !! o).
Proof. unfold is_Layer, class_at. by destruct (heap !! o). Qed.

(** The sub-layers of a sub-layer are sub-layers. *)
Lemma sublayer_trans heap self y x :
  sublayer heap self y → sublayer heap y x → sublayer heap self x.
Proof.
  intros (Hly & Hy) (Hlx & Hx). split; [done |].
  destruct Hy as [-> | (Hmy & t & Ht & Hty)]; [done |].
  destruct Hx as [-> | (Hmx & t' & Ht' & Htx)]; [right; eauto |].
  right. split; [done |]. exists t. split; [done |].
  eapply reaches_trans; [done |].
  eapply reaches_step; [set_solver | | done].
  unfold pushed. rewrite Hmy. by destruct (tracked_trackables heap y).
Qed.

Lemma sublayer_self heap self : is_Layer heap self = true → sublayer heap self self.
Proof. intros Hl. split; [done | by left]. Qed.

Lemma set__trainable_twice value obj :
  set__trainable value (set__trainable value obj) = set__trainable value obj.
Proof. done. Qed.

Lemma foldl_set__trainable (value : bool) (layers : list nat) (heap : Heap) o :
  foldl (λ heap layer, alter (set__trainable value) layer heap) heap layers !! o
  = if decide (o ∈ layers) then set__trainable value <$> heap !! o else heap !! o.
Proof.
  revert heap. induction layers as [| l layers IH]; intros heap; [done |].
  cbn [foldl]. rewrite IH.
  destruct (decide (o = l)) as [-> | Hne].
  - rewrite lookup_alter_eq, (decide_True (P := l ∈ l :: layers)) by by left.
    destruct (heap !! l); by destruct (decide _).
  - rewrite lookup_alter_ne by done.
    destruct (decide (o ∈ layers)) as [Hin | Hin].
    + by rewrite decide_True by by right.
    + rewrite decide_False; [done |]. by intros [? | ?]%elem_of_cons.
Qed.

Lemma trainable_setter_lookup (heap : Heap) (self : nat) (value : bool) :
  ∃ heap',
    trainable_setter heap self value = Some heap'
    ∧ same_structure heap heap'
    ∧ ∀ o, (sublayer heap self o → heap' !! o = set__trainable value <$> heap !! o)
           ∧ (¬ sublayer heap self o → heap' !! o = heap !! o).
Proof.
  destruct (flatten_layers_sublayer heap self) as (layers & Hlayers & Hin).
  unfold trainable_setter. rewrite Hlayers. eexists. split; [done |].
  split.
  - intros o. rewrite foldl_set__trainable.
    destruct (decide _); [| done]. by destruct (heap !! o).
  - intros o. rewrite foldl_set__trainable. split; intros Ho.
    + by rewrite decide_True by by apply Hin.
    + by rewrite decide_False by by rewrite Hin.
Qed.

Lemma sublayer_dec (heap : Heap) (self o : nat) :
  sublayer heap self o ∨ ¬ sublayer heap self o.
Proof.
  destruct (flatten_layers_sublayer heap self) as (layers & _ & Hin).
  destruct (decide (o ∈ layers)) as [Ho | Ho]; [left | right]; by rewrite <- Hin.
Qed.

(** X20.  Assigning [trainable] never fails.  It sets [_trainable] of the
    layer itself and of every layer that [_flatten_layers] yields for it:
    the layers reached through tracked modules and data structures, also
    those that other layers track as well.  Nothing else changes: no other
    object, no tracked metric, and no attribute other than [_trainable].  A
    later assignment to the same layer leaves nothing of an earlier one. *)
Theorem trainable_setter_sublayers (heap : Heap) (self : nat) (value : bool) :
  ∃ heap',
    trainable_setter heap self value = Some heap'
    ∧ (∀ o, sublayer heap self o →
            heap' !! o = set__trainable value <$> heap !! o
            ∧ trainable heap' o = Some value)
    ∧ (∀ o, ¬ sublayer heap self o → heap' !! o = heap !! o)
    ∧ (∀ self' o, sublayer heap' self' o ↔ sublayer heap self' o)
    ∧ ∀ value', trainable_setter heap' self value'
                = trainable_setter heap self value'.
Proof.
  destruct (trainable_setter_lookup heap self value) as (heap' & Hset & Hsame & Hlook).
  exists heap'. split; [done |].
  assert (∀ self' o, sublayer heap' self' o ↔ sublayer heap self' o) as Hsub.
  { intros self' o. split; apply same_sublayer; [by apply same_structure_sym | done]. }
  split; [| split; [| split; [done |]]].
  - intros o Ho. unfold trainable. rewrite (proj1 (Hlook o) Ho). split; [done |].
    destruct Ho as [Hl%is_Layer_lookup _].
    by destruct Hl as [obj ->].
  - intros o Ho. by apply Hlook.
  - intros value'.
    destruct (trainable_setter_lookup heap self value') as (heap1 & -> & _ & Hlook1).
    destruct (trainable_setter_lookup heap' self value') as (heap2 & -> & _ & Hlook2).
    f_equal. apply map_eq. intros o.
    destruct (sublayer_dec heap self o) as [Ho | Ho].
    + rewrite (proj1 (Hlook1 o) Ho), (proj1 (Hlook2 o) (proj2 (Hsub self o) Ho)).
      rewrite (proj1 (Hlook o) Ho). by destruct (heap !! o).
    + rewrite (proj2 (Hlook1 o) Ho), (proj2 (Hlook2 o)) by by rewrite Hsub.
      by apply Hlook.
Qed.

(** *** Saving and restoring the [trainable] state *)

Lemma get_trainable_state_fold (heap : Heap) (layers : list nat)
    (trainable_state : gmap nat bool) (y : nat) :
  foldl (λ trainable_state layer,
           match trainable heap layer with
           | Some value => <[layer := value]> trainable_state
           | None => trainable_state
           end) trainable_state layers !! y
  = if decide (y ∈ layers)
    then match trainable heap y with
         | Some value => Some value
         | None => trainable_state !! y
         end
    else trainable_state !! y.
Proof.
  revert trainable_state.
  induction layers as [| l layers IH]; intros trainable_state; [done |].
  cbn [foldl]. rewrite IH.
  destruct (decide (y = l)) as [-> | Hne].
  - rewrite (decide_True (P := l ∈ l :: layers)) by by left.
    destruct (trainable heap l) as [v |] eqn:Hv.
    + rewrite lookup_insert_eq. by destruct (decide _).
    + by destruct (decide _).
  - assert (match trainable heap l with
            | Some value => <[l := value]> trainable_state
            | None => trainable_state
            end !! y = trainable_state !! y) as ->.
    { destruct (trainable heap l); [by rewrite lookup_insert_ne | done]. }
    destruct (decide (y ∈ layers)) as [Hin | Hin].
    + by rewrite decide_True by by right.
    + rewrite decide_False; [done |]. by intros [? | ?]%elem_of_cons.
Qed.

Lemma get_trainable_state_lookup (heap : Heap) (self : nat) :
  ∃ trainable_state,
    _get_trainable_state heap self = Some trainable_state
    ∧ (∀ y, sublayer heap self y → trainable_state !! y = trainable heap y)
    ∧ (∀ y, ¬ sublayer heap self y → trainable_state !! y = None).
Proof.
  destruct (flatten_layers_sublayer heap self) as (layers & Hlayers & Hin).
  unfold _get_trainable_state. rewrite Hlayers. eexists. split; [done |].
  split; intros y Hy; rewrite get_trainable_state_fold.
  - rewrite decide_True by by apply Hin. by destruct (trainable heap y).
  - by rewrite decide_False by by rewrite Hin.
Qed.

Section SetTrainableState.
Variable trainable_state : gmap nat bool.

Definition assign_state (heap : option Heap) (layer : nat) : option Heap :=
  heap ← heap;
  match trainable_state !! layer with
  | Some value => trainable_setter heap layer value
  | None => Some heap
  end.

(** The layers that are assigned nothing keep their state. *)
Lemma assign_state_others (layers : list nat) (heap : Heap) :
  ∃ heap',
    foldl assign_state (Some heap) layers = Some heap'
    ∧ same_structure heap heap'
    ∧ ∀ x, (∀ y, y ∈ layers → ¬ sublayer heap y x) → heap' !! x = heap !! x.
Proof.
  revert heap. induction layers as [| y layers IH]; intros heap.
  - exists heap. by split; [| split].
  - cbn [foldl]. unfold assign_state at 2. cbn [mbind option_bind].
    destruct (trainable_state !! y) as [value |].
    + destruct (trainable_setter_lookup heap y value) as (heap1 & -> & Hsame1 & Hlook1).
      destruct (IH heap1) as (heap' & Hfold & Hsame' & Hlook').
      exists heap'. split; [done |].
      split; [by eapply same_structure_trans |].
      intros x Hx. rewrite Hlook'.
      * apply Hlook1. apply Hx. by left.
      * intros y' Hy' Hsub. apply (Hx y'); [by right |].
        by apply (same_sublayer heap1 heap); [apply same_structure_sym |].
    + destruct (IH heap) as (heap' & Hfold & Hsame' & Hlook').
      exists heap'. split; [done |]. split; [done |].
      intros x Hx. apply Hlook'. intros y' Hy'. apply Hx. by right.
Qed.

(** A layer has the state of the last layer that was assigned one and that
    has it among its sub-layers. *)
Lemma assign_state_last (before after : list nat) (z : nat) (value : bool)
    (heap : Heap) (x : nat) :
  trainable_state !! z = Some value →
  sublayer heap z x →
  (∀ y, y ∈ after → ¬ sublayer heap y x) →
  ∃ heap',
    foldl assign_state (Some heap) (before ++ z :: after) = Some heap'
    ∧ trainable heap' x = Some value.
Proof.
  intros Hz Hzx Hafter. rewrite foldl_app. cbn [foldl].
  destruct (assign_state_others before heap) as (heap1 & -> & Hsame1 & _).
  unfold assign_state at 2. cbn [mbind option_bind]. rewrite Hz.
  destruct (trainable_setter_lookup heap1 z value) as (heap2 & -> & Hsame2 & Hlook2).
  destruct (assign_state_others after heap2) as (heap' & Hfold & _ & Hlook').
  exists heap'. split; [done |].
  unfold trainable. rewrite Hlook'.
  - rewrite (proj1 (Hlook2 x)) by by apply (same_sublayer heap).
    destruct Hzx as [Hl%is_Layer_lookup _].
    destruct Hl as [obj Hobj]. specialize (Hsame1 x). rewrite Hobj in Hsame1.
    by destruct (heap1 !! x).
  - intros y Hy Hsub. apply (Hafter y Hy).
    apply (same_sublayer heap2 heap); [| done].
    apply same_structure_sym. by eapply same_structure_trans.
Qed.

End SetTrainableState.

(** X21.  [_set_trainable_state] applied to what [_get_trainable_state]
    returned, whatever was assigned to [_trainable] in between (the tracked
    objects being the same).  It never fails and changes only the
    sub-layers.  A sub-layer [x] ends with the saved state of the layer [z]
    that is yielded last among the layers having [x] as a sub-layer.  Its
    own state is restored when that layer is [x] itself; a layer that a
    layer yielded later tracks as well ends with the saved state of that
    layer instead. *)
Theorem set_trainable_state_last_holder (saved heap : Heap) (self : nat) :
  same_structure saved heap →
  ∃ trainable_state layers heap',
    _get_trainable_state saved self = Some trainable_state
    ∧ _flatten_layers heap self true true = Some layers
    ∧ _set_trainable_state heap self trainable_state = Some heap'
    ∧ (∀ o, ¬ sublayer heap self o → heap' !! o = heap !! o)
    ∧ ∀ before z after x,
        layers = before ++ z :: after →
        sublayer heap z x →
        (∀ y, y ∈ after → ¬ sublayer heap y x) →
        trainable heap' x = trainable saved z.
Proof.
  intros Hsame.
  destruct (get_trainable_state_lookup saved self) as (trainable_state & Hget & Hin & Hout).
  destruct (flatten_layers_sublayer heap self) as (layers & Hlayers & Hsub).
  exists trainable_state, layers.
  destruct (assign_state_others trainable_state layers heap)
    as (heap' & Hfold & _ & Hothers).
  exists heap'. split; [done |]. split; [done |].
  assert (_set_trainable_state heap self trainable_state
          = foldl (assign_state trainable_state) (Some heap) layers) as Hset.
  { unfold _set_trainable_state. by rewrite Hlayers. }
  split; [by rewrite Hset |]. split.
  - intros o Ho. apply Hothers. intros y Hy Hyo. apply Ho.
    eapply sublayer_trans; [by apply Hsub | done].
  - intros before z after x -> Hzx Hafter.
    assert (sublayer saved self z) as Hz.
    { apply (same_sublayer heap saved); [by apply same_structure_sym |].
      apply Hsub, elem_of_app. right. by left. }
    assert (is_Some (trainable saved z)) as [value Hvalue].
    { unfold trainable. destruct Hz as [Hl%is_Layer_lookup _].
      by destruct Hl as [obj ->]. }
    destruct (assign_state_last trainable_state before after z value heap x)
      as (heap'' & Hfold' & Hx); [| done | done |].
    { by rewrite Hin. }
    rewrite Hfold in Hfold'. injection Hfold' as <-. by rewrite Hvalue.
Qed.

(** A model (1) whose two branches (2 and 3) both track a frozen layer (4). *)
Definition shared_layer_heap : Heap :=
  {[ 1 := mkObject IsLayer (Some [2; 3]) [] true;
     2 := mkObject IsLayer (Some [4]) [] true;
     3 := mkObject IsLayer (Some [4]) [] true;
     4 := mkObject IsLayer (Some []) [] false ]}.

Lemma set_trainable_state_last_holder_witness :
  ∃ trainable_state heap',
    _get_trainable_state shared_layer_heap 1 = Some trainable_state
    ∧ _set_trainable_state shared_layer_heap 1 trainable_state = Some heap'
    ∧ trainable shared_layer_heap 4 = Some false
    ∧ trainable heap' 4 = Some true.
Proof.
  destruct (set_trainable_state_last_holder shared_layer_heap shared_layer_heap 1)
    as (st & layers & heap' & Hget & Hlayers & Hset & _ & Hlast); [done |].
  exists st, heap'. split; [done |]. split; [done |]. split; [by vm_compute |].
  assert (layers = [1; 2; 4; 3]) as ->.
  { vm_compute in Hlayers. by injection Hlayers as <-. }
  rewrite (Hlast [1; 2; 4] 3 [] 4); [by vm_compute | done | |].
  - split; [by vm_compute |]. right. split; [by vm_compute |].
    exists 4. split; [vm_compute; by left |]. apply reaches_here. set_solver.
  - by intros y ?%elem_of_nil.
Defined.

End ObjectGraph.

(** ** Weights given at construction *)

Definition is_set_weights_event (ev : Event) : bool :=
  match ev with
  | EvSetWeights _ => true
  | _ => false
  end.

(** Run from [l], the action ends in a state that satisfies [I] and records
    only events that satisfy [P]. *)
Definition ends_with {A} (I : Layer → Prop) (P : Event → Prop) (l : Layer)
    (m : Action A) : Prop :=
  I (m l).1.2 ∧ Forall P (m l).2.

Lemma ends_with_bind {A B} I P (l : Layer) (m : Action A) (k : A → Action B) :
  ends_with I P l m →
  (∀ a l1 events1, m l = (Return a, l1, events1) → I l1 → ends_with I P l1 (k a)) →
  ends_with I P l (m ≫= k).
Proof.
  intros [HI HP] Hk. unfold ends_with. rewrite bind_run.
  destruct (m l) as [[[a | e] l1] events1] eqn:Hm; simpl in *; [| done].
  destruct (Hk a l1 events1 eq_refl HI) as [HI2 HP2].
  destruct (k a l1) as [[r l2] events2]; simpl in *.
  split; [done | by apply Forall_app].
Qed.

Lemma ends_with_ret {A} I P (l : Layer) (a : A) : I l → ends_with I P l (mret a).
Proof. intros HI. split; [done | constructor]. Qed.

Lemma ends_with_lift {A} I P (l : Layer) (r : Result A) : I l → ends_with I P l (lift r).
Proof. intros HI. split; [done | constructor]. Qed.

Lemma ends_with_emit I P (l : Layer) (ev : Event) :
  I l → P ev → ends_with I P l (emit ev).
Proof. intros HI HP. split; [done | by repeat constructor]. Qed.

Lemma ends_with_modify I P (l : Layer) (f : Layer → Layer) :
  I (f l) → ends_with I P l (modify_layer f).
Proof. intros HI. split; [done | constructor]. Qed.

(** An action that starts by reading the layer. *)
Lemma ends_with_get {B} I P (l : Layer) (k : Layer → Action B) :
  ends_with I P l (k l) → ends_with I P l (get_layer ≫= k).
Proof.
  intros Hk. unfold ends_with in *. rewrite bind_run. cbn [get_layer].
  by destruct (k l) as [[? ?] ?].
Qed.

Lemma bind_raise {A B} (m : Action A) (k : A → Action B) l e l1 events1 :
  m l = (Raise e, l1, events1) → (m ≫= k) l = (Raise e, l1, events1).
Proof. intros H. by rewrite bind_run, H. Qed.

Section InitialWeights.

Variable global_learning_phase : option Leaf.
Variable assert_input_compatibility : Layer → Nest → Result unit.
Variable infer_input_shapes : Nest → option (list TensorShape).
Variable keras_mask : Leaf → Leaf.
Variable cls : LayerClass.

Abbreviation maybe_build :=
  (_maybe_build assert_input_compatibility infer_input_shapes cls).
Abbreviation immediate :=
  (__call___immediate global_learning_phase assert_input_compatibility
     infer_input_shapes keras_mask cls).

Lemma ends_with_handle_activity_regularization I P l outputs :
  I l → ends_with I P l (_handle_activity_regularization cls outputs).
Proof.
  intros HI. unfold _handle_activity_regularization. apply ends_with_get.
  destruct (_has_activity_regularizer l); [| by apply ends_with_ret].
  induction (flatten outputs) as [| x xs IH]; simpl; [by apply ends_with_ret |].
  apply ends_with_bind; [by apply ends_with_lift |].
  by intros [] l1 events1 [= _ <- _] _.
Qed.

Lemma ends_with_set_mask_metadata I P l inputs outputs previous_mask :
  I l → ends_with I P l (_set_mask_metadata keras_mask cls inputs outputs previous_mask).
Proof.
  intros HI. unfold _set_mask_metadata. apply ends_with_get.
  destruct (negb _); [by apply ends_with_ret |].
  destruct (forallb _ _); [by apply ends_with_ret |].
  apply ends_with_bind; [by apply ends_with_lift |].
  intros a l1 events1 [= _ <- _] _. by apply ends_with_ret.
Qed.

(** A built layer whose initial weights are [w]. *)
Definition built_with (w : option (list Value)) (l : Layer) : Prop :=
  built l = true ∧ _initial_weights l = w.

Definition no_set_weights (ev : Event) : Prop :=
  is_set_weights_event ev = false ∧ is_build_event ev = false.

(** What follows the build step neither builds nor touches the initial
    weights, and it records the execution of [call] first. *)
Lemma after_build_initial_weights w l inputs input_list input_masks args kwargs ctx :
  built_with w l →
  ends_with (built_with w) no_set_weights l
    (after_build keras_mask cls inputs input_list input_masks args kwargs ctx)
  ∧ (after_build keras_mask cls inputs input_list input_masks args kwargs ctx l).2 ≠ [].
Proof.
  intros HI. split.
  - unfold after_build. apply ends_with_get.
    apply ends_with_bind; [by apply ends_with_emit |].
    intros [] l0 events0 [= <- _] _.
    apply ends_with_bind; [by apply ends_with_lift |].
    intros outputs l0' events0' [= _ <- _] _.
    apply ends_with_bind.
    { destruct (_has_activity_regularizer l);
        [by apply ends_with_handle_activity_regularization | by apply ends_with_ret]. }
    intros [] l1 events1 _ HI1.
    apply ends_with_bind.
    { destruct (_supports_masking l);
        [by apply ends_with_set_mask_metadata | by apply ends_with_ret]. }
    intros [] l2 events2 _ HI2.
    apply ends_with_get.
    apply ends_with_bind; [| intros; by apply ends_with_ret].
    destruct (_saved_model_inputs_spec l2) eqn:Hspec; [by apply ends_with_ret |].
    unfold _set_save_spec. apply ends_with_get. rewrite Hspec.
    apply ends_with_modify. destruct HI2 as [? ?]. by destruct l2.
  - unfold after_build. rewrite bind_run. cbn [get_layer].
    rewrite bind_run. cbn [emit].
    match goal with
    | |- context [(?m ≫= ?k) l] => by destruct ((m ≫= k) l) as [[? ?] ?]
    end.
Qed.

(** The run of [_maybe_build]: the build step, then the initial weights. *)
Lemma maybe_build_run l inputs :
  ∃ (r1 : Result unit) l1 events1,
    Forall (λ ev, is_build_event ev = true) events1
    ∧ (is_raise r1 = false → built l1 = true)
    ∧ (built l = true → is_raise r1 = false ∧ l1 = l ∧ events1 = [])
    ∧ maybe_build inputs l
      = match r1 with
        | Raise e => (Raise e, l1, events1)
        | Return _ =>
            match _initial_weights l1 with
            | Some w =>
                ((set_weights l1 w).2,
                 (if is_raise (set_weights l1 w).2 then l1
                  else set_initial_weights None l1),
                 events1 ++ [EvSetWeights (set_weights l1 w).1])
            | None => (Return (), l1, events1)
            end
        end.
Proof.
  assert (Hlast : ∀ l3,
    (l ← get_layer;
     match _initial_weights l with
     | Some initial_weights =>
         let '(effects, r) := set_weights l initial_weights in
         _ ← emit (EvSetWeights effects);
         _ ← lift r;
         modify_layer (set_initial_weights None)
     | None => mret ()
     end) l3
    = match _initial_weights l3 with
      | Some w =>
          ((set_weights l3 w).2,
           (if is_raise (set_weights l3 w).2 then l3 else set_initial_weights None l3),
           [EvSetWeights (set_weights l3 w).1])
      | None => (Return (), l3, [])
      end).
  { intros l3. run_action. destruct (_initial_weights l3) as [w |]; [| done].
    by destruct (set_weights l3 w) as [effects [[] | e]]. }
  destruct (built l) eqn:Hb.
  { exists (Return ()), l, []. split; [constructor |]. split; [done |].
    split; [done |]. unfold _maybe_build.
    rewrite (bind_return _ _ l l l []) by done. cbn [fst snd app]. rewrite Hb.
    rewrite (bind_return _ _ l () l []) by done. cbn [fst snd app].
    rewrite Hlast. by destruct (_initial_weights l). }
  set (input_shapes := infer_input_shapes inputs).
  destruct (assert_input_compatibility l inputs) as [[] | e] eqn:Hassert.
  2: { exists (Raise e), l, []. split; [constructor |]. split; [done |].
       split; [done |]. unfold _maybe_build.
       rewrite bind_run. cbn [get_layer]. rewrite Hb.
       erewrite (bind_raise _ _ l e l []); [done |].
       apply bind_raise. unfold lift. by rewrite Hassert. }
  assert (Hpolicy : ∃ l1,
    (match flatten inputs, compute_dtype (_dtype_policy l) with
     | x :: _, None =>
         match leaf_dtype x with
         | Some dtype => modify_layer (set_dtype_policy (Policy_of dtype))
         | None => mret ()
         end
     | _, _ => mret ()
     end) l = (Return (), l1, [])).
  { destruct (flatten inputs) as [| x xs]; [by exists l |].
    destruct (compute_dtype (_dtype_policy l)); [by exists l |].
    destruct (leaf_dtype x); [| by exists l]. by eexists. }
  destruct Hpolicy as (l1 & Hpolicy).
  assert (Hstep : ∃ (r2 : Result unit) l2 events2,
    (if build_is_default cls then mret ()
     else
       _ ← emit (EvBuild input_shapes);
       l ← get_layer;
       l' ← lift (build cls input_shapes l);
       modify_layer (λ _, l')) l1
    = (r2, l2, events2)
    ∧ Forall (λ ev, is_build_event ev = true) events2).
  { destruct (build_is_default cls); [by eexists _, _, _ |].
    run_action. destruct (build cls input_shapes l1) as [l2 |]; run_action;
      eexists _, _, _; (split; [reflexivity | by repeat constructor]). }
  destruct Hstep as ([[] | e] & l2 & events2 & Hstep & Hev2).
  - exists (Return ()), (set_built true input_shapes l2),
      (events2 ++ [EvLayerBuild input_shapes]).
    split; [apply Forall_app; split; [done | by repeat constructor] |].
    split; [by destruct l2 |]. split; [done |].
    unfold _maybe_build. rewrite bind_run. cbn [get_layer]. rewrite Hb. cbv iota.
    assert ((_ ← lift (assert_input_compatibility l inputs);
             let input_list := flatten inputs in
             _ ← match input_list, compute_dtype (_dtype_policy l) with
                 | x :: _, None =>
                     match leaf_dtype x with
                     | Some dtype => modify_layer (set_dtype_policy (Policy_of dtype))
                     | None => mret ()
                     end
                 | _, _ => mret ()
                 end;
             let input_shapes := infer_input_shapes inputs in
             _ ← (if build_is_default cls then mret ()
                  else
                    _ ← emit (EvBuild input_shapes);
                    l ← get_layer;
                    l' ← lift (build cls input_shapes l);
                    modify_layer (λ _, l'));
             Layer_build input_shapes) l
            = (Return (), set_built true input_shapes l2,
               events2 ++ [EvLayerBuild input_shapes])) as Hblock.
    { erewrite bind_return; [| unfold lift; by rewrite Hassert].
      cbn [fst snd app]. erewrite bind_return; [| exact Hpolicy].
      cbn [fst snd app]. erewrite bind_return; [| exact Hstep].
      unfold Layer_build. by run_action. }
    cbv zeta in Hblock. subst input_shapes.
    rewrite bind_run, Hblock. cbv beta. rewrite Hlast.
    destruct (_initial_weights (set_built true _ l2)); [done |].
    cbn [app]. by rewrite app_nil_r.
  - exists (Raise e), l2, events2. split; [done |]. split; [done |]. split; [done |].
    unfold _maybe_build. rewrite bind_run. cbn [get_layer]. rewrite Hb. cbv iota.
    subst input_shapes.
    erewrite (bind_raise _ _ l e l2 events2); [done |].
    rewrite bind_run. unfold lift at 1. rewrite Hassert.
    rewrite bind_run, Hpolicy. by erewrite bind_raise.
Qed.

Lemma run_after_get {A} (run : Result A * Layer * list Event) :
  (let '(r, l1, events1) := run in (r, l1, [] ++ events1)) = run.
Proof. by destruct run as [[? ?] ?]. Qed.

Lemma immediate_run l inputs args kwargs input_list ctx :
  ∃ input_masks args' kwargs' ctx',
    let inputs' := convert_inputs inputs input_list in
    immediate inputs args kwargs input_list ctx l
    = (_ ← lift (assert_input_compatibility l inputs');
       _ ← (if built l then mret () else maybe_build inputs');
       after_build keras_mask cls inputs' (flatten inputs') input_masks
         args' kwargs' ctx') l.
Proof.
  unfold __call___immediate. cbv zeta. rewrite bind_run. cbn [get_layer].
  destruct (_get_input_masks _ _ _ _ _ _) as [input_masks mask_is_implicit].
  destruct (_get_propagated_call_context_arguments _ _ _ _ _ _)
    as [[args' kwargs'] propagated].
  exists input_masks, args', kwargs', (enter propagated ctx).
  apply run_after_get.
Qed.

Lemma last_event_in_suffix (first rest before : list Event) (ev : Event) :
  first ++ rest = before ++ [ev] → rest ≠ [] → ev ∈ rest.
Proof.
  destruct rest as [| x rest _] using rev_ind; [done |].
  rewrite app_assoc. intros [_ ->]%app_inj_tail _. set_solver.
Qed.

(** X22.  The weights given at construction are passed to [set_weights] by
    the call that builds the layer, and by no later call that is executed
    at once: such a call of a built layer records no [set_weights] and
    leaves [_initial_weights] as it is.  So when [set_weights] raises in the
    call that builds the layer (the last thing recorded is then the call of
    [set_weights]), the layer is left built with its initial weights still
    pending, and the following calls run without them.  [_maybe_build]
    itself, which a symbolic call runs also for a built layer, does pass
    pending weights to [set_weights]. *)
Theorem initial_weights_one_attempt l inputs args kwargs input_list ctx :
  let run := immediate inputs args kwargs input_list ctx l in
  (built l = true →
   Forall (λ ev, is_set_weights_event ev = false) run.2
   ∧ built run.1.2 = true
   ∧ _initial_weights run.1.2 = _initial_weights l)
  ∧ (∀ before effects,
       run.2 = before ++ [EvSetWeights effects] →
       built l = false
       ∧ built run.1.2 = true
       ∧ ∃ w e, _initial_weights run.1.2 = Some w
                ∧ set_weights run.1.2 w = (effects, Raise e)
                ∧ run.1.1 = Raise e)
  ∧ (∀ w inputs',
       built l = true → _initial_weights l = Some w →
       (maybe_build inputs' l).2 = [EvSetWeights (set_weights l w).1]).
Proof.
  intros run.
  assert (built l = true →
          ends_with (built_with (_initial_weights l)) no_set_weights l
            (immediate inputs args kwargs input_list ctx)) as Hbuilt.
  { intros Hb. unfold __call___immediate. cbv zeta. apply ends_with_get.
    destruct (_get_input_masks _ _ _ _ _ _) as [input_masks mask_is_implicit].
    destruct (_get_propagated_call_context_arguments _ _ _ _ _ _)
      as [[args' kwargs'] propagated].
    apply ends_with_bind; [by apply ends_with_lift |].
    intros [] l0 events0 [= _ <- _] _. rewrite Hb.
    apply ends_with_bind; [by apply ends_with_ret |].
    intros [] l1 events1 [= <- _] _.
    by apply after_build_initial_weights. }
  split; [| split].
  - intros Hb. destruct (Hbuilt Hb) as [[Hb' Hw'] Hev]. fold run in Hb', Hw', Hev.
    split; [| done]. eapply Forall_impl; [exact Hev |]. by intros ev [? _].
  - intros before effects Hrun.
    destruct (built l) eqn:Hb.
    { destruct (Hbuilt eq_refl) as [_ Hev]. fold run in Hev.
      rewrite Hrun in Hev. apply Forall_app in Hev as [_ Hev].
      rewrite Forall_singleton in Hev. by destruct Hev. }
    split; [done |]. revert Hrun.
    cut (∀ x, x = run → x.2 = before ++ [EvSetWeights effects] →
              built x.1.2 = true
              ∧ ∃ w e, _initial_weights x.1.2 = Some w
                       ∧ set_weights x.1.2 w = (effects, Raise e)
                       ∧ x.1.1 = Raise e).
    { intros Hcut. by apply Hcut. }
    intros x Hx. subst run.
    destruct (immediate_run l inputs args kwargs input_list ctx)
      as (input_masks & args' & kwargs' & ctx' & Himm).
    cbv zeta in Himm. rewrite Himm in Hx. clear Himm.
    set (inputs' := convert_inputs inputs input_list) in *.
    rewrite Hb, bind_run in Hx. unfold lift at 1 in Hx.
    destruct (assert_input_compatibility l inputs') as [[] | e0];
      [| subst x; by destruct before].
    rewrite bind_run in Hx.
    destruct (maybe_build_run l inputs')
      as (r1 & l1 & events1 & Hev1 & Hb1 & _ & Hbuild).
    rewrite Hbuild in Hx. clear Hbuild.
    assert (∀ w' l', built_with w' l' → ∀ first,
              first
              ++ (after_build keras_mask cls inputs' (flatten inputs')
                    input_masks args' kwargs' ctx' l').2
              = before ++ [EvSetWeights effects] → False) as Hafter.
    { intros w' l' HI first Hlast.
      destruct (after_build_initial_weights w' l' inputs' (flatten inputs')
                  input_masks args' kwargs' ctx' HI) as [[_ Hev] Hne].
      pose proof (last_event_in_suffix _ _ _ _ Hlast Hne) as Hin.
      rewrite Forall_forall in Hev. by destruct (Hev _ Hin). }
    destruct r1 as [[] | e1].
    + specialize (Hb1 eq_refl).
      destruct (_initial_weights l1) as [w |] eqn:Hw.
      * destruct (set_weights l1 w) as [effects' [[] | e]] eqn:Hsw;
          cbn [fst snd is_raise] in Hx.
        -- intros Hrun. exfalso.
           apply (Hafter None (set_initial_weights None l1)
                    ltac:(by destruct l1) (events1 ++ [EvSetWeights effects'])).
           rewrite <- Hrun, Hx.
           by destruct (after_build _ _ _ _ _ _ _ _ _) as [[? ?] ?].
        -- subst x. cbn [fst snd app]. intros [_ [= <-]]%app_inj_tail.
           split; [done |]. exists w, e. by rewrite Hsw.
      * intros Hrun. exfalso.
        apply (Hafter None l1 ltac:(done) events1).
        rewrite <- Hrun, Hx.
        by destruct (after_build _ _ _ _ _ _ _ _ _) as [[? ?] ?].
    + subst x. cbn [fst snd app]. intros ->. apply Forall_app in Hev1 as [_ Hev1].
      rewrite Forall_singleton in Hev1. discriminate.
  - intros w inputs' Hb Hw.
    destruct (maybe_build_run l inputs') as (r1 & l1 & events1 & _ & _ & Hsame & ->).
    destruct (Hsame Hb) as (Hr1 & -> & ->).
    destruct r1 as [[] | e]; [| done]. by rewrite Hw.
Qed.

End InitialWeights.

(** The layer of the kernel, constructed with [weights=[]]: the call that
    builds it raises in [set_weights], and no later call sets weights. *)
Lemma initial_weights_one_attempt_witness :
  let invoke :=
    __call___immediate None accept_inputs unknown_shapes no_keras_mask dense_class in
  let first :=
    invoke dense_inputs [] ∅ (flatten dense_inputs) []
      (set_initial_weights (Some []) dense_layer) in
  is_raise first.1.1 = true
  ∧ first.2 = [EvBuild None; EvLayerBuild None; EvSetWeights []]
  ∧ built first.1.2 = true
  ∧ _initial_weights first.1.2 = Some []
  ∧ ∀ inputs args kwargs input_list ctx,
      Forall (λ ev, is_set_weights_event ev = false)
        (invoke inputs args kwargs input_list ctx first.1.2).2.
Proof.
  intros invoke first.
  assert (first.2 = [EvBuild None; EvLayerBuild None] ++ [EvSetWeights []]) as Hrun.
  { by vm_compute. }
  destruct (initial_weights_one_attempt None accept_inputs unknown_shapes
              no_keras_mask dense_class (set_initial_weights (Some []) dense_layer)
              dense_inputs [] ∅ (flatten dense_inputs) [])
    as (_ & Hfirst & _).
  destruct (Hfirst _ _ Hrun) as (_ & Hbuilt & w & e & Hw & _ & Hraise).
  fold invoke in Hbuilt, Hw, Hraise. fold first in Hbuilt, Hw, Hraise.
  split; [by rewrite Hraise |]. split; [exact Hrun |]. split; [exact Hbuilt |].
  split; [by vm_compute |].
  intros inputs args kwargs input_list ctx.
  destruct (initial_weights_one_attempt None accept_inputs unknown_shapes
              no_keras_mask dense_class first.1.2 inputs args kwargs input_list ctx)
    as (Hlater & _).
  by destruct (Hlater Hbuilt) as (Hev & _).
Defined.

(** ** The configuration generated from the constructor arguments *)

Module AutoConfig.

(** The values that can be passed to a constructor: the types that
    [Layer.__new__] supports, lists and dicts (with string keys) of values,
    and any other object. *)
#[warnings="-register-all"]
Inductive Value :=
| VStr (s : string)
| VInt (n : Z)
| VFloat (bits : Z)
| VBool (b : bool)
| VNone
| VList (items : list Value)
| VDict (items : list (string * Value))
| VObject (id : nat).

(** Every item of [tf.nest.flatten(value)] is an instance of
    [(str, int, float, bool, type(None))]. *)
Fixpoint supported (value : Value) : bool :=
  match value with
  | VStr _ | VInt _ | VFloat _ | VBool _ | VNone => true
  | VList items => forallb supported items
  | VDict items =>
      (fix go (items : list (string * Value)) : bool :=
         match items with
         | [] => true
         | (_, v) :: rest => supported v && go rest
         end) items
  | VObject _ => false
  end.

(** What [tf_inspect.getfullargspec(cls.__init__)] tells about a class, and
    whether the class defines [get_config] itself. *)
Record LayerClass := mkLayerClass {
  init_args : list string;        (* [argspec.args], [self] first *)
  init_varkw : option string;     (* [argspec.varkw] *)
  get_config_is_default : bool    (* [generic_utils.is_default(self.get_config)] *)
}.

(** The attributes of an instance that [get_config] reads.  [None] for
    [_auto_get_config] and [_batch_input_shape]: the instance has no such
    attribute. *)
Record Instance := mkInstance {
  name : string;
  trainable : bool;
  dtype_policy : Value;           (* [policy.serialize(self._dtype_policy)] *)
  _batch_input_shape : option Value;
  _auto_get_config : option bool;
  _auto_config : gmap string Value
      (* [self._auto_config.config]; [serialization_lib.Config] keeps the
         keyword arguments it is constructed with *)
}.

(** [kwargs.update(dict(items))] *)
Definition update (kwargs : gmap string Value) (items : list (string * Value))
    : gmap string Value :=
  foldl (λ kwargs item, <[item.1 := item.2]> kwargs) kwargs items.

(** [kwargs.update(dict(zip(arg_names[1 : len(args) + 1], args)))] *)
Definition named_arguments (arg_names : list string) (args : list Value)
    (kwargs : gmap string Value) : gmap string Value :=
  update kwargs (zip (take (length args) (drop 1 arg_names)) args).

(** [Layer.__new__(cls, *args, **kwargs)]: the two attributes it sets on
    the instance. *)
Definition __new__ (cls : LayerClass) (args : list Value)
    (kwargs : gmap string Value) : bool * option (gmap string Value) :=
  let arg_names := init_args cls in
  let kwargs := named_arguments arg_names args kwargs in
  let auto_get_config :=
    forallb (λ item, supported item.2) (map_to_list kwargs) in
  (auto_get_config, if auto_get_config then Some kwargs else None).

Inductive ConfigResult :=
| Config (config : gmap string Value)
| NotImplementedError.

(** The entries that [get_config] starts from. *)
Definition base_config (self : Instance) : gmap string Value :=
  let config := {[ "name" := VStr (name self); "trainable" := VBool (trainable self) ]} in
  let config := <["dtype" := dtype_policy self]> config in
  match _batch_input_shape self with
  | Some shape => <["batch_input_shape" := shape]> config
  | None => config
  end.

(** [Layer.get_config(self)] *)
Definition get_config (cls : LayerClass) (self : Instance) : ConfigResult :=
  let config := base_config self in
  if negb (get_config_is_default cls) then Config config
  else if default false (_auto_get_config self) then
    let xtra_args := dom config in
    let config := _auto_config self ∪ config in
    let config :=
      if decide (init_varkw cls ≠ Some "kwargs") then
        foldr delete config
          (elements (xtra_args ∖ (xtra_args ∩ list_to_set (drop 1 (init_args cls)))))
      else config in
    Config config
  else NotImplementedError.

(** The instance as [__new__] leaves it (a class that does not override
    [__setattr__]), with the attributes that [__init__] sets later. *)
Definition construct (cls : LayerClass) (args : list Value)
    (kwargs : gmap string Value) (name : string) (trainable : bool)
    (dtype_policy : Value) (batch_input_shape : option Value) : Instance :=
  let '(auto_get_config, auto_config) := __new__ cls args kwargs in
  mkInstance name trainable dtype_policy batch_input_shape
    (Some auto_get_config) (default ∅ auto_config).

Lemma foldr_delete_lookup (keys : list string) (config : gmap string Value) k :
  foldr delete config keys !! k = if decide (k ∈ keys) then None else config !! k.
Proof.
  induction keys as [| key keys IH]; [done |]. cbn [foldr].
  destruct (decide (k = key)) as [-> | Hne].
  - rewrite lookup_delete_eq. by rewrite decide_True by by left.
  - rewrite lookup_delete_ne, IH by done.
    destruct (decide (k ∈ keys)) as [Hin | Hin].
    + by rewrite decide_True by by right.
    + rewrite decide_False; [done |]. by intros [? | ?]%elem_of_cons.
Qed.

Lemma update_cons kwargs p v names args :
  update kwargs (zip (p :: names) (v :: args))
  = update (<[p := v]> kwargs) (zip names args).
Proof. done. Qed.

Lemma update_other names args kwargs k :
  k ∉ names → update kwargs (zip names args) !! k = kwargs !! k.
Proof.
  revert args kwargs. induction names as [| p names IH]; intros args kwargs Hk; [done |].
  destruct args as [| v args]; [done |].
  rewrite update_cons, IH by set_solver. apply lookup_insert_ne. set_solver.
Qed.

Lemma update_positional names args kwargs i p v :
  NoDup names → names !! i = Some p → args !! i = Some v →
  update kwargs (zip names args) !! p = Some v.
Proof.
  intros Hnames. revert args kwargs i.
  induction Hnames as [| p0 names Hp0 Hnames IH]; intros args kwargs i; [done |].
  destruct args as [| v0 args]; [done |]. rewrite update_cons.
  destruct i as [| i]; simpl.
  - intros [= ->] [= ->]. rewrite update_other by done. apply lookup_insert_eq.
  - apply IH.
Qed.

Lemma update_dom names args kwargs k :
  is_Some (update kwargs (zip names args) !! k) → k ∈ names ∨ is_Some (kwargs !! k).
Proof.
  destruct (decide (k ∈ names)) as [Hin | Hin]; [by left |].
  rewrite update_other by done. by right.
Qed.

Lemma base_config_dom (self : Instance) k :
  k ∈ dom (base_config self) →
  k ∈ ["name"; "trainable"; "dtype"; "batch_input_shape"].
Proof.
  unfold base_config. destruct (_batch_input_shape self); set_solver.
Qed.

(** The entries of the generated configuration. *)
Lemma get_config_lookup (cls : LayerClass) (self : Instance) :
  get_config_is_default cls = true →
  _auto_get_config self = Some true →
  ∃ config,
    get_config cls self = Config config
    ∧ ∀ k, config !! k
           = if decide (init_varkw cls ≠ Some "kwargs"
                        ∧ k ∈ dom (base_config self)
                        ∧ k ∉ drop 1 (init_args cls))
             then None
             else (_auto_config self ∪ base_config self) !! k.
Proof.
  intros Hdefault Hauto. unfold get_config. rewrite Hdefault, Hauto. simpl.
  eexists. split; [done |]. intros k.
  destruct (decide (init_varkw cls ≠ Some "kwargs")) as [Hkw | Hkw].
  - rewrite foldr_delete_lookup.
    destruct (decide (k ∈ elements _)) as [Hin | Hin].
    + rewrite decide_True; [done |]. set_solver.
    + rewrite decide_False; [done |]. set_solver.
  - rewrite decide_False; [done |]. by intros [? _].
Qed.

(** X23.  The configuration of a layer whose class does not define
    [get_config], made of the constructor arguments that [__new__] kept.
    When every argument is made of strings, numbers, booleans and [None],
    [get_config] returns a configuration that holds every argument passed
    by position under the name of its parameter, and every keyword argument
    that is a parameter, that is none of the entries [get_config] adds
    itself, or whose class takes [**kwargs]; each of its keys is a
    parameter, a keyword that was passed, or goes to [**kwargs].  Unless the
    var-keyword parameter is called [kwargs], the entries [name],
    [trainable], [dtype] and [batch_input_shape] that are no parameters
    are left out, also when they were passed.  When some argument is of
    another type, [get_config] raises [NotImplementedError]. *)
Theorem auto_config_keeps_arguments (cls : LayerClass) (args : list Value)
    (kwargs : gmap string Value) (name : string) (trainable : bool)
    (dtype_policy : Value) (batch_input_shape : option Value) :
  NoDup (init_args cls) →
  get_config_is_default cls = true →
  let self := construct cls args kwargs name trainable dtype_policy batch_input_shape in
  let parameters := drop 1 (init_args cls) in
  let passed := named_arguments (init_args cls) args kwargs in
  (forallb (λ item, supported item.2) (map_to_list passed) = true →
   ∃ config,
     get_config cls self = Config config
     ∧ (∀ i p v, parameters !! i = Some p → args !! i = Some v →
                 config !! p = Some v)
     ∧ (∀ k v, kwargs !! k = Some v →
               k ∉ take (length args) parameters →
               k ∈ parameters ∨ init_varkw cls = Some "kwargs"
               ∨ k ∉ ["name"; "trainable"; "dtype"; "batch_input_shape"] →
               config !! k = Some v)
     ∧ (∀ k, is_Some (config !! k) →
             k ∈ parameters ∨ is_Some (kwargs !! k)
             ∨ init_varkw cls = Some "kwargs")
     ∧ (init_varkw cls ≠ Some "kwargs" →
        ∀ k, k ∈ dom (base_config self) → k ∉ parameters → config !! k = None))
  ∧ (forallb (λ item, supported item.2) (map_to_list passed) = false →
     get_config cls self = NotImplementedError).
Proof.
  intros Hnames Hdefault self parameters passed.
  assert (NoDup (take (length args) parameters)) as Htaken.
  { eapply sublist_NoDup; [| apply sublist_take].
    eapply sublist_NoDup; [exact Hnames | apply sublist_drop]. }
  split.
  - intros Hsupported.
    assert (_auto_get_config self = Some true ∧ _auto_config self = passed)
      as [Hauto Hconfig].
    { subst self. unfold construct, __new__. cbv zeta. fold passed.
      by rewrite Hsupported. }
    destruct (get_config_lookup cls self Hdefault Hauto) as (config & Hget & Hlookup).
    exists config. split; [done |]. rewrite Hconfig in Hlookup.
    split; [| split; [| split]].
    + intros i p v Hp Hv. rewrite Hlookup.
      rewrite decide_False.
      2: { intros (_ & _ & Hout). apply Hout. by eapply list_elem_of_lookup_2. }
      apply lookup_union_Some_l.
      apply (update_positional _ _ _ i); [done | | done].
      rewrite lookup_take_lt; [done |]. by eapply lookup_lt_Some.
    + intros k v Hk Hnot Hkept. rewrite Hlookup.
      rewrite decide_False.
      2: { intros (Hkw & Hbase%base_config_dom & Hout).
           destruct Hkept as [? | [? | ?]]; done. }
      apply lookup_union_Some_l. unfold passed, named_arguments.
      by rewrite update_other.
    + intros k. rewrite Hlookup.
      destruct (decide _) as [? | Hkeep]; [by intros [? ?] |].
      intros [v [Hv | [_ Hv]]%lookup_union_Some_raw].
      * destruct (update_dom _ _ _ _ (mk_is_Some _ _ Hv)) as [Hin | Hin];
          [| by right; left].
        left. apply elem_of_take in Hin as (i & Hi & _).
        by eapply list_elem_of_lookup_2.
      * destruct (decide (k ∈ parameters)) as [? | Hout]; [by left |].
        destruct (decide (init_varkw cls = Some "kwargs")) as [? | Hkw];
          [by right; right |].
        exfalso. apply Hkeep. split; [done |]. split; [| done].
        apply elem_of_dom. by eexists.
    + intros Hkw k Hk Hout. rewrite Hlookup. by rewrite decide_True.
  - intros Hunsupported. subst self.
    unfold construct, __new__, get_config. cbv zeta. fold passed.
    by rewrite Hunsupported, Hdefault.
Qed.

(** A class with the constructor [__init__(self, units, activation=None,
    **kwargs)], constructed as [cls(3, activation="relu", name="d")]. *)
Definition dense_like : LayerClass :=
  mkLayerClass ["self"; "units"; "activation"] (Some "kwargs") true.

Lemma auto_config_keeps_arguments_witness :
  ∃ config,
    get_config dense_like
      (construct dense_like [VInt 3]
         {[ "activation" := VStr "relu"; "name" := VStr "d" ]}
         "d" true (VStr "float32") None)
    = Config config
    ∧ config !! "units" = Some (VInt 3)
    ∧ config !! "activation" = Some (VStr "relu")
    ∧ config !! "name" = Some (VStr "d").
Proof.
  destruct (auto_config_keeps_arguments dense_like [VInt 3]
              {[ "activation" := VStr "relu"; "name" := VStr "d" ]}
              "d" true (VStr "float32") None)
    as [Hsupported _].
  { apply NoDup_ListNoDup. repeat constructor; simpl; intuition discriminate. }
  { reflexivity. }
  destruct Hsupported as (config & Hget & Hposition & Hkeyword & _).
  { by vm_compute. }
  exists config. split; [exact Hget |].
  split; [exact (Hposition 0 "units" (VInt 3) eq_refl eq_refl) |].
  split.
  - apply Hkeyword.
    + by vm_compute.
    + simpl. intros Hin%list_elem_of_singleton. discriminate Hin.
    + left. simpl. apply elem_of_cons. right. apply list_elem_of_singleton. reflexivity.
  - apply Hkeyword.
    + by vm_compute.
    + simpl. intros Hin%list_elem_of_singleton. discriminate Hin.
    + right. left. reflexivity.
Defined.

End AutoConfig.
